(** * Webex messaging MCP server: token lifecycle, auth facade and
      time-bounded message listing

    A shallow embedding of

    - [src/lib/keychain/index.js]          (Keychain glue),
    - [src/lib/keychain/token-manager.js]  (token lifecycle manager),
    - [src/lib/webex-config.js]            (auth facade),
    - [src/tools/.../list-messages.js]     (listing tool),

    written over one explicit program state and a small free monad whose
    nodes are the effects the JavaScript performs: reading and writing the
    module-level variables, throwing, and awaiting an external operation.
    Every [await] on an external operation is a node of its own, so the same
    definitions serve a call that runs alone ([exec]) and calls that
    interleave on the event loop ([Loop]). *)

From Stdlib Require Import ZArith NArith List String Ascii Bool Lia.
Import ListNotations.
Local Open Scope string_scope.
Local Open Scope Z_scope.

(** ** JavaScript values *)

(** JSON values as [response.json()] yields them, plus [undefined].
    Numbers are integers: the only numbers the modelled code computes with
    are counts and millisecond timestamps.  A string is the sequence of
    bytes of its UTF-8 encoding, which is how the environment, the Keychain
    and the API hand text over. *)
#[local] Unset Elimination Schemes.
Inductive JsVal : Type :=
| JUndefined
| JNull
| JBool (b : bool)
| JNum (n : Z)
| JStr (s : string)
| JArr (xs : list JsVal)
| JObj (fields : list (string * JsVal)).
#[local] Set Elimination Schemes.

(** An object is its list of own properties. *)
Definition Object : Type := list (string * JsVal).

(** [o.k]: the value of property [k], [undefined] when [o] has none. *)
Fixpoint prop (k : string) (o : Object) : JsVal :=
  match o with
  | [] => JUndefined
  | (k', v) :: o' => if String.eqb k k' then v else prop k o'
  end.

Definition keys (o : Object) : list string := map fst o.

(** ToBoolean. *)
Definition truthy (v : JsVal) : bool :=
  match v with
  | JUndefined | JNull => false
  | JBool b => b
  | JNum n => negb (n =? 0)
  | JStr s => negb (String.eqb s "")
  | JArr _ | JObj _ => true
  end.

(** A string-valued variable that may be [undefined] or [null]. *)
Definition truthy_str (o : option string) : bool :=
  match o with
  | Some s => negb (String.eqb s "")
  | None => false
  end.

Definition opt_js (o : option string) : JsVal :=
  match o with
  | Some s => JStr s
  | None => JUndefined
  end.

(** A JavaScript number that may be [NaN]: an integer that a double
    represents, or [NaN]. *)
Inductive JsNum : Type :=
| Num (z : Z)
| NaN.

(** The double nearest to the integer [z], ties going to the even
    significand: [z] itself below 2^53, and above it [z] rounded to 53
    significant bits. *)
Definition to_double (z : Z) : Z :=
  let a := Z.abs z in
  if a <? 2 ^ 53 then z
  else
    let k := Z.log2 a - 52 in
    let q := a / 2 ^ k in
    let r := a mod 2 ^ k in
    let half := 2 ^ (k - 1) in
    let q' := if (half <? r) || ((r =? half) && Z.odd q) then q + 1 else q in
    Z.sgn z * (q' * 2 ^ k).

(** A [Date]: a time value in milliseconds since the epoch, or an invalid
    date.  The time value of a [Date] the runtime makes lies within
    8.64e15 ms of the epoch. *)
Inductive JsDate : Type :=
| DateAt (ms : Z)
| InvalidDate.

Definition MAX_TIME_VALUE : Z := 8640000000000000.

(** [d.getTime()] *)
Definition getTime (d : JsDate) : JsNum :=
  match d with
  | DateAt ms => Num ms
  | InvalidDate => NaN
  end.

(** [new Date(x)] for a number [x]: an invalid date when [x] is [NaN] or
    lies more than 8.64e15 ms from the epoch (TimeClip). *)
Definition Date_of_num (x : JsNum) : JsDate :=
  match x with
  | Num ms => if Z.abs ms <=? MAX_TIME_VALUE then DateAt ms else InvalidDate
  | NaN => InvalidDate
  end.

(** [a - b] on numbers: the difference as a double. *)
Definition num_sub (a b : JsNum) : JsNum :=
  match a, b with
  | Num x, Num y => Num (to_double (x - y))
  | _, _ => NaN
  end.

(** [a <= b] on numbers: false as soon as one side is [NaN]. *)
Definition num_le (a b : JsNum) : bool :=
  match a, b with
  | Num x, Num y => x <=? y
  | _, _ => false
  end.

(** [a > b] and [a >= b] on dates compare the time values. *)
Definition date_gt (a b : JsDate) : bool :=
  match a, b with
  | DateAt x, DateAt y => y <? x
  | _, _ => false
  end.

Definition date_ge (a b : JsDate) : bool :=
  match a, b with
  | DateAt x, DateAt y => y <=? x
  | _, _ => false
  end.

(** [isNaN(d.getTime())] *)
Definition date_isNaN (d : JsDate) : bool :=
  match d with
  | DateAt _ => false
  | InvalidDate => true
  end.

(** ** Errors and results of awaited operations *)

Record Error : Type := mkError { message : string; stack : string }.

(** [new Error(msg)].  The stack of a real error continues with the call
    frames, which no modelled code inspects. *)
Definition new_Error (msg : string) : Error :=
  {| message := msg; stack := "Error: " ++ msg |}.

Inductive Result (A : Type) : Type :=
| Ok (a : A)
| Err (e : Error).
Arguments Ok {A} a.
Arguments Err {A} e.

(** ** Program state *)

Record TokenRecord : Type := mkTokenRecord { token : string; expiresAt : JsDate }.

(** The three closures [scheduleRefresh] hands to [setTimeout]. *)
Inductive TimerKind : Type :=
| ImmediateRefresh   (* token-manager.js 104-110 *)
| PlannedRefresh     (* token-manager.js 117-132 *)
| RetryRefresh.      (* token-manager.js 124-130 *)

(** A timer that [setTimeout] has armed and that has neither fired nor
    been cleared.  [timer_delay] is the delay handed to [setTimeout]. *)
Record Timer : Type := mkTimer {
  timer_id : nat;
  timer_kind : TimerKind;
  timer_delay : JsNum;
  timer_set_at : Z
}.

(** The one function this repository registers with
    [setTokenRefreshCallback] (webex-config.js 53-56 and 309-312). *)
Inductive Callback : Type :=
| FacadeAdoptsToken.

Inductive AuthMethod : Type :=
| Static
| AutoRefresh
| OAuth.

(** Lines written with [console.error]. *)
Inductive LogLine : Type :=
| LogUsingKeychainToken
| LogExpiredOrMissing
| LogStartingExtraction
| LogTokenRefreshed (iso : string)
| LogExpiringSoon
| LogScheduling (msUntilRefresh : JsNum)
| LogExecutingScheduled
| LogScheduledFailed (msg : string)
| LogRetryFailed (msg : string)
| LogCacheCleared
| LogKeychainStored
| LogKeychainNone
| LogKeychainCleared
| LogAuth (msg : string)
| LogListingError (msg : string).

(** What the process was started with, and the two entry points of
    [lib/oauth/index.js] (not part of the modelled sources) that the facade
    calls synchronously. *)
Record Process : Type := mkProcess {
  WEBEX_PUBLIC_WORKSPACE_API_KEY : option string;
  WEBEX_AUTO_REFRESH_TOKEN : option string;
  WEBEX_API_BASE_URL : option string;
  platform : string;
  hasOAuthCredentials : bool;
  oauth_getCachedToken : option string
}.

(** Module-level variables of token-manager.js. *)
Module TM.
Record vars : Type := mk {
  _refreshTimeout : option nat;
  _cachedToken : option string;
  _tokenExpiresAt : option JsDate;
  _onTokenRefreshed : option Callback
}.
Definition init : vars := mk None None None None.
End TM.

(** Module-level variables of webex-config.js. *)
Module Cfg.
Record vars : Type := mk {
  _cachedToken : option string;
  _authInitialized : bool;
  _authMethod : option AuthMethod;
  _keychainTokenManager : bool
}.
Definition init : vars := mk None false None false.
End Cfg.

Record State : Type := mkState {
  manager : TM.vars;
  config : Cfg.vars;
  timers : list Timer;       (* armed timers, oldest first *)
  timer_seq : nat;           (* next timer handle *)
  clock : Z;                 (* what [new Date()] reads *)
  console : list LogLine;
  process : Process
}.

Definition initial_state (p : Process) (now : Z) : State :=
  mkState TM.init Cfg.init [] 0 now [] p.

Definition with_manager (f : TM.vars -> TM.vars) (st : State) : State :=
  mkState (f (manager st)) (config st) (timers st) (timer_seq st)
          (clock st) (console st) (process st).

Definition with_config (f : Cfg.vars -> Cfg.vars) (st : State) : State :=
  mkState (manager st) (f (config st)) (timers st) (timer_seq st)
          (clock st) (console st) (process st).

Definition with_timers (f : list Timer -> list Timer) (st : State) : State :=
  mkState (manager st) (config st) (f (timers st)) (timer_seq st)
          (clock st) (console st) (process st).

Definition with_clock (now : Z) (st : State) : State :=
  mkState (manager st) (config st) (timers st) (timer_seq st)
          now (console st) (process st).

Definition with_console (f : list LogLine -> list LogLine) (st : State) : State :=
  mkState (manager st) (config st) (timers st) (timer_seq st)
          (clock st) (f (console st)) (process st).

Definition set_refreshTimeout (h : option nat) (m : TM.vars) : TM.vars :=
  TM.mk h (TM._cachedToken m) (TM._tokenExpiresAt m) (TM._onTokenRefreshed m).

Definition set_cached (t : option string) (e : option JsDate) (m : TM.vars) : TM.vars :=
  TM.mk (TM._refreshTimeout m) t e (TM._onTokenRefreshed m).

Definition set_onTokenRefreshed (c : option Callback) (m : TM.vars) : TM.vars :=
  TM.mk (TM._refreshTimeout m) (TM._cachedToken m) (TM._tokenExpiresAt m) c.

Definition set_cfg_token (t : option string) (c : Cfg.vars) : Cfg.vars :=
  Cfg.mk t (Cfg._authInitialized c) (Cfg._authMethod c) (Cfg._keychainTokenManager c).

Definition set_cfg_auth (i : bool) (m : option AuthMethod) (c : Cfg.vars) : Cfg.vars :=
  Cfg.mk (Cfg._cachedToken c) i m (Cfg._keychainTokenManager c).

Definition set_cfg_keychain (b : bool) (c : Cfg.vars) : Cfg.vars :=
  Cfg.mk (Cfg._cachedToken c) (Cfg._authInitialized c) (Cfg._authMethod c) b.

(** ** External operations *)

(** The body of a 2xx response of the messages endpoint: an object whose
    [items], when present, is an array of message objects. *)
Record Body : Type := mkBody {
  items : option (list Object);
  other_fields : Object
}.

(** The operations the program awaits.  [SecurityFind] answers with the
    trimmed standard output of the command. *)
Inductive IO : Type :=
| SecurityAdd (account password : string)
| SecurityFind (account : string)
| SecurityDelete (account : string)
| FetchTokenFromBrowser
| OAuthGetValidToken
| HttpGet (url : string) (query : Object) (headers : Object).

Definition Resp (io : IO) : Type :=
  match io with
  | SecurityAdd _ _ => Result unit
  | SecurityFind _ => Result string
  | SecurityDelete _ => Result unit
  | FetchTokenFromBrowser => Result TokenRecord
  | OAuthGetValidToken => Result string
  | HttpGet _ _ _ => Result Body
  end.

Definition is_browser_fetch (io : IO) : bool :=
  match io with
  | FetchTokenFromBrowser => true
  | _ => false
  end.

Definition is_http (io : IO) : bool :=
  match io with
  | HttpGet _ _ _ => true
  | _ => false
  end.

(** ** Programs *)

Inductive Prog (A : Type) : Type :=
| Ret (a : A)
| Throw (e : Error)
| Get (k : State -> Prog A)
| Put (s : State) (k : Prog A)
| Await (io : IO) (k : Resp io -> Prog A).
Arguments Ret {A} a.
Arguments Throw {A} e.
Arguments Get {A} k.
Arguments Put {A} s k.
Arguments Await {A} io k.

Fixpoint bind {A B : Type} (p : Prog A) (f : A -> Prog B) : Prog B :=
  match p with
  | Ret a => f a
  | Throw e => Throw e
  | Get k => Get (fun s => bind (k s) f)
  | Put s k => Put s (bind k f)
  | Await io k => Await io (fun r => bind (k r) f)
  end.

(** [try { p } catch (e) { h e }] *)
Fixpoint tryCatch {A : Type} (p : Prog A) (h : Error -> Prog A) : Prog A :=
  match p with
  | Ret a => Ret a
  | Throw e => h e
  | Get k => Get (fun s => tryCatch (k s) h)
  | Put s k => Put s (tryCatch k h)
  | Await io k => Await io (fun r => tryCatch (k r) h)
  end.

Declare Scope prog_scope.
Delimit Scope prog_scope with prog.
Bind Scope prog_scope with Prog.
Notation "x <- p ;; q" := (bind p (fun x => q))
  (at level 61, p at next level, right associativity) : prog_scope.
Notation "p ;; q" := (bind p (fun _ => q))
  (at level 61, right associativity) : prog_scope.
Local Open Scope prog_scope.

Definition gets {A : Type} (f : State -> A) : Prog A := Get (fun s => Ret (f s)).
Definition modify (f : State -> State) : Prog unit := Get (fun s => Put (f s) (Ret tt)).
Definition console_error (l : LogLine) : Prog unit :=
  modify (with_console (fun c => (c ++ [l])%list)).
Definition of_result {A : Type} (r : Result A) : Prog A :=
  match r with
  | Ok a => Ret a
  | Err e => Throw e
  end.
Definition when (b : bool) (p : Prog unit) : Prog unit := if b then p else Ret tt.

(** ** Running one call alone *)

(** The world answers the n-th awaited operation of a run and says how
    long it took. *)
Record World : Type := mkWorld {
  answer : nat -> forall io : IO, Resp io;
  elapsed : nat -> N
}.

Definition tick (d : N) (st : State) : State := with_clock (clock st + Z.of_N d) st.

(** [exec w p st n]: run [p] to completion from [st], with no other code
    running in between; [n] operations were awaited before.  Yields the
    final state, how [p] settled, and the operations awaited, in order. *)
Fixpoint exec {A : Type} (w : World) (p : Prog A) (st : State) (n : nat)
  : State * Result A * list IO :=
  match p with
  | Ret a => (st, Ok a, [])
  | Throw e => (st, Err e, [])
  | Get k => exec w (k st) st n
  | Put s k => exec w k s n
  | Await io k =>
      let '(st', r, tr) := exec w (k (answer w n io)) (tick (elapsed w n) st) (S n) in
      (st', r, io :: tr)
  end.

Section Program.

(** Two built-ins of the runtime are parameters of the whole development:
    [new Date(v)] for a JSON value [v], and [toISOString] of a valid time
    value.  Nothing is assumed about either. *)
Variable Date_new : JsVal -> JsDate.
Variable toISOString : Z -> string.

(** [d.toISOString()] throws a RangeError on an invalid date. *)
Definition Date_toISOString (d : JsDate) : Prog string :=
  match d with
  | DateAt ms => Ret (toISOString ms)
  | InvalidDate => Throw (mkError "Invalid time value" "RangeError: Invalid time value")
  end.

(** ** lib/keychain/index.js *)

Definition KEYCHAIN_ACCOUNT : string := "personal-access-token".
Definition KEYCHAIN_EXPIRY_ACCOUNT : string := "personal-access-token-expiry".

Definition addToKeychain (account password : string) : Prog unit :=
  Await (SecurityAdd account password) (fun r =>
    match r with
    | Ok _ => Ret tt
    | Err error => Throw (new_Error ("Failed to store in Keychain: " ++ message error))
    end).

Definition getFromKeychain (account : string) : Prog string :=
  Await (SecurityFind account) (fun r =>
    match r with
    | Ok stdout => Ret stdout
    | Err error => Throw (new_Error ("Failed to read from Keychain: " ++ message error))
    end).

Definition deleteFromKeychain (account : string) : Prog unit :=
  Await (SecurityDelete account) (fun _ => Ret tt).

Definition is_darwin (st : State) : bool := String.eqb (platform (process st)) "darwin".

Definition storeToken (token : string) (expiresAt : JsDate) : Prog unit :=
  darwin <- gets is_darwin ;;
  if negb darwin then Throw (new_Error "Keychain storage is only supported on macOS")
  else
    tryCatch (deleteFromKeychain KEYCHAIN_ACCOUNT) (fun _ => Ret tt) ;;
    tryCatch (deleteFromKeychain KEYCHAIN_EXPIRY_ACCOUNT) (fun _ => Ret tt) ;;
    addToKeychain KEYCHAIN_ACCOUNT token ;;
    iso <- Date_toISOString expiresAt ;;
    addToKeychain KEYCHAIN_EXPIRY_ACCOUNT iso ;;
    console_error LogKeychainStored.

Definition loadToken : Prog (option TokenRecord) :=
  darwin <- gets is_darwin ;;
  if negb darwin then Ret None
  else
    tryCatch
      (token <- getFromKeychain KEYCHAIN_ACCOUNT ;;
       expiryStr <- getFromKeychain KEYCHAIN_EXPIRY_ACCOUNT ;;
       if negb (truthy (JStr token)) || negb (truthy (JStr expiryStr)) then Ret None
       else
         let expiresAt := Date_new (JStr expiryStr) in
         Ret (Some (mkTokenRecord token expiresAt)))
      (fun _ => console_error LogKeychainNone ;; Ret None).

Definition clearToken : Prog unit :=
  darwin <- gets is_darwin ;;
  if negb darwin then Ret tt
  else
    tryCatch (deleteFromKeychain KEYCHAIN_ACCOUNT) (fun _ => Ret tt) ;;
    tryCatch (deleteFromKeychain KEYCHAIN_EXPIRY_ACCOUNT) (fun _ => Ret tt) ;;
    console_error LogKeychainCleared.

(** index.js 99-109 *)
Definition isTokenValid : Prog bool :=
  stored <- loadToken ;;
  match stored with
  | None => Ret false
  | Some stored =>
      now <- gets clock ;;
      Ret (date_gt (expiresAt stored) (DateAt now))
  end.

(** ** lib/keychain/token-manager.js *)

Definition REFRESH_BEFORE_EXPIRY_MINUTES : Z := 30.

Definition setTokenRefreshCallback (callback : Callback) : Prog unit :=
  modify (with_manager (set_onTokenRefreshed (Some callback))).

(** [clearTimeout(h)]: disarms the timer if it is still armed. *)
Definition clearTimeout (h : nat) : Prog unit :=
  modify (with_timers (filter (fun t => negb (Nat.eqb (timer_id t) h)))).

(** [setTimeout(closure, delay)]: arms a timer and returns its handle. *)
Definition setTimeout (kind : TimerKind) (delay : JsNum) : Prog nat :=
  Get (fun st =>
    let h := timer_seq st in
    Put (mkState (manager st) (config st)
                 (timers st ++ [mkTimer h kind delay (clock st)])%list
                 (S h) (clock st) (console st) (process st))
        (Ret h)).

(** [_cachedToken && _tokenExpiresAt && _tokenExpiresAt > new Date()] *)
Definition cache_is_fresh (st : State) : bool :=
  truthy_str (TM._cachedToken (manager st)) &&
  match TM._tokenExpiresAt (manager st) with
  | Some d => date_gt d (DateAt (clock st))
  | None => false
  end.

(** [_cachedToken] where the test above has passed, hence a string. *)
Definition cached_or_empty (st : State) : string :=
  match TM._cachedToken (manager st) with
  | Some t => t
  | None => ""
  end.

Definition scheduleRefresh (expiresAt : JsDate) : Prog unit :=
  h <- gets (fun st => TM._refreshTimeout (manager st)) ;;
  match h with
  | Some id =>
      clearTimeout id ;;
      modify (with_manager (set_refreshTimeout None))
  | None => Ret tt
  end ;;
  let refreshAt :=
    Date_of_num (num_sub (getTime expiresAt)
                         (Num (REFRESH_BEFORE_EXPIRY_MINUTES * 60 * 1000))) in
  now <- gets clock ;;
  let msUntilRefresh := num_sub (getTime refreshAt) (Num now) in
  if num_le msUntilRefresh (Num 0) then
    console_error LogExpiringSoon ;;
    id <- setTimeout ImmediateRefresh (Num 1000) ;;
    modify (with_manager (set_refreshTimeout (Some id)))
  else
    console_error (LogScheduling msUntilRefresh) ;;
    id <- setTimeout PlannedRefresh msUntilRefresh ;;
    modify (with_manager (set_refreshTimeout (Some id))).

(** The registered callback, invoked with the new token:
    [(newToken) => { _cachedToken = newToken; console.error(...) }]. *)
Definition invoke (cb : Callback) (newToken : string) : Prog unit :=
  match cb with
  | FacadeAdoptsToken =>
      modify (with_config (set_cfg_token (Some newToken))) ;;
      console_error (LogAuth "Token refreshed via auto-refresh")
  end.

Definition fetchTokenFromBrowser : Prog TokenRecord :=
  Await FetchTokenFromBrowser of_result.

Definition forceRefresh : Prog string :=
  console_error LogStartingExtraction ;;
  fetched <- fetchTokenFromBrowser ;;
  let token := token fetched in
  let expiresAt := expiresAt fetched in
  storeToken token expiresAt ;;
  modify (with_manager (set_cached (Some token) (Some expiresAt))) ;;
  scheduleRefresh expiresAt ;;
  cb <- gets (fun st => TM._onTokenRefreshed (manager st)) ;;
  match cb with
  | Some callback => invoke callback token
  | None => Ret tt
  end ;;
  iso <- Date_toISOString expiresAt ;;
  console_error (LogTokenRefreshed iso) ;;
  Ret token.

Definition getValidToken : Prog string :=
  fresh <- gets cache_is_fresh ;;
  if fresh then gets cached_or_empty
  else
    stored <- loadToken ;;
    now <- gets clock ;;
    match stored with
    | Some (mkTokenRecord token expiresAt) =>
        if date_gt expiresAt (DateAt now) then
          modify (with_manager (set_cached (Some token) (Some expiresAt))) ;;
          scheduleRefresh expiresAt ;;
          console_error LogUsingKeychainToken ;;
          Ret token
        else
          console_error LogExpiredOrMissing ;;
          forceRefresh
    | None =>
        console_error LogExpiredOrMissing ;;
        forceRefresh
    end.

(** The closures armed by [scheduleRefresh], by kind. *)
Definition timerCallback (kind : TimerKind) : Prog unit :=
  match kind with
  | ImmediateRefresh =>
      tryCatch (forceRefresh ;; Ret tt)
        (fun error => console_error (LogScheduledFailed (message error)))
  | PlannedRefresh =>
      tryCatch
        (console_error LogExecutingScheduled ;;
         forceRefresh ;; Ret tt)
        (fun error =>
           console_error (LogScheduledFailed (message error)) ;;
           id <- setTimeout RetryRefresh (Num (5 * 60 * 1000)) ;;
           modify (with_manager (set_refreshTimeout (Some id))))
  | RetryRefresh =>
      tryCatch (forceRefresh ;; Ret tt)
        (fun retryError => console_error (LogRetryFailed (message retryError)))
  end.

Definition getCachedToken : Prog (option string) :=
  fresh <- gets cache_is_fresh ;;
  if fresh then gets (fun st => TM._cachedToken (manager st))
  else Ret None.

Definition clearCachedToken : Prog unit :=
  h <- gets (fun st => TM._refreshTimeout (manager st)) ;;
  match h with
  | Some id =>
      clearTimeout id ;;
      modify (with_manager (set_refreshTimeout None))
  | None => Ret tt
  end ;;
  modify (with_manager (set_cached None None)) ;;
  clearToken ;;
  console_error LogCacheCleared.

(** The text of [Math.round(ms / 1000 / 60)] in a template literal, for a
    number [ms] of milliseconds: the runtime's arithmetic on doubles and its
    number formatting.  A parameter like [toISOString]; nothing is assumed
    about it. *)
Variable minutes_text : Z -> string.

(** The object [getTokenStatus] returns; [None] is [null]. *)
Record TokenStatus : Type := mkTokenStatus {
  hasToken : bool;
  isValid : bool;
  status_expiresAt : option string;
  expiresIn : option string
}.

Definition opt_null (o : option string) : JsVal :=
  match o with
  | Some s => JStr s
  | None => JNull
  end.

Definition status_to_js (s : TokenStatus) : JsVal :=
  JObj [("hasToken", JBool (hasToken s));
        ("isValid", JBool (isValid s));
        ("expiresAt", opt_null (status_expiresAt s));
        ("expiresIn", opt_null (expiresIn s))].

(** token-manager.js 166-188 *)
Definition getTokenStatus : Prog TokenStatus :=
  stored <- loadToken ;;
  match stored with
  | None => Ret (mkTokenStatus false false None None)
  | Some stored =>
      now <- gets clock ;;
      let isValid := date_gt (expiresAt stored) (DateAt now) in
      let expiresIn :=
        match expiresAt stored with
        | DateAt E => if isValid then minutes_text (E - now) else "0"
        | InvalidDate => "0"
        end in
      iso <- Date_toISOString (expiresAt stored) ;;
      Ret (mkTokenStatus true isValid (Some iso)
             (Some (if isValid then expiresIn ++ " minutes" else "expired")))
  end.

(** ** lib/webex-config.js *)

(** What [\s] matches, in UTF-8: the characters U+0009 to U+000D and
    U+0020 (one byte), U+00A0 (two bytes, C2 A0), and U+1680, U+2000 to
    U+200A, U+2028, U+2029, U+202F, U+205F, U+3000 and U+FEFF (three
    bytes).  Bytes that decode to no character are read by the runtime as
    U+FFFD, which is not white space. *)
Definition space_of_1 (b : nat) : bool :=
  (Nat.eqb b 32 || (Nat.leb 9 b && Nat.leb b 13))%bool.

Definition space_of_2 (b1 b2 : nat) : bool :=
  (Nat.eqb b1 194 && Nat.eqb b2 160)%bool.

Definition space_of_3 (b1 b2 b3 : nat) : bool :=
  ((Nat.eqb b1 225 && Nat.eqb b2 154 && Nat.eqb b3 128) ||
   (Nat.eqb b1 226 && Nat.eqb b2 128 &&
    ((Nat.leb 128 b3 && Nat.leb b3 138) || Nat.eqb b3 168 || Nat.eqb b3 169 ||
     Nat.eqb b3 175)) ||
   (Nat.eqb b1 226 && Nat.eqb b2 129 && Nat.eqb b3 159) ||
   (Nat.eqb b1 227 && Nat.eqb b2 128 && Nat.eqb b3 128) ||
   (Nat.eqb b1 239 && Nat.eqb b2 187 && Nat.eqb b3 191))%bool.

(** [s] without the white-space character it starts with, if it starts
    with one. *)
Definition skip_space (s : string) : option string :=
  match s with
  | String c1 s1 =>
      if space_of_1 (nat_of_ascii c1) then Some s1
      else
        match s1 with
        | String c2 s2 =>
            if space_of_2 (nat_of_ascii c1) (nat_of_ascii c2) then Some s2
            else
              match s2 with
              | String c3 s3 =>
                  if space_of_3 (nat_of_ascii c1) (nat_of_ascii c2) (nat_of_ascii c3)
                  then Some s3 else None
              | EmptyString => None
              end
        | EmptyString => None
        end
  | EmptyString => None
  end.

(** [s] without its leading white space; [fuel] bounds the number of
    characters dropped. *)
Fixpoint drop_spaces_upto (fuel : nat) (s : string) : string :=
  match fuel with
  | O => s
  | S fuel' =>
      match skip_space s with
      | Some s' => drop_spaces_upto fuel' s'
      | None => s
      end
  end.

Definition drop_spaces (s : string) : string := drop_spaces_upto (String.length s) s.

Fixpoint strip_prefix (p s : string) : option string :=
  match p, s with
  | EmptyString, _ => Some s
  | String a p', String b s' => if Ascii.eqb a b then strip_prefix p' s' else None
  | String _ _, EmptyString => None
  end.

(** [s.replace(/^Bearer\s+/, '')] *)
Definition strip_bearer (s : string) : string :=
  match strip_prefix "Bearer" s with
  | Some rest =>
      match skip_space rest with
      | Some rest' => drop_spaces rest'
      | None => s
      end
  | None => s
  end.

(** [process.env.WEBEX_AUTO_REFRESH_TOKEN === 'true'] *)
Definition auto_refresh_enabled (p : Process) : bool :=
  match WEBEX_AUTO_REFRESH_TOKEN p with
  | Some v => String.eqb v "true"
  | None => false
  end.

Definition NO_AUTH_CONFIGURED : string :=
  "No authentication configured. Either set WEBEX_PUBLIC_WORKSPACE_API_KEY, " ++
  "WEBEX_AUTO_REFRESH_TOKEN=true (macOS), or configure OAuth with " ++
  "WEBEX_OAUTH_CLIENT_ID and WEBEX_OAUTH_CLIENT_SECRET".

Definition PLATFORM_UNSUPPORTED : string :=
  "Auto-refresh token is only supported on macOS".

(** [getValidToken] of lib/oauth/index.js: awaited, may reject. *)
Definition oauth_getValidToken : Prog string := Await OAuthGetValidToken of_result.

Definition initializeAuth : Prog unit :=
  env <- gets process ;;
  (* Priority 1: static token *)
  let staticToken := WEBEX_PUBLIC_WORKSPACE_API_KEY env in
  if truthy_str staticToken then
    modify (with_config (set_cfg_token
      (match staticToken with Some t => Some (strip_bearer t) | None => None end))) ;;
    modify (with_config (set_cfg_auth true (Some Static))) ;;
    console_error (LogAuth "Using static API key from environment")
  (* Priority 2: auto-refresh personal token *)
  else if auto_refresh_enabled env then
    if negb (String.eqb (platform env) "darwin") then
      Throw (new_Error PLATFORM_UNSUPPORTED)
    else
      console_error (LogAuth "Using auto-refresh personal token mode...") ;;
      modify (with_config (set_cfg_keychain true)) ;;
      setTokenRefreshCallback FacadeAdoptsToken ;;
      t <- getValidToken ;;
      modify (with_config (set_cfg_token (Some t))) ;;
      modify (with_config (set_cfg_auth true (Some AutoRefresh))) ;;
      console_error (LogAuth "Auto-refresh authentication complete")
  (* Priority 3: OAuth *)
  else if hasOAuthCredentials env then
    console_error (LogAuth "No static token found, using OAuth...") ;;
    t <- oauth_getValidToken ;;
    modify (with_config (set_cfg_token (Some t))) ;;
    modify (with_config (set_cfg_auth true (Some OAuth))) ;;
    console_error (LogAuth "OAuth authentication complete")
  else
    Throw (new_Error NO_AUTH_CONFIGURED).

Definition getWebexBaseUrl : Prog string :=
  env <- gets process ;;
  Ret (if truthy_str (WEBEX_API_BASE_URL env)
       then match WEBEX_API_BASE_URL env with Some u => u | None => "" end
       else "https://webexapis.com/v1").

Definition getWebexToken : Prog string :=
  m <- gets (fun st => Cfg._authMethod (config st)) ;;
  match m with
  | Some OAuth =>
      oauthToken <- gets (fun st => oauth_getCachedToken (process st)) ;;
      when (truthy_str oauthToken) (modify (with_config (set_cfg_token oauthToken)))
  | _ => Ret tt
  end ;;
  loaded <- gets (fun st => Cfg._keychainTokenManager (config st)) ;;
  match m with
  | Some AutoRefresh =>
      when loaded
        (autoRefreshToken <- getCachedToken ;;
         when (truthy_str autoRefreshToken)
              (modify (with_config (set_cfg_token autoRefreshToken))))
  | _ => Ret tt
  end ;;
  initialized <- gets (fun st => Cfg._authInitialized (config st)) ;;
  if negb initialized then
    Throw (new_Error "Authentication not initialized. Call initializeAuth() first.")
  else
    cached <- gets (fun st => Cfg._cachedToken (config st)) ;;
    match cached with
    | Some t =>
        if truthy (JStr t) then Ret t
        else Throw (new_Error "No valid token available. Authentication may have failed.")
    | None => Throw (new_Error "No valid token available. Authentication may have failed.")
    end.

(** [{ ...o, k: v }] *)
Fixpoint obj_set (k : string) (v : JsVal) (o : Object) : Object :=
  match o with
  | [] => [(k, v)]
  | (k', v') :: o' => if String.eqb k k' then (k, v) :: o' else (k', v') :: obj_set k v o'
  end.

Definition spread (o extra : Object) : Object :=
  fold_left (fun acc kv => obj_set (fst kv) (snd kv) acc) extra o.

Definition getWebexHeaders (additionalHeaders : Object) : Prog Object :=
  token <- getWebexToken ;;
  Ret (spread [("Accept", JStr "application/json");
               ("Authorization", JStr ("Bearer " ++ token))]
              additionalHeaders).

Definition starts_with_slash (s : string) : bool :=
  match s with
  | String c _ => Ascii.eqb c "/"%char
  | EmptyString => false
  end.

Definition getWebexUrl (endpoint : string) : Prog string :=
  baseUrl <- getWebexBaseUrl ;;
  let cleanEndpoint := if starts_with_slash endpoint then endpoint else "/" ++ endpoint in
  Ret (baseUrl ++ cleanEndpoint).

(** webex-config.js 87-89 *)
Definition isAuthInitialized : Prog bool :=
  gets (fun st => Cfg._authInitialized (config st)).

(** webex-config.js 152-157 *)
Definition getWebexJsonHeaders (additionalHeaders : Object) : Prog Object :=
  getWebexHeaders (spread [("Content-Type", JStr "application/json")] additionalHeaders).

Definition MISSING_AUTH_CONFIGURATION : string :=
  "Missing authentication configuration. Set WEBEX_PUBLIC_WORKSPACE_API_KEY, " ++
  "WEBEX_AUTO_REFRESH_TOKEN=true (macOS), or configure OAuth with " ++
  "WEBEX_OAUTH_CLIENT_ID and WEBEX_OAUTH_CLIENT_SECRET".

(** webex-config.js 175-187 *)
Definition validateWebexConfig : Prog unit :=
  env <- gets process ;;
  let hasStaticToken := truthy_str (WEBEX_PUBLIC_WORKSPACE_API_KEY env) in
  let hasAutoRefresh := auto_refresh_enabled env in
  let hasOAuth := hasOAuthCredentials env in
  if negb hasStaticToken && negb hasAutoRefresh && negb hasOAuth then
    Throw (new_Error MISSING_AUTH_CONFIGURATION)
  else Ret tt.

(** Three more entry points of [lib/oauth/index.js], which is not among
    the sources: [getAuthStatus], [forceReauthenticate] and [clearTokens].
    Each stands for whatever that module runs; nothing is assumed about
    them. *)
Variable oauth_getAuthStatus : Prog JsVal.
Variable oauth_forceReauthenticate : Prog string.
Variable oauth_clearTokens : Prog unit.

(** webex-config.js 200-240 *)
Definition getFullAuthStatus : Prog JsVal :=
  env <- gets process ;;
  let hasStaticToken := truthy_str (WEBEX_PUBLIC_WORKSPACE_API_KEY env) in
  let hasAutoRefresh := auto_refresh_enabled env in
  if hasStaticToken then
    Ret (JObj [("authenticated", JBool true);
               ("method", JStr "static_token");
               ("message",
                JStr "Using static API token from WEBEX_PUBLIC_WORKSPACE_API_KEY")])
  else if hasAutoRefresh then
    loaded <- gets (fun st => Cfg._keychainTokenManager (config st)) ;;
    if loaded then
      tokenStatus <- getTokenStatus ;;
      Ret (JObj [("authenticated", JBool (isValid tokenStatus));
                 ("method", JStr "auto_refresh");
                 ("message",
                  JStr (if isValid tokenStatus
                        then "Using auto-refresh personal token (expires in " ++
                             match expiresIn tokenStatus with
                             | Some s => s
                             | None => "null"
                             end ++ ")"
                        else "Auto-refresh token expired or not yet fetched"));
                 ("tokenStatus", status_to_js tokenStatus)])
    else
      Ret (JObj [("authenticated", JBool false);
                 ("method", JStr "auto_refresh");
                 ("message", JStr "Auto-refresh mode configured but not initialized")])
  else if hasOAuthCredentials env then oauth_getAuthStatus
  else
    Ret (JObj [("authenticated", JBool false);
               ("method", JNull);
               ("message", JStr "No authentication configured")]).

(** The object literal [{ success, message }]. *)
Definition outcome (success : bool) (message : string) : JsVal :=
  JObj [("success", JBool success); ("message", JStr message)].

(** webex-config.js 298-330 *)
Definition refreshAutoToken : Prog JsVal :=
  env <- gets process ;;
  if negb (String.eqb (platform env) "darwin") then
    Ret (outcome false "Auto-refresh token is only supported on macOS")
  else
    tryCatch
      (loaded <- gets (fun st => Cfg._keychainTokenManager (config st)) ;;
       when (negb loaded)
         (modify (with_config (set_cfg_keychain true)) ;;
          setTokenRefreshCallback FacadeAdoptsToken) ;;
       console_error (LogAuth "Forcing token refresh via browser...") ;;
       t <- forceRefresh ;;
       modify (with_config (set_cfg_token (Some t))) ;;
       modify (with_config (set_cfg_auth true (Some AutoRefresh))) ;;
       Ret (outcome true "Personal token refreshed successfully via browser automation"))
      (fun error => Ret (outcome false ("Token refresh failed: " ++ message error))).

(** webex-config.js 247-292; [force] is [None] when the argument is left
    out. *)
Definition reauthenticate (force : option bool) : Prog JsVal :=
  let force := match force with Some b => b | None => true end in
  env <- gets process ;;
  let hasStaticToken := truthy_str (WEBEX_PUBLIC_WORKSPACE_API_KEY env) in
  let hasAutoRefresh := auto_refresh_enabled env in
  if hasStaticToken then
    Ret (outcome false
           ("Cannot authenticate when using static token. " ++
            "Update WEBEX_PUBLIC_WORKSPACE_API_KEY environment variable instead."))
  else if hasAutoRefresh then refreshAutoToken
  else if negb (hasOAuthCredentials env) then
    Ret (outcome false
           ("OAuth not configured. Set WEBEX_OAUTH_CLIENT_ID and " ++
            "WEBEX_OAUTH_CLIENT_SECRET in your .env file."))
  else
    tryCatch
      (token <- (if force then oauth_forceReauthenticate else oauth_getValidToken) ;;
       modify (with_config (set_cfg_token (Some token))) ;;
       modify (with_config (set_cfg_auth true (Some OAuth))) ;;
       Ret (outcome true "Authentication successful"))
      (fun error => Ret (outcome false ("Authentication failed: " ++ message error))).

(** webex-config.js 336-370 *)
Definition logout : Prog JsVal :=
  env <- gets process ;;
  let hasStaticToken := truthy_str (WEBEX_PUBLIC_WORKSPACE_API_KEY env) in
  let hasAutoRefresh := auto_refresh_enabled env in
  if hasStaticToken then
    Ret (outcome false
           ("Cannot logout when using static token. " ++
            "Remove WEBEX_PUBLIC_WORKSPACE_API_KEY environment variable to disable."))
  else
    tryCatch
      (loaded <- gets (fun st => Cfg._keychainTokenManager (config st)) ;;
       when (hasAutoRefresh && loaded) clearCachedToken ;;
       oauth_clearTokens ;;
       modify (with_config (set_cfg_token None)) ;;
       modify (with_config (set_cfg_auth false None)) ;;
       Ret (outcome true "Logged out successfully. Stored tokens have been cleared."))
      (fun error => Ret (outcome false ("Logout failed: " ++ message error))).

(** ** tools/webex-public-workspace/webex-messaging/list-messages.js *)

(** The argument object of [fetchMessageBatch]. *)
Record BatchParams : Type := mkBatchParams {
  bp_roomId : JsVal;
  bp_parentId : JsVal;
  bp_mentionedPeople : JsVal;
  bp_before : JsVal;
  bp_beforeMessage : JsVal;
  bp_max : Z;
  bp_headers : Object
}.

Definition append_if (k : string) (v : JsVal) (q : Object) : Object :=
  if truthy v then (q ++ [(k, v)])%list else q.

(** The search parameters in the order they are appended; each value is
    the one handed to [append], which renders it as a string. *)
Definition batch_query (p : BatchParams) : Object :=
  let q := [("roomId", bp_roomId p)] in
  let q := append_if "parentId" (bp_parentId p) q in
  let q := append_if "mentionedPeople" (bp_mentionedPeople p) q in
  let q := append_if "before" (bp_before p) q in
  let q := append_if "beforeMessage" (bp_beforeMessage p) q in
  (q ++ [("max", JNum (bp_max p))])%list.

(** One GET of the messages endpoint; a failed request, a non-2xx answer
    and an unreadable body all reject. *)
Definition fetchMessageBatch (p : BatchParams) : Prog Body :=
  url <- getWebexUrl "/messages" ;;
  Await (HttpGet url (batch_query p) (bp_headers p)) of_result.

Definition summarizeMessage (msg : Object) : Object :=
  [("id", prop "id" msg);
   ("personEmail", prop "personEmail" msg);
   ("personId", prop "personId" msg);
   ("created", prop "created" msg);
   ("text", prop "text" msg);
   ("parentId", prop "parentId" msg);
   ("roomType", prop "roomType" msg)].

(** The arguments of the tool.  [None] is an argument left out. *)
Record Args : Type := mkArgs {
  roomId : JsVal;
  parentId : JsVal;
  mentionedPeople : JsVal;
  before : JsVal;
  beforeMessage : JsVal;
  after : option string;
  max : option Z;
  summarize : option bool
}.

(** Index clamping shared by [a.splice(i)] and [a.slice(0, i)]: both keep
    the elements before this position. *)
Definition clamp_index (len : nat) (i : Z) : nat :=
  if i <? 0 then Z.to_nat (Z.max (Z.of_nat len + i) 0)
  else Nat.min (Z.to_nat i) len.

Definition keep_before {A : Type} (i : Z) (l : list A) : list A :=
  firstn (clamp_index (List.length l) i) l.

(** The [for ... of] loop over one batch (lines 98-109): the messages
    pushed, and whether the loop left through [break]. *)
Fixpoint scan_batch (afterDate : JsDate) (batch : list Object) : list Object * bool :=
  match batch with
  | [] => ([], false)
  | msg :: rest =>
      let msgDate := Date_new (prop "created" msg) in
      if date_ge msgDate afterDate then
        let '(pushed, foundOlderMessage) := scan_batch afterDate rest in
        (msg :: pushed, foundOlderMessage)
      else ([], true)
  end.

Definition batchSize : Z := 100.
Definition maxIterations : nat := 20.

(** The [while] loop (lines 85-128); [remaining] is
    [maxIterations - iterations]. *)
Fixpoint paginate (a : Args) (max : Z) (headers : Object) (afterDate : JsDate)
         (remaining : nat) (collectedMessages : list Object) (cursor : JsVal)
  : Prog (list Object) :=
  match remaining with
  | O => Ret collectedMessages
  | S remaining' =>
      data <- fetchMessageBatch
                (mkBatchParams (roomId a) (parentId a) (mentionedPeople a) (before a)
                               cursor batchSize headers) ;;
      match items data with
      | None => Ret collectedMessages
      | Some [] => Ret collectedMessages
      | Some batch =>
          let '(pushed, foundOlderMessage) := scan_batch afterDate batch in
          let collectedMessages := (collectedMessages ++ pushed)%list in
          if foundOlderMessage then Ret collectedMessages
          else if negb (max =? 0) && (max <=? Z.of_nat (List.length collectedMessages)) then
            Ret (keep_before max collectedMessages)
          else
            let cursor := prop "id" (last batch []) in
            if Z.of_nat (List.length batch) <? batchSize then Ret collectedMessages
            else paginate a max headers afterDate remaining' collectedMessages cursor
      end
  end.

Definition body_to_js (b : Body) : JsVal :=
  match items b with
  | Some xs => JObj (("items", JArr (map JObj xs)) :: other_fields b)
  | None => JObj (other_fields b)
  end.

Definition INVALID_AFTER (after : string) : string :=
  "Invalid 'after' date format: " ++ after ++
  ". Use ISO 8601 format (e.g., 2024-01-27T18:00:00Z).".

Definition executeFunction (a : Args) : Prog JsVal :=
  let max := match max a with Some m => m | None => 50 end in
  let summarize := match summarize a with Some b => b | None => true end in
  tryCatch
    (headers <- getWebexHeaders [] ;;
     if negb (truthy_str (after a)) then
       data <- fetchMessageBatch
                 (mkBatchParams (roomId a) (parentId a) (mentionedPeople a) (before a)
                                (beforeMessage a) max headers) ;;
       Ret (body_to_js
              (if summarize then
                 mkBody (option_map (map summarizeMessage) (items data)) (other_fields data)
               else data))
     else
       let after := match after a with Some s => s | None => "" end in
       let afterDate := Date_new (JStr after) in
       if date_isNaN afterDate then Throw (new_Error (INVALID_AFTER after))
       else
         collectedMessages <-
           paginate a max headers afterDate maxIterations [] (beforeMessage a) ;;
         let limitedMessages :=
           if negb (max =? 0) then keep_before max collectedMessages
           else collectedMessages in
         Ret (JObj [("items", JArr (map JObj (if summarize
                                               then map summarizeMessage limitedMessages
                                               else limitedMessages)));
                    ("count", JNum (Z.of_nat (List.length limitedMessages)));
                    ("filtered", JBool true);
                    ("afterFilter", JStr after)]))
    (fun error =>
       console_error (LogListingError (message error)) ;;
       Ret (JObj [("error", JStr (if truthy (JStr (message error)) then message error
                                  else "An error occurred while listing messages."));
                  ("details", JStr (stack error))])).

End Program.

(** ** The event loop *)

(** A program runs without interruption until it awaits an external
    operation; it resumes, again without interruption, when the operation
    completes.  Other calls and timers run in between. *)

Inductive Paused (A : Type) : Type :=
| Settled (r : Result A)
| Blocked (io : IO) (k : Resp io -> Prog A).
Arguments Settled {A} r.
Arguments Blocked {A} io k.

Fixpoint advance {A : Type} (p : Prog A) (st : State) : State * Paused A :=
  match p with
  | Ret a => (st, Settled (Ok a))
  | Throw e => (st, Settled (Err e))
  | Get k => advance (k st) st
  | Put s k => advance k s
  | Await io k => (st, Blocked io k)
  end.

(** The exported functions of token-manager.js a caller may invoke. *)
Inductive Call : Type :=
| CallGetValidToken
| CallForceRefresh
| CallClearCachedToken
| CallSetTokenRefreshCallback (cb : Callback).

Inductive Origin : Type :=
| FromCaller (c : Call)
| FromTimer (kind : TimerKind).

Section Loop.

Variable Date_new : JsVal -> JsDate.
Variable toISOString : Z -> string.

(** What each call or timer runs; the value a call resolves with is kept
    when it is a token. *)
Definition body (o : Origin) : Prog (option string) :=
  match o with
  | FromCaller CallGetValidToken =>
      t <- getValidToken Date_new toISOString ;; Ret (Some t)
  | FromCaller CallForceRefresh =>
      t <- forceRefresh toISOString ;; Ret (Some t)
  | FromCaller CallClearCachedToken => clearCachedToken ;; Ret None
  | FromCaller (CallSetTokenRefreshCallback cb) =>
      setTokenRefreshCallback cb ;; Ret None
  | FromTimer kind => timerCallback toISOString kind ;; Ret None
  end.

Record Task : Type := mkTask {
  task_origin : Origin;
  task_io : IO;
  task_k : Resp task_io -> Prog (option string)
}.

Record Loop : Type := mkLoop {
  loop_state : State;
  blocked : list Task;                              (* calls awaiting an operation *)
  settled : list (Origin * Result (option string))  (* finished calls, oldest first *)
}.

Inductive Event : Type :=
| Invoke (c : Call)                              (* a caller invokes a function *)
| Expire (h : nat)                               (* the armed timer [h] fires *)
| Complete (i : nat) (r : forall io : IO, Resp io).
    (* the operation awaited by the i-th blocked call completes *)

Definition start (o : Origin) (p : Prog (option string)) (l : Loop) : Loop :=
  let '(st, pa) := advance p (loop_state l) in
  match pa with
  | Settled r => mkLoop st (blocked l) (settled l ++ [(o, r)])%list
  | Blocked io k => mkLoop st (blocked l ++ [mkTask o io k])%list (settled l)
  end.

(** The delay a timer really waits: the runtime replaces a delay below 1,
    above 2^31-1 or [NaN] by 1. *)
Definition effective_delay (d : JsNum) : Z :=
  match d with
  | Num z => if (z <? 1) || (2147483647 <? z) then 1 else z
  | NaN => 1
  end.

Definition is_due (now : Z) (t : Timer) : bool :=
  timer_set_at t + effective_delay (timer_delay t) <=? now.

Definition remove_nth {A : Type} (i : nat) (l : list A) : list A :=
  (firstn i l ++ skipn (S i) l)%list.

(** [deliver now ev l]: the event [ev] happens at time [now].  [None] when
    it cannot happen: time does not run backwards, only an armed timer that
    is due fires, only an awaited operation completes. *)
Definition deliver (now : Z) (ev : Event) (l : Loop) : option Loop :=
  if now <? clock (loop_state l) then None
  else
    let st := with_clock now (loop_state l) in
    match ev with
    | Invoke c =>
        Some (start (FromCaller c) (body (FromCaller c)) (mkLoop st (blocked l) (settled l)))
    | Expire h =>
        match find (fun t => Nat.eqb (timer_id t) h) (timers st) with
        | Some t =>
            if is_due now t then
              let st := with_timers (filter (fun t => negb (Nat.eqb (timer_id t) h))) st in
              Some (start (FromTimer (timer_kind t)) (body (FromTimer (timer_kind t)))
                          (mkLoop st (blocked l) (settled l)))
            else None
        | None => None
        end
    | Complete i r =>
        match nth_error (blocked l) i with
        | Some task =>
            Some (start (task_origin task) (task_k task (r (task_io task)))
                        (mkLoop st (remove_nth i (blocked l)) (settled l)))
        | None => None
        end
    end.

Fixpoint run (evs : list (Z * Event)) (l : Loop) : option Loop :=
  match evs with
  | [] => Some l
  | (now, ev) :: evs' =>
      match deliver now ev l with
      | Some l' => run evs' l'
      | None => None
      end
  end.

End Loop.

(** ** A concrete runtime for examples *)

(** The examples below run the program on ISO 8601 UTC timestamps.
    [iso_Date_new] reads the two forms [YYYY-MM-DDTHH:MM:SSZ] and
    [YYYY-MM-DDTHH:MM:SS.mmmZ] and numbers, as [new Date] does, and calls
    every other value invalid; [iso_toISOString] prints the second form. *)
Module Iso.

(** Days since 1970-01-01 of a date of the proleptic Gregorian calendar. *)
Definition days_from_civil (y m d : Z) : Z :=
  let y := if m <=? 2 then y - 1 else y in
  let era := y / 400 in
  let yoe := y - era * 400 in
  let mp := (m + 9) mod 12 in
  let doy := (153 * mp + 2) / 5 + d - 1 in
  let doe := yoe * 365 + yoe / 4 - yoe / 100 + doy in
  era * 146097 + doe - 719468.

Definition civil_from_days (z : Z) : Z * Z * Z :=
  let z := z + 719468 in
  let era := z / 146097 in
  let doe := z - era * 146097 in
  let yoe := (doe - doe / 1460 + doe / 36524 - doe / 146096) / 365 in
  let doy := doe - (365 * yoe + yoe / 4 - yoe / 100) in
  let mp := (5 * doy + 2) / 153 in
  let d := doy - (153 * mp + 2) / 5 + 1 in
  let m := if mp <? 10 then mp + 3 else mp - 9 in
  let y := yoe + era * 400 in
  (if m <=? 2 then y + 1 else y, m, d).

Definition digit (c : ascii) : option Z :=
  let n := Z.of_nat (nat_of_ascii c) in
  if (48 <=? n) && (n <=? 57) then Some (n - 48) else None.

Fixpoint number_from (acc : Z) (s : string) : option Z :=
  match s with
  | EmptyString => Some acc
  | String c s' =>
      match digit c with
      | Some d => number_from (10 * acc + d) s'
      | None => None
      end
  end.

(** The decimal number written in [len] characters of [s] from [pos]. *)
Definition field (pos len : nat) (s : string) : option Z :=
  let f := substring pos len s in
  if Nat.eqb (String.length f) len then number_from 0 f else None.

Definition parse (s : string) : JsDate :=
  let punct :=
    String.eqb (substring 4 1 s) "-" && String.eqb (substring 7 1 s) "-" &&
    String.eqb (substring 10 1 s) "T" && String.eqb (substring 13 1 s) ":" &&
    String.eqb (substring 16 1 s) ":" in
  let millis :=
    if String.eqb (substring 19 (String.length s) s) "Z" then Some 0
    else if String.eqb (substring 19 1 s) "." &&
            String.eqb (substring 23 (String.length s) s) "Z"
         then field 20 3 s
         else None in
  match field 0 4 s, field 5 2 s, field 8 2 s,
        field 11 2 s, field 14 2 s, field 17 2 s, millis with
  | Some y, Some m, Some d, Some hh, Some mi, Some ss, Some ms =>
      let days := days_from_civil y m d in
      if punct && (1 <=? m) && (m <=? 12) && (1 <=? d) &&
         (hh <=? 23) && (mi <=? 59) && (ss <=? 59) &&
         match civil_from_days days with
         | (y', m', d') => (y' =? y) && (m' =? m) && (d' =? d)
         end
      then DateAt ((((days * 24 + hh) * 60 + mi) * 60 + ss) * 1000 + ms)
      else InvalidDate
  | _, _, _, _, _, _, _ => InvalidDate
  end.

Definition iso_Date_new (v : JsVal) : JsDate :=
  match v with
  | JStr s => parse s
  | JNum n => Date_of_num (Num n)
  | _ => InvalidDate
  end.

Definition digit_char (d : Z) : ascii := ascii_of_nat (48 + Z.to_nat (d mod 10)).

(** [n] written with [width] digits. *)
Fixpoint padded (width : nat) (n : Z) : string :=
  match width with
  | O => EmptyString
  | S width' => padded width' (n / 10) ++ String (digit_char n) EmptyString
  end.

Definition iso_toISOString (t : Z) : string :=
  let days := t / 86400000 in
  let ms := t mod 86400000 in
  match civil_from_days days with
  | (y, m, d) =>
      (if (0 <=? y) && (y <=? 9999) then padded 4 y
       else (if y <? 0 then "-" else "+") ++ padded 6 (Z.abs y)) ++
      "-" ++ padded 2 m ++ "-" ++ padded 2 d ++
      "T" ++ padded 2 (ms / 3600000) ++ ":" ++ padded 2 (ms / 60000 mod 60) ++
      ":" ++ padded 2 (ms / 1000 mod 60) ++ "." ++ padded 3 (ms mod 1000) ++ "Z"
  end.

(** Decimal digits of a number that is not negative, most significant
    first, in front of [acc]. *)
Fixpoint decimal_from (fuel : nat) (n : Z) (acc : string) : string :=
  match fuel with
  | O => acc
  | S fuel' =>
      let acc := String (digit_char n) acc in
      if n <? 10 then acc else decimal_from fuel' (n / 10) acc
  end.

Definition decimal (n : Z) : string :=
  let digits := decimal_from (S (Z.to_nat (Z.log2 (Z.abs n)))) (Z.abs n) EmptyString in
  if n <? 0 then "-" ++ digits else digits.

(** The text of [Math.round(ms / 1000 / 60)]: [ms / 60000] rounded to the
    nearest integer, halves going up, in decimal. *)
Definition iso_minutes_text (ms : Z) : string := decimal ((ms + 30000) / 60000).

End Iso.

(** ** Vocabulary of the statements *)

(** The armed timers once the handle [h] has gone through [clearTimeout]. *)
Definition disarm (h : option nat) (ts : list Timer) : list Timer :=
  match h with
  | Some id => filter (fun t => negb (Nat.eqb (timer_id t) id)) ts
  | None => ts
  end.

(** [msUntilRefresh] (lines 97-99) at time [now] for a token expiring at
    [E]. *)
Definition ms_until_refresh (E now : Z) : JsNum :=
  num_sub (getTime (Date_of_num (num_sub (Num E) (Num 1800000)))) (Num now).

(** The timer [scheduleRefresh] arms at time [now] for a token expiring
    at [E]. *)
Definition refresh_timer (E now : Z) (id : nat) : Timer :=
  let ms := ms_until_refresh E now in
  if num_le ms (Num 0) then mkTimer id ImmediateRefresh (Num 1000) now
  else mkTimer id PlannedRefresh ms now.

(** The state [scheduleRefresh] leaves. *)
Definition scheduled (E : Z) (st : State) : State :=
  let ms := ms_until_refresh E (clock st) in
  mkState (set_refreshTimeout (Some (timer_seq st)) (manager st)) (config st)
          (disarm (TM._refreshTimeout (manager st)) (timers st)
           ++ [refresh_timer E (clock st) (timer_seq st)])%list
          (S (timer_seq st)) (clock st)
          (console st ++ [if num_le ms (Num 0) then LogExpiringSoon else LogScheduling ms])%list
          (process st).

(** The stored record [getValidToken] adopts at time [now], if any. *)
Definition usable (stored : option TokenRecord) (now : Z) : option (string * Z) :=
  match stored with
  | Some (mkTokenRecord tok (DateAt E)) => if now <? E then Some (tok, E) else None
  | _ => None
  end.

(** The state [getValidToken] leaves when it adopts a stored record. *)
Definition adopted (tok : string) (E : Z) (st : State) : State :=
  with_console (fun c => c ++ [LogUsingKeychainToken])%list
    (scheduled E (with_manager (set_cached (Some tok) (Some (DateAt E))) st)).

(** Only time and the console moved. *)
Definition quiet (st st' : State) : Prop :=
  manager st' = manager st /\ config st' = config st /\ timers st' = timers st /\
  timer_seq st' = timer_seq st /\ process st' = process st /\ clock st <= clock st'.

Definition no_network (tr : list IO) : Prop :=
  filter is_browser_fetch tr = [] /\ filter is_http tr = [].

(** The state in which the closure of a timer calls [forceRefresh]. *)
Definition entering (kind : TimerKind) (st : State) : State :=
  match kind with
  | PlannedRefresh => with_console (fun c => c ++ [LogExecutingScheduled])%list st
  | _ => st
  end.

(** What the closure of a timer of each kind has done once its
    [forceRefresh] has thrown [e] and left the state [st1]. *)
Definition after_failure (kind : TimerKind) (e : Error) (st1 st' : State) : Prop :=
  match kind with
  | PlannedRefresh =>
      timers st' =
        (timers st1 ++
         [mkTimer (timer_seq st1) RetryRefresh (Num (5 * 60 * 1000)) (clock st1)])%list /\
      TM._refreshTimeout (manager st') = Some (timer_seq st1) /\
      console st' = (console st1 ++ [LogScheduledFailed (message e)])%list
  | ImmediateRefresh =>
      timers st' = timers st1 /\ manager st' = manager st1 /\
      console st' = (console st1 ++ [LogScheduledFailed (message e)])%list
  | RetryRefresh =>
      timers st' = timers st1 /\ manager st' = manager st1 /\
      console st' = (console st1 ++ [LogRetryFailed (message e)])%list
  end.

(** The timer [t] can fire from the time [from] on and not before. *)
Definition due_from (t : Timer) (from : Z) : Prop :=
  forall now, is_due now t = true <-> from <= now.

(** What [scheduleRefresh] has armed at time [now] for a token that
    expires at [E], [refreshAt] being [E - 30 min]. *)
Definition armed_for (E now : Z) (t : Timer) : Prop :=
  timer_set_at t = now /\
  let refreshAt := E - 30 * 60 * 1000 in
  if Z.abs refreshAt <=? MAX_TIME_VALUE then
    if refreshAt <=? now then
      timer_kind t = ImmediateRefresh /\ timer_delay t = Num 1000 /\
      due_from t (now + 1000)
    else
      timer_kind t = PlannedRefresh /\
      if refreshAt - now <=? 2147483647 then
        timer_delay t = Num (refreshAt - now) /\ due_from t refreshAt
      else due_from t (now + 1)
  else
    timer_kind t = PlannedRefresh /\ timer_delay t = NaN /\ due_from t (now + 1).

(** At most one timer is armed, and [_refreshTimeout] is its handle. *)
Definition single_timer (st : State) : Prop :=
  timers st = [] \/
  exists t, timers st = [t] /\ TM._refreshTimeout (manager st) = Some (timer_id t).

(** [post I p st Q]: however the operations [p] awaits are answered and
    however long they take, [p] started in [st] is in a state that
    satisfies [I] whenever it waits, and settles in a state and with a
    result that satisfy [Q]. *)
Fixpoint post {A : Type} (I : State -> Prop) (p : Prog A) (st : State)
    (Q : State -> Result A -> Prop) : Prop :=
  match p with
  | Ret a => Q st (Ok a)
  | Throw e => Q st (Err e)
  | Get k => post I (k st) st Q
  | Put s k => post I k s Q
  | Await io k =>
      I st /\
      forall (a : Resp io) (now : Z), clock st <= now -> post I (k a) (with_clock now st) Q
  end.

Definition ends_single {A : Type} (st : State) (r : Result A) : Prop := single_timer st.

(** What a refresh leaves of the timers. *)
Definition refreshed_or_untouched (st st' : State) (r : Result string) : Prop :=
  match r with
  | Err _ => manager st' = manager st /\ timers st' = timers st
  | Ok _ =>
      exists t,
        timers st' = (disarm (TM._refreshTimeout (manager st)) (timers st) ++ [t])%list /\
        TM._refreshTimeout (manager st') = Some (timer_id t)
  end.

(** The loop runs one call or timer at a time: one timer at most is armed,
    and nothing is awaited, or one call is, and whatever that call goes on
    to do keeps it so. *)
Definition one_at_a_time (l : Loop) : Prop :=
  single_timer (loop_state l) /\
  match blocked l with
  | [] => True
  | [t] =>
      forall (a : Resp (task_io t)) (now : Z),
        clock (loop_state l) <= now ->
        post single_timer (task_k t a) (with_clock now (loop_state l)) ends_single
  | _ => False
  end.

(** No call is waiting for an operation. *)
Definition idle (l : Loop) : bool :=
  match blocked l with
  | [] => true
  | _ :: _ => false
  end.

(** An event that does not overlap a call in progress: a call or a timer
    starts only when the loop is idle. *)
Definition in_turn (l : Loop) (ev : Event) : Prop :=
  match ev with
  | Complete _ _ => True
  | _ => idle l = true
  end.

Section Turns.
Variable Date_new : JsVal -> JsDate.
Variable toISOString : Z -> string.

(** Every event of the schedule is in turn when it happens. *)
Fixpoint all_in_turn (evs : list (Z * Event)) (l : Loop) : Prop :=
  match evs with
  | [] => True
  | (now, ev) :: evs' =>
      in_turn l ev /\
      match deliver Date_new toISOString now ev l with
      | Some l' => all_in_turn evs' l'
      | None => True
      end
  end.
End Turns.

(** The messages of the body that answered the operation [io], awaited as
    the i-th of a run. *)
Definition batch_of (w : World) (i : nat) (io : IO) : list Object :=
  match io as io0 return Resp io0 -> list Object with
  | HttpGet _ _ _ => fun r =>
      match r with
      | Ok b => match items b with Some xs => xs | None => [] end
      | Err _ => []
      end
  | _ => fun _ => []
  end (answer w i io).

(** The batches a run received, one per awaited operation, and the
    messages received, in the order the API returned them. *)
Fixpoint batches (w : World) (n : nat) (tr : list IO) : list (list Object) :=
  match tr with
  | [] => []
  | io :: tr' => batch_of w n io :: batches w (S n) tr'
  end.

Definition received (w : World) (n : nat) (tr : list IO) : list Object :=
  List.concat (batches w n tr).

(** The two object literals the tool returns (lines 133-138, 141-144). *)
Definition error_result (error : Error) : JsVal :=
  JObj [("error", JStr (if truthy (JStr (message error)) then message error
                        else "An error occurred while listing messages."));
        ("details", JStr (stack error))].

Definition listing_result (summarize : bool) (after : string) (msgs : list Object) : JsVal :=
  JObj [("items", JArr (map JObj (if summarize then map summarizeMessage msgs else msgs)));
        ("count", JNum (Z.of_nat (List.length msgs)));
        ("filtered", JBool true);
        ("afterFilter", JStr after)].

(** A request of the run [tr], started as the n-th operation, was
    answered with the error [e]. *)
Definition request_failed (w : World) (n : nat) (tr : list IO) (e : Error) : Prop :=
  exists i url q h,
    nth_error tr i = Some (HttpGet url q h) /\
    answer w (n + i) (HttpGet url q h) = Err e.

Definition default_max (a : Args) : Z := match max a with Some m => m | None => 50 end.
Definition default_summarize (a : Args) : bool :=
  match summarize a with Some b => b | None => true end.
Definition after_or_empty (a : Args) : string :=
  match after a with Some s => s | None => "" end.

Definition messages_url (st : State) : string :=
  (if truthy_str (WEBEX_API_BASE_URL (process st))
   then match WEBEX_API_BASE_URL (process st) with Some u => u | None => "" end
   else "https://webexapis.com/v1") ++ "/messages".

Definition SUMMARY_FIELDS : list string :=
  ["id"; "personEmail"; "personId"; "created"; "text"; "parentId"; "roomType"].

Section TimeBound.

Variable Date_new : JsVal -> JsDate.

(** [msg.created >= afterDate], as line 101 tests it. *)
Definition in_range (afterDate : JsDate) (msg : Object) : Prop :=
  date_ge (Date_new (prop "created" msg)) afterDate = true.

(** Every batch but the last lies entirely in range: no batch is fetched
    after one that holds a message out of range. *)
Fixpoint only_last_may_cross (afterDate : JsDate) (bs : list (list Object)) : Prop :=
  match bs with
  | [] => True
  | b :: bs' =>
      match bs' with
      | [] => True
      | _ :: _ => Forall (in_range afterDate) b /\ only_last_may_cross afterDate bs'
      end
  end.

(** [collected] is the part of [recv] up to the first message out of
    range, and [rest] what follows it. *)
Definition splits_at_boundary (afterDate : JsDate) (recv collected rest : list Object) : Prop :=
  recv = (collected ++ rest)%list /\
  Forall (in_range afterDate) collected /\
  (rest = [] \/ exists m rest', rest = m :: rest' /\ ~ in_range afterDate m).

(** The messages of [recv] before the first one out of range. *)
Fixpoint in_range_prefix (afterDate : JsDate) (recv : list Object) : list Object :=
  match recv with
  | [] => []
  | m :: recv' =>
      if date_ge (Date_new (prop "created" m)) afterDate
      then m :: in_range_prefix afterDate recv'
      else []
  end.

End TimeBound.

(** What is left of the messages [collected] once [max = M] has been
    applied (lines 116-118 and 131), [rest] being what was received after
    them: all of them when [M] is 0, the first [M] when [M] is positive;
    a negative [M] drops the last [-M], once when a message out of range
    was met and twice when none was. *)
Definition limited (M : Z) (collected rest : list Object) : list Object :=
  if M =? 0 then collected
  else if 0 <? M then firstn (Z.to_nat M) collected
  else
    match rest with
    | [] => keep_before M (keep_before M collected)
    | _ :: _ => keep_before M collected
    end.

(** The item [item] of a result stands for the upstream message [msg]:
    when [summarize] is set it is an object with exactly the seven summary
    properties, each with the value [msg] has for it; otherwise it is
    [msg] itself. *)
Definition presented (summarize : bool) (msg : Object) (item : JsVal) : Prop :=
  exists o,
    item = JObj o /\
    if summarize then
      keys o = SUMMARY_FIELDS /\
      (forall k, In k SUMMARY_FIELDS -> prop k o = prop k msg) /\
      (forall k, ~ In k SUMMARY_FIELDS -> prop k o = JUndefined)
    else o = msg.

(** *** Keychain and token manager *)

(** The error [toISOString] throws on an invalid date. *)
Definition RANGE_ERROR : Error := mkError "Invalid time value" "RangeError: Invalid time value".

(** The error [addToKeychain] throws when the command fails with [e]. *)
Definition store_failed (e : Error) : Error :=
  new_Error ("Failed to store in Keychain: " ++ message e).

Definition KEYCHAIN_UNSUPPORTED : Error :=
  new_Error "Keychain storage is only supported on macOS".

(** The state once the operations [n], ..., [n + k - 1] of a run have
    been waited for. *)
Fixpoint waited (w : World) (n k : nat) (st : State) : State :=
  match k with
  | O => st
  | S k' => waited w (S n) k' (tick (elapsed w n) st)
  end.

Definition logged (l : LogLine) (st : State) : State :=
  with_console (fun c => c ++ [l])%list st.

Section KeychainVocabulary.
Variable Date_new : JsVal -> JsDate.

(** The record the Keychain holds, as [loadToken] reads it when its first
    command is the [n]-th operation of a run: both entries are read and
    neither is empty. *)
Definition stored_record (w : World) (n : nat) : option TokenRecord :=
  match answer w n (SecurityFind KEYCHAIN_ACCOUNT),
        answer w (S n) (SecurityFind KEYCHAIN_EXPIRY_ACCOUNT) with
  | Ok token, Ok expiryStr =>
      if (token =? "")%string || (expiryStr =? "")%string then None
      else Some (mkTokenRecord token (Date_new (JStr expiryStr)))
  | _, _ => None
  end.
End KeychainVocabulary.

(** What the registered callback does with a new token. *)
Definition notified (tok : string) (st : State) : State :=
  match TM._onTokenRefreshed (manager st) with
  | Some FacadeAdoptsToken =>
      logged (LogAuth "Token refreshed via auto-refresh")
             (with_config (set_cfg_token (Some tok)) st)
  | None => st
  end.

(** The state [clearCachedToken] leaves before it turns to the Keychain. *)
Definition forgotten (st : State) : State :=
  mkState (TM.mk None None None (TM._onTokenRefreshed (manager st))) (config st)
          (disarm (TM._refreshTimeout (manager st)) (timers st))
          (timer_seq st) (clock st) (console st) (process st).

Section ManagerVocabulary.
Variable toISOString : Z -> string.

(** The state a [forceRefresh] leaves that fetched [tok], expiring at [E],
    and stored it, [st1] being the state once it was stored. *)
Definition refreshed (tok : string) (E : Z) (st1 : State) : State :=
  logged (LogTokenRefreshed (toISOString E))
    (notified tok
       (scheduled E (with_manager (set_cached (Some tok) (Some (DateAt E))) st1))).
End ManagerVocabulary.

(** The five operations of a refresh that succeeds. *)
Definition refresh_commands (tok iso : string) : list IO :=
  [FetchTokenFromBrowser;
   SecurityDelete KEYCHAIN_ACCOUNT; SecurityDelete KEYCHAIN_EXPIRY_ACCOUNT;
   SecurityAdd KEYCHAIN_ACCOUNT tok; SecurityAdd KEYCHAIN_EXPIRY_ACCOUNT iso].

(** *** Auth facade *)

Definition NOT_INITIALIZED : Error :=
  new_Error "Authentication not initialized. Call initializeAuth() first.".

Definition NO_VALID_TOKEN : Error :=
  new_Error "No valid token available. Authentication may have failed.".

(** The facade once [getWebexToken] has looked for a newer token (lines
    106-119): in [oauth] mode the token the OAuth module has cached, in
    [auto-refresh] mode the token the manager has cached and that has not
    expired. *)
Definition caught_up (st : State) : State :=
  match Cfg._authMethod (config st) with
  | Some OAuth =>
      if truthy_str (oauth_getCachedToken (process st))
      then with_config (set_cfg_token (oauth_getCachedToken (process st))) st
      else st
  | Some AutoRefresh =>
      if Cfg._keychainTokenManager (config st) && cache_is_fresh st
      then with_config (set_cfg_token (TM._cachedToken (manager st))) st
      else st
  | _ => st
  end.

(** The headers every request starts from. *)
Definition default_headers (token : string) : Object :=
  [("Accept", JStr "application/json"); ("Authorization", JStr ("Bearer " ++ token))].

Definition base_url (st : State) : string :=
  if truthy_str (WEBEX_API_BASE_URL (process st))
  then match WEBEX_API_BASE_URL (process st) with Some u => u | None => "" end
  else "https://webexapis.com/v1".

(** What [getWebexToken] answers from the facade in the state [st] (lines
    121-129). *)
Definition facade_token (st : State) : Result string :=
  if negb (Cfg._authInitialized (config st)) then Err NOT_INITIALIZED
  else
    match Cfg._cachedToken (config st) with
    | Some t => if (t =? "")%string then Err NO_VALID_TOKEN else Ok t
    | None => Err NO_VALID_TOKEN
    end.

(** The facade once [initializeAuth] has taken the static key [K]. *)
Definition static_ready (K : string) (st : State) : State :=
  logged (LogAuth "Using static API key from environment")
    (with_config (set_cfg_auth true (Some Static))
       (with_config (set_cfg_token (Some (strip_bearer K))) st)).

Definition JSON_CONTENT_TYPE : string * JsVal := ("Content-Type", JStr "application/json").

(** The state in which [refreshAutoToken] calls [forceRefresh]: the
    manager loaded and the facade's callback registered, if they were not
    (lines 307-315). *)
Definition registered (st : State) : State :=
  logged (LogAuth "Forcing token refresh via browser...")
    (if Cfg._keychainTokenManager (config st) then st
     else with_manager (set_onTokenRefreshed (Some FacadeAdoptsToken))
            (with_config (set_cfg_keychain true) st)).

(** The facade once it has adopted the token [t] in the mode [m]. *)
Definition authenticated_with (m : AuthMethod) (t : string) (st : State) : State :=
  with_config (set_cfg_auth true (Some m)) (with_config (set_cfg_token (Some t)) st).

(** The facade once [logout] has reset it (lines 356-358). *)
Definition logged_out (st : State) : State :=
  with_config (set_cfg_auth false None) (with_config (set_cfg_token None) st).

Definition REFRESHED : JsVal :=
  outcome true "Personal token refreshed successfully via browser automation".
Definition MACOS_ONLY : JsVal :=
  outcome false "Auto-refresh token is only supported on macOS".
Definition STATIC_CANNOT_AUTHENTICATE : JsVal :=
  outcome false ("Cannot authenticate when using static token. " ++
                 "Update WEBEX_PUBLIC_WORKSPACE_API_KEY environment variable instead.").
Definition OAUTH_NOT_CONFIGURED : JsVal :=
  outcome false ("OAuth not configured. Set WEBEX_OAUTH_CLIENT_ID and " ++
                 "WEBEX_OAUTH_CLIENT_SECRET in your .env file.").
Definition STATIC_CANNOT_LOGOUT : JsVal :=
  outcome false ("Cannot logout when using static token. " ++
                 "Remove WEBEX_PUBLIC_WORKSPACE_API_KEY environment variable to disable.").
Definition LOGGED_OUT : JsVal :=
  outcome true "Logged out successfully. Stored tokens have been cleared.".

(** *** Listing tool *)

(** The request for one page of the listing, [cursor] being the
    [beforeMessage] it carries and [max] the page size it asks for. *)
Definition page_request (a : Args) (st : State) (headers : Object)
           (cursor : JsVal) (max : Z) : IO :=
  HttpGet (messages_url st)
          (batch_query (mkBatchParams (roomId a) (parentId a) (mentionedPeople a)
                                      (before a) cursor max headers))
          headers.

(** The requests of a paginated run, the first awaited as the [n]-th
    operation: each asks for [batchSize] messages before [cursor], the
    cursor of the next being the id of the last message of the page
    received, and a next page is asked for only after a full one. *)
Fixpoint pages_follow (w : World) (a : Args) (st : State) (headers : Object)
         (n : nat) (cursor : JsVal) (tr : list IO) : Prop :=
  match tr with
  | [] => True
  | io :: tr' =>
      io = page_request a st headers cursor batchSize /\
      (tr' <> [] -> batchSize <= Z.of_nat (List.length (batch_of w n io))) /\
      pages_follow w a st headers (S n) (prop "id" (last (batch_of w n io) [])) tr'
  end.

(** ** Scenarios *)

Module Example.

(** 2024-01-27T00:00:00Z, and durations in milliseconds. *)
Definition t0 : Z := 1706313600000.
Definition minute : Z := 60000.
Definition hour : Z := 3600000.

(** A macOS host in auto-refresh mode; a Linux host with a static key. *)
Definition mac : Process :=
  mkProcess None (Some "true") None "darwin" false None.
Definition with_static_key : Process :=
  mkProcess (Some "Bearer abc") None None "linux" false None.

(** Text given by the bytes of its UTF-8 encoding. *)
Definition utf8 (bytes : list nat) : string :=
  fold_right (fun b s => String (ascii_of_nat b) s) EmptyString bytes.

(** U+00A0, U+2003, U+3000 and U+FEFF. *)
Definition NO_BREAK_SPACE : string := utf8 [194; 160]%nat.
Definition EM_SPACE : string := utf8 [226; 128; 131]%nat.
Definition IDEOGRAPHIC_SPACE : string := utf8 [227; 128; 128]%nat.
Definition BYTE_ORDER_MARK : string := utf8 [239; 187; 191]%nat.

(** A host whose static key has a no-break space after [Bearer]. *)
Definition with_pasted_key : Process :=
  mkProcess (Some ("Bearer" ++ NO_BREAK_SPACE ++ "abc")) None None "linux" false None.

(** The facade once [initializeAuth] has adopted the static key. *)
Definition ready : State :=
  mkState TM.init (Cfg.mk (Some "abc") true (Some Static) false) [] 0 t0
          [LogAuth "Using static API key from environment"] with_static_key.

(** The token manager holding a cached token that expires at [E]. *)
Definition holding (tok : string) (E : Z) : State :=
  mkState (TM.mk None (Some tok) (Some (DateAt E)) None) Cfg.init [] 0 t0 [] mac.

Definition not_found : Error := new_Error "The specified item could not be found".

(** Answers of a Keychain without entries and of a browser login that
    ends as [login]. *)
Definition empty_keychain (login : Result TokenRecord) (io : IO) : Resp io :=
  match io with
  | SecurityAdd _ _ => Ok tt
  | SecurityFind _ => Err not_found
  | SecurityDelete _ => Ok tt
  | FetchTokenFromBrowser => login
  | OAuthGetValidToken => Err (new_Error "OAuth is not configured")
  | HttpGet _ _ _ => Ok (mkBody None [])
  end.

(** Answers of a Keychain that holds [tok] with the expiry string [iso]. *)
Definition keychain_with (tok iso : string) (login : Result TokenRecord)
           (io : IO) : Resp io :=
  match io with
  | SecurityAdd _ _ => Ok tt
  | SecurityFind account =>
      if String.eqb account KEYCHAIN_ACCOUNT then Ok tok else Ok iso
  | SecurityDelete _ => Ok tt
  | FetchTokenFromBrowser => login
  | OAuthGetValidToken => Err (new_Error "OAuth is not configured")
  | HttpGet _ _ _ => Ok (mkBody None [])
  end.

(** A world that gives the same answers throughout; every operation
    takes one millisecond. *)
Definition steady (f : forall io : IO, Resp io) : World :=
  mkWorld (fun _ => f) (fun _ => 1%N).

Definition token_A : TokenRecord := mkTokenRecord "A" (DateAt (t0 + 12 * hour)).
Definition token_B : TokenRecord := mkTokenRecord "B" (DateAt (t0 + 24 * hour)).
Definition closed : Error := new_Error "browser window closed".

(** A messages endpoint that answers the n-th request of a run with the
    page [pages n]. *)
Definition api (pages : nat -> list Object) : World :=
  mkWorld
    (fun n io =>
       match io with
       | SecurityAdd _ _ => Ok tt
       | SecurityFind _ => Err not_found
       | SecurityDelete _ => Ok tt
       | FetchTokenFromBrowser => Err closed
       | OAuthGetValidToken => Err (new_Error "OAuth is not configured")
       | HttpGet _ _ _ => Ok (mkBody (Some (pages n)) [])
       end)
    (fun _ => 1%N).

Definition webex_message (id created : string) : Object :=
  [("id", JStr id); ("roomId", JStr "R1"); ("roomType", JStr "group");
   ("text", JStr "hello"); ("personId", JStr "P1");
   ("personEmail", JStr "ada@example.com"); ("created", JStr created)].

Definition m1 : Object := webex_message "M1" "2024-01-28T09:00:00Z".
Definition m2 : Object := webex_message "M2" "2024-01-28T08:00:00Z".
Definition m3 : Object := webex_message "M3" "2024-01-26T08:00:00Z".

Definition one_page (page : list Object) (n : nat) : list Object :=
  match n with
  | O => page
  | S _ => []
  end.

Definition list_messages (after : option string) (max : option Z) : Args :=
  mkArgs (JStr "R1") JUndefined JUndefined JUndefined JUndefined after max None.

Definition since_jan_27 : option string := Some "2024-01-27T00:00:00Z".

(** A refresh fired by the timer overlaps a refresh asked for by a
    caller: the first login succeeds at start-up; half an hour before
    the token expires the planned timer fires and opens the browser;
    a caller forces a refresh, which succeeds; then the login the timer
    started fails. *)
Definition overlapping_refreshes : list (Z * Event) :=
  let fire := t0 + 12 * hour - 30 * minute in
  [ (t0, Invoke CallForceRefresh);
    (t0 + 1000, Complete 0 (empty_keychain (Ok token_A)));
    (t0 + 1001, Complete 0 (empty_keychain (Ok token_A)));
    (t0 + 1002, Complete 0 (empty_keychain (Ok token_A)));
    (t0 + 1003, Complete 0 (empty_keychain (Ok token_A)));
    (t0 + 1004, Complete 0 (empty_keychain (Ok token_A)));
    (fire, Expire 0);
    (fire + 1, Invoke CallForceRefresh);
    (fire + 1000, Complete 1 (empty_keychain (Ok token_B)));
    (fire + 1001, Complete 1 (empty_keychain (Ok token_B)));
    (fire + 1002, Complete 1 (empty_keychain (Ok token_B)));
    (fire + 1003, Complete 1 (empty_keychain (Ok token_B)));
    (fire + 1004, Complete 1 (empty_keychain (Ok token_B)));
    (fire + minute, Complete 0 (empty_keychain (Err closed))) ].

(** At start-up the Keychain holds a token with ten minutes to live;
    the refresh armed for it fires after a second and its login fails. *)
Definition failing_immediate_refresh : list (Z * Event) :=
  let stored := keychain_with "A" "2024-01-27T00:10:00.000Z" (Err closed) in
  [ (t0, Invoke CallGetValidToken);
    (t0 + 1, Complete 0 stored);
    (t0 + 2, Complete 0 stored);
    (t0 + 1002, Expire 0);
    (t0 + 9000, Complete 0 stored) ].

(** Two callers force a refresh at the same moment; both logins succeed,
    the one asked for last completing first. *)
Definition back_to_back_refreshes : list (Z * Event) :=
  [ (t0, Invoke CallForceRefresh);
    (t0, Invoke CallForceRefresh);
    (t0 + 1000, Complete 1 (empty_keychain (Ok token_B)));
    (t0 + 1001, Complete 1 (empty_keychain (Ok token_B)));
    (t0 + 1002, Complete 1 (empty_keychain (Ok token_B)));
    (t0 + 1003, Complete 1 (empty_keychain (Ok token_B)));
    (t0 + 1004, Complete 1 (empty_keychain (Ok token_B)));
    (t0 + 2000, Complete 0 (empty_keychain (Ok token_A)));
    (t0 + 2001, Complete 0 (empty_keychain (Ok token_A)));
    (t0 + 2002, Complete 0 (empty_keychain (Ok token_A)));
    (t0 + 2003, Complete 0 (empty_keychain (Ok token_A)));
    (t0 + 2004, Complete 0 (empty_keychain (Ok token_A))) ].

Definition booted : Loop := mkLoop (initial_state mac t0) [] [].

(** A token the browser hands out an hour after it expired. *)
Definition token_old : TokenRecord := mkTokenRecord "OLD" (DateAt (t0 - hour)).

(** A token that lives for thirty days. *)
Definition day : Z := 24 * hour.
Definition token_far : TokenRecord := mkTokenRecord "F" (DateAt (t0 + 30 * day)).

(** A refresh at start-up fetches the thirty-day token; the timer armed
    for it fires a millisecond later, and the refresh it runs fetches the
    same token again. *)
Definition far_expiry_refreshes : list (Z * Event) :=
  [ (t0, Invoke CallForceRefresh);
    (t0 + 1000, Complete 0 (empty_keychain (Ok token_far)));
    (t0 + 1001, Complete 0 (empty_keychain (Ok token_far)));
    (t0 + 1002, Complete 0 (empty_keychain (Ok token_far)));
    (t0 + 1003, Complete 0 (empty_keychain (Ok token_far)));
    (t0 + 1004, Complete 0 (empty_keychain (Ok token_far)));
    (t0 + 1005, Expire 0);
    (t0 + 2005, Complete 0 (empty_keychain (Ok token_far)));
    (t0 + 2006, Complete 0 (empty_keychain (Ok token_far)));
    (t0 + 2007, Complete 0 (empty_keychain (Ok token_far)));
    (t0 + 2008, Complete 0 (empty_keychain (Ok token_far)));
    (t0 + 2009, Complete 0 (empty_keychain (Ok token_far))) ].

(** The same start-up with the twelve-hour token, and the timer asked to
    fire a millisecond after it was armed. *)
Definition early_expire : list (Z * Event) :=
  [ (t0, Invoke CallForceRefresh);
    (t0 + 1000, Complete 0 (empty_keychain (Ok token_A)));
    (t0 + 1001, Complete 0 (empty_keychain (Ok token_A)));
    (t0 + 1002, Complete 0 (empty_keychain (Ok token_A)));
    (t0 + 1003, Complete 0 (empty_keychain (Ok token_A)));
    (t0 + 1004, Complete 0 (empty_keychain (Ok token_A)));
    (t0 + 1005, Expire 0) ].

(** A Linux host asked for the auto-refresh mode. *)
Definition linux_auto : Process :=
  mkProcess None (Some "true") None "linux" false None.

(** A macOS host in auto-refresh mode whose token "A" expired an hour
    ago: the manager and the facade both still hold it. *)
Definition stale_session : State :=
  mkState (TM.mk None (Some "A") (Some (DateAt (t0 - hour))) (Some FacadeAdoptsToken))
          (Cfg.mk (Some "A") true (Some AutoRefresh) true) [] 0 t0 [] mac.

(** The manager with the facade's callback registered and nothing cached. *)
Definition listening : State :=
  with_manager (set_onTokenRefreshed (Some FacadeAdoptsToken)) (initial_state mac t0).

(** Stand-ins for the OAuth module: it reports no session, logs in as
    "O", and has nothing to clear. *)
Definition oauth_reports : Prog JsVal :=
  Ret (JObj [("authenticated", JBool false); ("method", JStr "oauth")]).
Definition oauth_logs_in : Prog string := Ret "O".
Definition oauth_clears : Prog unit := Ret tt.

(** A messages endpoint that is down. *)
Definition unavailable : Error := new_Error "503 Service Unavailable".
Definition api_down : World :=
  mkWorld
    (fun n io =>
       match io with
       | SecurityAdd _ _ => Ok tt
       | SecurityFind _ => Err not_found
       | SecurityDelete _ => Ok tt
       | FetchTokenFromBrowser => Err closed
       | OAuthGetValidToken => Err (new_Error "OAuth is not configured")
       | HttpGet _ _ _ => Err unavailable
       end)
    (fun _ => 1%N).

(** A full page of messages in range, then a short one. *)
Definition two_pages (n : nat) : list Object :=
  match n with
  | O => repeat m1 100
  | S O => [m2; m3]
  | _ => []
  end.

(** An auto-refresh session whose token is about to be refreshed by the
    planned timer. *)
Definition refreshing_session : State :=
  mkState (TM.mk None (Some "old") (Some (DateAt (t0 + 30 * minute))) (Some FacadeAdoptsToken))
          (Cfg.mk (Some "old") true (Some AutoRefresh) true) [] 1 t0 [] mac.

End Example.

(** * Properties *)

(** ** Running programs *)

Section ExecLaws.

Context {A B : Type} (w : World).

Lemma exec_bind (p : Prog A) (f : A -> Prog B) :
  forall st n,
    exec w (bind p f) st n =
    let '(st1, r, tr1) := exec w p st n in
    match r with
    | Ok a =>
        let '(st2, r2, tr2) := exec w (f a) st1 (n + List.length tr1)%nat in
        (st2, r2, (tr1 ++ tr2)%list)
    | Err e => (st1, Err e, tr1)
    end.
Proof.
  induction p as [a|e|k IH|s k IH|io k IH]; intros st n; simpl.
  - rewrite Nat.add_0_r. destruct (exec w (f a) st n) as [[st2 r2] tr2]. reflexivity.
  - reflexivity.
  - apply IH.
  - apply IH.
  - rewrite IH.
    destruct (exec w (k (answer w n io)) (tick (elapsed w n) st) (S n)) as [[st1 r] tr1].
    destruct r as [a|e]; [|reflexivity].
    simpl. rewrite Nat.add_succ_r.
    destruct (exec w (f a) st1 (S (n + List.length tr1))) as [[st2 r2] tr2].
    reflexivity.
Qed.

End ExecLaws.

Lemma exec_tryCatch {A : Type} (w : World) (p : Prog A) (h : Error -> Prog A) :
  forall st n,
    exec w (tryCatch p h) st n =
    let '(st1, r, tr1) := exec w p st n in
    match r with
    | Ok a => (st1, Ok a, tr1)
    | Err e =>
        let '(st2, r2, tr2) := exec w (h e) st1 (n + List.length tr1)%nat in
        (st2, r2, (tr1 ++ tr2)%list)
    end.
Proof.
  induction p as [a|e|k IH|s k IH|io k IH]; intros st n; simpl.
  - reflexivity.
  - rewrite Nat.add_0_r. destruct (exec w (h e) st n) as [[st2 r2] tr2]. reflexivity.
  - apply IH.
  - apply IH.
  - rewrite IH.
    destruct (exec w (k (answer w n io)) (tick (elapsed w n) st) (S n)) as [[st1 r] tr1].
    destruct r as [a|e]; [reflexivity|].
    simpl. rewrite Nat.add_succ_r.
    destruct (exec w (h e) st1 (S (n + List.length tr1))) as [[st2 r2] tr2].
    reflexivity.
Qed.

(** ** Programs that may be interleaved *)

Lemma post_exec {A} w I (p : Prog A) Q :
  forall st n st' r tr, post I p st Q -> exec w p st n = (st', r, tr) -> Q st' r.
Proof.
  induction p as [a|e|k IH|s k IH|io k IH]; intros st n st' r tr HQ; cbn in *.
  - intros [= <- <- <-]. exact HQ.
  - intros [= <- <- <-]. exact HQ.
  - intros H. eapply IH; eassumption.
  - intros H. eapply IH; eassumption.
  - destruct (exec w (k (answer w n io)) (tick (elapsed w n) st) (S n)) as [[st1 r1] tr1] eqn:H.
    intros [= <- <- <-]. eapply IH; [|exact H].
    apply HQ. lia.
Qed.

Lemma post_mono {A} I (p : Prog A) (Q Q' : State -> Result A -> Prop) :
  (forall st r, Q st r -> Q' st r) -> forall st, post I p st Q -> post I p st Q'.
Proof.
  intros HQ. induction p as [a|e|k IH|s k IH|io k IH]; intros st; cbn; auto.
  intros [HI H]. split; [exact HI|]. intros a now Hnow. apply IH, H, Hnow.
Qed.

Lemma post_bind {A B} I (p : Prog A) (f : A -> Prog B) Q :
  forall st,
    post I p st (fun st' r => match r with
                              | Ok a => post I (f a) st' Q
                              | Err e => Q st' (Err e)
                              end) ->
    post I (bind p f) st Q.
Proof.
  induction p as [a|e|k IH|s k IH|io k IH]; intros st; cbn; auto.
  intros [HI H]. split; [exact HI|]. intros a now Hnow. apply IH, H, Hnow.
Qed.

Lemma post_tryCatch {A} I (p : Prog A) (h : Error -> Prog A) Q :
  forall st,
    post I p st (fun st' r => match r with
                              | Ok a => Q st' (Ok a)
                              | Err e => post I (h e) st' Q
                              end) ->
    post I (tryCatch p h) st Q.
Proof.
  induction p as [a|e|k IH|s k IH|io k IH]; intros st; cbn; auto.
  intros [HI H]. split; [exact HI|]. intros a now Hnow. apply IH, H, Hnow.
Qed.

Lemma post_advance {A} I (p : Prog A) Q :
  forall st, post I p st Q ->
    match advance p st with
    | (st1, Settled r) => Q st1 r
    | (st1, Blocked io k) =>
        I st1 /\
        forall (a : Resp io) (now : Z), clock st1 <= now -> post I (k a) (with_clock now st1) Q
    end.
Proof.
  induction p as [a|e|k IH|s k IH|io k IH]; intros st; cbn; auto.
  - intros H. apply IH. exact H.
  - intros H. apply IH. exact H.
Qed.

(** A program that settles without awaiting anything. *)
Lemma post_settled {A} I (p : Prog A) Q :
  forall st st' r, advance p st = (st', Settled r) -> Q st' r -> post I p st Q.
Proof.
  induction p as [a|e|k IH|s k IH|io k IH]; intros st st' r; cbn.
  - intros [= <- <-]. trivial.
  - intros [= <- <-]. trivial.
  - apply IH.
  - apply IH.
  - discriminate.
Qed.

(** ** Token lifecycle manager *)

#[local] Arguments String.append : simpl never.

Ltac inv_exec H := injection H as <- <- <-.

(** Case analysis on whatever test blocks the run of a program. *)
Ltac case_exec :=
  match goal with
  | |- context [exec _ (bind (if ?b then _ else _) _) _ _] => destruct b eqn:?
  | |- context [exec _ (if ?b then _ else _) _ _] => destruct b eqn:?
  | |- context [exec _ (bind (match ?x with _ => _ end) _) _ _] => destruct x eqn:?
  | |- context [exec _ (match ?x with _ => _ end) _ _] => destruct x eqn:?
  | |- context [bind (if ?b then _ else _) _] => destruct b eqn:?
  | |- context [bind (match ?x with _ => _ end) _] => destruct x eqn:?
  end; cbn.

Ltac quiet_now := unfold quiet, no_network; cbn; repeat split; try reflexivity; try lia.

Lemma date_gt_true d now :
  date_gt d (DateAt now) = true -> exists E, d = DateAt E /\ now < E.
Proof.
  destruct d as [E|]; cbn; [|discriminate].
  intros H. exists E. split; [reflexivity|lia].
Qed.

Lemma cache_is_fresh_true st :
  cache_is_fresh st = true <->
  exists tok E, TM._cachedToken (manager st) = Some tok /\ tok <> "" /\
                TM._tokenExpiresAt (manager st) = Some (DateAt E) /\ clock st < E.
Proof.
  unfold cache_is_fresh, truthy_str. split.
  - destruct (TM._cachedToken (manager st)) as [tok|]; [|discriminate].
    destruct (TM._tokenExpiresAt (manager st)) as [d|]; [|rewrite andb_false_r; discriminate].
    intros H. apply andb_true_iff in H. destruct H as [H1 H2].
    apply date_gt_true in H2. destruct H2 as (E & -> & HE).
    exists tok, E. repeat split; trivial.
    intros ->. discriminate.
  - intros (tok & E & -> & Hne & -> & HE). cbn.
    apply andb_true_iff. split.
    + destruct (String.eqb_spec tok ""); [contradiction|reflexivity].
    + lia.
Qed.

Lemma timer_id_refresh_timer E now id : timer_id (refresh_timer E now id) = id.
Proof. unfold refresh_timer. cbv zeta. destruct (num_le _ _); reflexivity. Qed.

Lemma disarm_single st :
  single_timer st -> disarm (TM._refreshTimeout (manager st)) (timers st) = [].
Proof.
  intros [Hnone | (t & Hone & Hh)].
  - rewrite Hnone. destruct (TM._refreshTimeout (manager st)); reflexivity.
  - rewrite Hone, Hh. cbn. rewrite Nat.eqb_refl. reflexivity.
Qed.

(** Rounding to a double keeps the integers below 2^53, the sign, and
    what lies beyond the longest delay of a timer. *)
Lemma to_double_exact z : Z.abs z < 2 ^ 53 -> to_double z = z.
Proof.
  intros H. unfold to_double. cbv zeta.
  destruct (Z.abs z <? 2 ^ 53) eqn:Hlt; [reflexivity|].
  apply Z.ltb_ge in Hlt. lia.
Qed.

Lemma to_double_magnitude a :
  2 ^ 53 <= a ->
  let k := Z.log2 a - 52 in
  let q := a / 2 ^ k in
  let r := a mod 2 ^ k in
  let half := 2 ^ (k - 1) in
  2 ^ 53 <= (if (half <? r) || ((r =? half) && Z.odd q) then q + 1 else q) * 2 ^ k.
Proof.
  intros Ha. cbv zeta.
  assert (H53 : 53 <= Z.log2 a) by (apply Z.log2_le_pow2; lia).
  set (k := Z.log2 a - 52).
  assert (Hk : 0 < k) by (unfold k; lia).
  assert (Hpos : 2 ^ 1 <= 2 ^ k) by (apply Z.pow_le_mono_r; lia).
  assert (Hq : 2 ^ 52 <= a / 2 ^ k).
  { apply Z.div_le_lower_bound; [lia|].
    rewrite <- Z.pow_add_r by lia.
    replace (k + 52) with (Z.log2 a) by (unfold k; lia).
    apply Z.log2_spec. lia. }
  destruct (_ || _); nia.
Qed.

Lemma to_double_large z : 2 ^ 53 <= z -> 2 ^ 53 <= to_double z.
Proof.
  intros H. unfold to_double. cbv zeta.
  rewrite (Z.abs_eq z) by lia.
  destruct (z <? 2 ^ 53) eqn:Hlt; [apply Z.ltb_lt in Hlt; lia|].
  rewrite Z.sgn_pos by lia. rewrite Z.mul_1_l.
  apply (to_double_magnitude z H).
Qed.

Lemma to_double_opp z : to_double (- z) = - to_double z.
Proof.
  unfold to_double. cbv zeta. rewrite Z.abs_opp.
  destruct (Z.abs z <? 2 ^ 53); [reflexivity|].
  rewrite Z.sgn_opp. lia.
Qed.

Lemma to_double_sign z : to_double z <= 0 <-> z <= 0.
Proof.
  destruct (Z_lt_le_dec (Z.abs z) (2 ^ 53)) as [Hs|Hl].
  - rewrite (to_double_exact z Hs). tauto.
  - destruct (Z_le_gt_dec 0 z) as [Hz|Hz].
    + assert (2 ^ 53 <= to_double z) by (apply to_double_large; lia). lia.
    + assert (2 ^ 53 <= to_double (- z)) by (apply to_double_large; lia).
      rewrite to_double_opp in *. lia.
Qed.

Lemma to_double_beyond z : 2147483647 < z -> 2147483647 < to_double z.
Proof.
  intros H. destruct (Z_lt_le_dec z (2 ^ 53)) as [Hs|Hl].
  - rewrite to_double_exact; lia.
  - pose proof (to_double_large z Hl). lia.
Qed.

(** [new Date(x)] keeps the integers that are time values and no other. *)
Lemma Date_of_num_sub E :
  Date_of_num (num_sub (Num E) (Num 1800000)) =
  if Z.abs (E - 1800000) <=? MAX_TIME_VALUE then DateAt (E - 1800000) else InvalidDate.
Proof.
  unfold Date_of_num, num_sub, MAX_TIME_VALUE.
  destruct (Z_lt_le_dec (Z.abs (E - 1800000)) (2 ^ 53)) as [Hs|Hl].
  - rewrite (to_double_exact _ Hs). reflexivity.
  - assert (Hbig : 2 ^ 53 <= Z.abs (to_double (E - 1800000))).
    { destruct (Z_le_gt_dec 0 (E - 1800000)) as [Hz|Hz].
      - pose proof (to_double_large (E - 1800000)). lia.
      - pose proof (to_double_large (- (E - 1800000))) as Hd.
        rewrite to_double_opp in Hd. lia. }
    destruct (Z.abs (to_double (E - 1800000)) <=? 8640000000000000) eqn:H1;
      [apply Z.leb_le in H1; lia|].
    destruct (Z.abs (E - 1800000) <=? 8640000000000000) eqn:H2;
      [apply Z.leb_le in H2; lia|reflexivity].
Qed.

Section Lifecycle.

Variable Date_new : JsVal -> JsDate.
Variable toISOString : Z -> string.

Lemma storeToken_exec w tok ex st n st' r tr :
  exec w (storeToken toISOString tok ex) st n = (st', r, tr) ->
  quiet st st' /\ no_network tr /\
  (forall u, r = Ok u -> exists E, ex = DateAt E).
Proof.
  unfold storeToken. cbn.
  destruct (is_darwin st) eqn:HD; cbn.
  2:{ intros H; inv_exec H. quiet_now. discriminate. }
  destruct (answer w (S (S n)) (SecurityAdd KEYCHAIN_ACCOUNT tok)) as [u|e]; cbn.
  2:{ intros H; inv_exec H. quiet_now. discriminate. }
  destruct ex as [E|]; cbn.
  2:{ intros H; inv_exec H. quiet_now. discriminate. }
  destruct (answer w (S (S (S n))) (SecurityAdd KEYCHAIN_EXPIRY_ACCOUNT (toISOString E)))
    as [u'|e]; cbn.
  2:{ intros H; inv_exec H. quiet_now. discriminate. }
  intros H; inv_exec H. quiet_now. eauto.
Qed.

Lemma loadToken_exec w st n st' r tr :
  exec w (loadToken Date_new) st n = (st', r, tr) ->
  quiet st st' /\ no_network tr /\ exists v, r = Ok v.
Proof.
  unfold loadToken. cbn.
  destruct (is_darwin st) eqn:HD; cbn.
  2:{ intros H; inv_exec H. quiet_now. eauto. }
  destruct (answer w n (SecurityFind KEYCHAIN_ACCOUNT)) as [t|e]; cbn.
  2:{ intros H; inv_exec H. quiet_now. eauto. }
  destruct (answer w (S n) (SecurityFind KEYCHAIN_EXPIRY_ACCOUNT)) as [x|e]; cbn.
  2:{ intros H; inv_exec H. quiet_now. eauto. }
  destruct (negb (negb (t =? "")%string) || negb (negb (x =? "")%string)); cbn;
    intros H; inv_exec H; quiet_now; eauto.
Qed.

Lemma clearToken_exec w st n st' r tr :
  exec w clearToken st n = (st', r, tr) ->
  quiet st st' /\ no_network tr /\ r = Ok tt.
Proof.
  unfold clearToken. cbn.
  destruct (is_darwin st) eqn:HD; cbn; intros H; inv_exec H; quiet_now.
Qed.

Lemma scheduleRefresh_exec w E st n :
  exec w (scheduleRefresh (DateAt E)) st n = (scheduled E st, Ok tt, []).
Proof.
  unfold scheduleRefresh, scheduled, refresh_timer, ms_until_refresh.
  change (num_sub (getTime (DateAt E)) (Num (REFRESH_BEFORE_EXPIRY_MINUTES * 60 * 1000)))
    with (num_sub (Num E) (Num 1800000)).
  destruct st as [[h c e cb] cfg ts sq now con pr].
  destruct h as [id|]; cbn -[num_sub num_le Date_of_num getTime];
    destruct (num_le _ (Num 0)); reflexivity.
Qed.

#[local] Opaque storeToken scheduleRefresh.

(** What one [forceRefresh] does, whichever way it ends. *)
Lemma forceRefresh_exec w st n st' r tr :
  exec w (forceRefresh toISOString) st n = (st', r, tr) ->
  List.length (filter is_browser_fetch tr) = 1%nat /\
  filter is_http tr = [] /\
  process st' = process st /\ clock st <= clock st' /\
  Cfg._authInitialized (config st') = Cfg._authInitialized (config st) /\
  Cfg._authMethod (config st') = Cfg._authMethod (config st) /\
  match r with
  | Err e => manager st' = manager st /\ timers st' = timers st /\
             timer_seq st' = timer_seq st /\ config st' = config st
  | Ok tok =>
      exists E, answer w n FetchTokenFromBrowser = Ok (mkTokenRecord tok (DateAt E)) /\
        manager st' = TM.mk (Some (timer_seq st)) (Some tok) (Some (DateAt E))
                            (TM._onTokenRefreshed (manager st)) /\
        timers st' = (disarm (TM._refreshTimeout (manager st)) (timers st)
                      ++ [refresh_timer E (clock st') (timer_seq st)])%list /\
        timer_seq st' = S (timer_seq st)
  end.
Proof.
  unfold forceRefresh, fetchTokenFromBrowser. cbn.
  destruct (answer w n FetchTokenFromBrowser) as [[tok ex]|e] eqn:HF; cbn.
  2:{ intros H; inv_exec H. cbn. repeat split; try reflexivity. lia. }
  rewrite exec_bind.
  match goal with |- context [exec w (storeToken ?a ?b ?c) ?s ?m] =>
    destruct (exec w (storeToken a b c) s m) as [[st1 r1] tr1] eqn:HS end.
  apply storeToken_exec in HS.
  destruct HS as ((Hm & Hc & Ht & Hq & Hp & Hk) & (Hnb & Hnh) & Hok).
  cbn in Hm, Hc, Ht, Hq, Hp, Hk.
  destruct r1 as [u|e]; cbn.
  2:{ intros H; inv_exec H. cbn. rewrite Hnb, Hnh, Hm, Hc, Ht, Hq, Hp.
      repeat split; try reflexivity. lia. }
  destruct (Hok u eq_refl) as [E ->].
  rewrite exec_bind, scheduleRefresh_exec. cbn.
  destruct st1 as [m1 c1 t1 q1 k1 con1 p1]; cbn in *; subst m1 c1 t1 q1 p1.
  unfold scheduled; cbn.
  destruct (TM._onTokenRefreshed (manager st)) as [[]|] eqn:Hcb; cbn;
    intros H; inv_exec H; cbn; rewrite ?app_nil_r, Hnb, Hnh;
    (repeat split; try reflexivity; try lia);
    exists E; unfold set_refreshTimeout, set_cached; cbn; rewrite ?Hcb;
    repeat split; reflexivity.
Qed.

#[local] Opaque forceRefresh loadToken.

(** [getValidToken] unfolded into its three ways out. *)
Lemma getValidToken_unfold w st n :
  exec w (getValidToken Date_new toISOString) st n =
  if cache_is_fresh st then (st, Ok (cached_or_empty st), [])
  else
    let '(st1, r1, tr1) := exec w (loadToken Date_new) st n in
    match r1 with
    | Err e => (st1, Err e, tr1)
    | Ok stored =>
        match usable stored (clock st1) with
        | Some (tok, E) => (adopted tok E st1, Ok tok, tr1)
        | None =>
            let '(st2, r2, tr2) :=
              exec w (forceRefresh toISOString)
                   (with_console (fun c => c ++ [LogExpiredOrMissing])%list st1)
                   (n + List.length tr1) in
            (st2, r2, (tr1 ++ tr2)%list)
        end
    end.
Proof.
  unfold getValidToken. cbn.
  destruct (cache_is_fresh st); cbn; [reflexivity|].
  rewrite exec_bind.
  destruct (exec w (loadToken Date_new) st n) as [[st1 [stored|e]] tr1]; [|reflexivity].
  cbn. destruct stored as [[tok [E|]]|]; cbn; try reflexivity.
  destruct (clock st1 <? E); cbn; [|reflexivity].
  rewrite exec_bind, scheduleRefresh_exec. cbn. rewrite app_nil_r. reflexivity.
Qed.


(** C1 (amended).  [getValidToken] resolves in three steps.  (a) A cached
    token whose expiry lies ahead is returned as it is: nothing is awaited
    and the state is untouched.  Otherwise the Keychain is read, and (b) a
    stored record whose expiry lies ahead is adopted into the cache, a
    refresh is armed for it and its token is returned, the browser being
    left alone; (c) failing that, [forceRefresh] runs and the browser is
    opened exactly once; the token it resolves with is the one the login
    handed out, cached with the expiry the login reported, whatever that
    expiry is.  Whatever token is returned is the cached one; when it came
    from the cache or the Keychain, its expiry lies ahead of the clock at
    the return. *)
Theorem getValidToken_resolution w st n st' r tr :
  exec w (getValidToken Date_new toISOString) st n = (st', r, tr) ->
  (forall tok E,
      TM._cachedToken (manager st) = Some tok -> tok <> "" ->
      TM._tokenExpiresAt (manager st) = Some (DateAt E) -> clock st < E ->
      st' = st /\ r = Ok tok /\ tr = []) /\
  (cache_is_fresh st = false ->
   exists st1 stored tr1,
     exec w (loadToken Date_new) st n = (st1, Ok stored, tr1) /\
     (forall tok E,
         stored = Some (mkTokenRecord tok (DateAt E)) -> clock st1 < E ->
         r = Ok tok /\ tr = tr1 /\ filter is_browser_fetch tr = [] /\
         TM._cachedToken (manager st') = Some tok /\
         TM._tokenExpiresAt (manager st') = Some (DateAt E) /\
         TM._refreshTimeout (manager st') = Some (timer_seq st) /\
         timers st' = (disarm (TM._refreshTimeout (manager st)) (timers st)
                       ++ [refresh_timer E (clock st1) (timer_seq st)])%list /\
         clock st' = clock st1) /\
     ((forall rec, stored = Some rec ->
                   date_gt (expiresAt rec) (DateAt (clock st1)) = false) ->
      List.length (filter is_browser_fetch tr) = 1%nat /\
      (exists tr2,
         exec w (forceRefresh toISOString)
              (with_console (fun c => c ++ [LogExpiredOrMissing])%list st1)
              (n + List.length tr1) = (st', r, tr2) /\
         tr = (tr1 ++ tr2)%list) /\
      (forall tok, r = Ok tok ->
         exists E,
           answer w (n + List.length tr1) FetchTokenFromBrowser
           = Ok (mkTokenRecord tok (DateAt E)) /\
           TM._tokenExpiresAt (manager st') = Some (DateAt E)))) /\
  (forall tok, r = Ok tok ->
     exists E,
       TM._cachedToken (manager st') = Some tok /\
       TM._tokenExpiresAt (manager st') = Some (DateAt E) /\
       (filter is_browser_fetch tr = [] -> clock st' < E)).
Proof.
  unfold getValidToken. cbn.
  destruct (cache_is_fresh st) eqn:Hfresh; cbn.
  - intros H; inv_exec H.
    apply cache_is_fresh_true in Hfresh.
    destruct Hfresh as (tok0 & E0 & Ht0 & Hne0 & He0 & Hlt0).
    split; [|split]; [| discriminate |].
    + intros tok E Ht _ He _. unfold cached_or_empty. rewrite Ht. auto.
    + intros tok Hr. unfold cached_or_empty in Hr. rewrite Ht0 in Hr. injection Hr as <-.
      exists E0. auto.
  - rewrite exec_bind.
    destruct (exec w (loadToken Date_new) st n) as [[st1 r1] tr1] eqn:HL.
    pose proof (loadToken_exec _ _ _ _ _ _ HL)
      as ((Hm & Hc & Ht & Hq & Hp & Hk) & (Hnb & Hnh) & (stored & ->)).
    cbn.
    assert (Hmiss :
      forall st0, st0 = with_console (fun c => c ++ [LogExpiredOrMissing])%list st1 ->
      (let '(st2, r2, tr2) := exec w (forceRefresh toISOString) st0 (n + List.length tr1) in
       (st2, r2, (tr1 ++ tr2)%list)) = (st', r, tr) ->
      (List.length (filter is_browser_fetch tr) = 1%nat /\
       (exists tr2, exec w (forceRefresh toISOString) st0 (n + List.length tr1) = (st', r, tr2) /\
                    tr = (tr1 ++ tr2)%list) /\
       (forall tok, r = Ok tok ->
          exists E,
            answer w (n + List.length tr1) FetchTokenFromBrowser
            = Ok (mkTokenRecord tok (DateAt E)) /\
            TM._tokenExpiresAt (manager st') = Some (DateAt E))) /\
      (forall tok, r = Ok tok ->
         exists E,
           TM._cachedToken (manager st') = Some tok /\
           TM._tokenExpiresAt (manager st') = Some (DateAt E) /\
           (filter is_browser_fetch tr = [] -> clock st' < E))).
    { intros st0 Hst0.
      destruct (exec w (forceRefresh toISOString) st0 (n + List.length tr1))
        as [[st2 r2] tr2] eqn:HF.
      intros H; inv_exec H.
      pose proof (forceRefresh_exec _ _ _ _ _ _ HF) as (Hone & _ & _ & _ & _ & _ & Hr).
      assert (Hcount : List.length (filter is_browser_fetch (tr1 ++ tr2)) = 1%nat).
      { rewrite filter_app, Hnb. exact Hone. }
      split; [split; [exact Hcount | split; [eauto|]] |].
      - intros tok ->. destruct Hr as (E & Hans & Hmgr & _).
        exists E. rewrite Hmgr. split; [exact Hans|reflexivity].
      - intros tok ->. destruct Hr as (E & Hans & Hmgr & _).
        exists E. rewrite Hmgr. cbn. repeat split.
        intros Hnil. rewrite Hnil in Hcount. discriminate. }
    assert (Hstale :
      forall tok E, TM._cachedToken (manager st) = Some tok -> tok <> "" ->
        TM._tokenExpiresAt (manager st) = Some (DateAt E) -> clock st < E -> False).
    { intros tok E Ht' Hne He Hlt.
      assert (cache_is_fresh st = true) by (apply cache_is_fresh_true; eauto 6).
      congruence. }
    destruct stored as [[tok0 ex0]|]; cbn.
    + destruct (date_gt ex0 (DateAt (clock st1))) eqn:Hgt; cbn.
      * clear Hmiss.
        apply date_gt_true in Hgt. destruct Hgt as (E0 & -> & HE0).
        rewrite exec_bind, scheduleRefresh_exec. cbn.
        intros H; inv_exec H. cbn. rewrite app_nil_r.
        split; [intros; exfalso; eauto|]. split.
        -- intros _. exists st1, (Some (mkTokenRecord tok0 (DateAt E0))), tr1.
           split; [reflexivity|]. split.
           ++ intros tok E [= <- <-] _. rewrite Hm, Ht, Hq. repeat split; trivial.
           ++ intros Hold. specialize (Hold _ eq_refl). cbn in Hold. lia.
        -- intros tok [= <-]. exists E0. repeat split; intros; lia.
      * intros H. destruct (Hmiss _ eq_refl H) as [Hc' Hd].
        split; [intros; exfalso; eauto|]. split; [|exact Hd].
        intros _. exists st1, (Some (mkTokenRecord tok0 ex0)), tr1.
        split; [reflexivity|]. split.
        -- intros tok E [= <- ->] Hlt. cbn in Hgt. lia.
        -- intros _. exact Hc'.
    + intros H. destruct (Hmiss _ eq_refl H) as [Hc' Hd].
      split; [intros; exfalso; eauto|]. split; [|exact Hd].
      intros _. exists st1, None, tr1.
      split; [reflexivity|]. split.
      * intros tok E [=].
      * intros _. exact Hc'.
Qed.

(** A timer armed at [now] for the expiry [E] is what lines 96-132 make
    of [refreshAt = E - 30 min]. *)
Lemma refresh_timer_armed E now id : armed_for E now (refresh_timer E now id).
Proof.
  unfold armed_for, refresh_timer, ms_until_refresh, due_from, is_due. cbv zeta.
  rewrite Date_of_num_sub.
  change (30 * 60 * 1000) with 1800000.
  destruct (Z.abs (E - 1800000) <=? MAX_TIME_VALUE) eqn:Hvalid; cbn [getTime num_sub num_le].
  2:{ cbn. repeat split; trivial; intros H; [apply Z.leb_le in H|apply Z.leb_le]; lia. }
  pose proof (to_double_sign (E - 1800000 - now)) as Hsign.
  destruct (to_double (E - 1800000 - now) <=? 0) eqn:Hle.
  - apply Z.leb_le in Hle. apply Hsign in Hle.
    destruct (E - 1800000 <=? now) eqn:Hpast; [|apply Z.leb_gt in Hpast; lia].
    cbn. repeat split; trivial; intros H; [apply Z.leb_le in H|apply Z.leb_le]; lia.
  - apply Z.leb_gt in Hle.
    assert (Hahead : 0 < E - 1800000 - now) by (apply Z.nle_gt; intros X; apply Hsign in X; lia).
    destruct (E - 1800000 <=? now) eqn:Hpast; [apply Z.leb_le in Hpast; lia|].
    cbn [timer_set_at timer_kind timer_delay]. split; [reflexivity|]. split; [reflexivity|].
    destruct (E - 1800000 - now <=? 2147483647) eqn:Hfits.
    + apply Z.leb_le in Hfits.
      rewrite to_double_exact by lia.
      split; [reflexivity|]. intros t. unfold effective_delay.
      destruct ((E - 1800000 - now <? 1) || (2147483647 <? E - 1800000 - now)) eqn:Hclamp.
      * apply orb_true_iff in Hclamp. destruct Hclamp as [X|X]; apply Z.ltb_lt in X; lia.
      * split; intros H; [apply Z.leb_le in H|apply Z.leb_le]; lia.
    + apply Z.leb_gt in Hfits. apply to_double_beyond in Hfits.
      intros t. unfold effective_delay.
      destruct ((to_double (E - 1800000 - now) <? 1) ||
                (2147483647 <? to_double (E - 1800000 - now))) eqn:Hclamp.
      * split; intros H; [apply Z.leb_le in H|apply Z.leb_le]; lia.
      * apply orb_false_iff in Hclamp. destruct Hclamp as [_ X]. apply Z.ltb_ge in X. lia.
Qed.

(** X27.  [scheduleRefresh] for an expiry [E] leaves one new timer behind
    the ones it did not clear, armed at the current clock and referenced
    by [_refreshTimeout].  With [refreshAt = E - 30 min] a time value: when
    [refreshAt] is not ahead of the clock the timer is the immediate
    refresh, with the fixed delay of 1000 ms, due from a second later;
    when it is ahead by no more than 2^31-1 ms the timer is the planned
    refresh and it is due exactly from [refreshAt]; when it is further
    ahead the timer is the planned refresh, but the runtime makes it due
    1 ms after it was armed.  When [refreshAt] is no time value ([E] lies
    within 30 minutes of the earliest date), the timer is the planned
    refresh with the delay [NaN], due 1 ms after it was armed.  Every
    [forceRefresh] that succeeds has armed this timer for the expiry it
    fetched. *)
Theorem refresh_scheduled_ahead_of_expiry w st n :
  (forall E,
     exists st' t,
       exec w (scheduleRefresh (DateAt E)) st n = (st', Ok tt, []) /\
       timers st' = (disarm (TM._refreshTimeout (manager st)) (timers st) ++ [t])%list /\
       TM._refreshTimeout (manager st') = Some (timer_id t) /\
       armed_for E (clock st) t) /\
  (forall st' tok tr,
     exec w (forceRefresh toISOString) st n = (st', Ok tok, tr) ->
     exists E t,
       answer w n FetchTokenFromBrowser = Ok (mkTokenRecord tok (DateAt E)) /\
       timers st' = (disarm (TM._refreshTimeout (manager st)) (timers st) ++ [t])%list /\
       TM._refreshTimeout (manager st') = Some (timer_id t) /\
       armed_for E (clock st') t).
Proof.
  split.
  - intros E. exists (scheduled E st), (refresh_timer E (clock st) (timer_seq st)).
    split; [apply scheduleRefresh_exec|].
    split; [reflexivity|].
    split; [cbn; rewrite timer_id_refresh_timer; reflexivity|].
    apply refresh_timer_armed.
  - intros st' tok tr H. apply forceRefresh_exec in H.
    destruct H as (_ & _ & _ & _ & _ & _ & E & Hans & Hmgr & Htim & _).
    exists E, (refresh_timer E (clock st') (timer_seq st)).
    split; [exact Hans|]. split; [exact Htim|].
    split; [rewrite Hmgr, timer_id_refresh_timer; reflexivity|].
    apply refresh_timer_armed.
Qed.

(** C5 (amended).  When the [forceRefresh] run by the closure of a timer
    throws, the closure itself returns normally: nothing reaches a caller
    and the failed refresh has armed nothing.  What follows depends on the
    timer.  A planned refresh logs the failure and arms one retry, 5 minutes
    later, whose handle it stores in [_refreshTimeout].  A retry only logs
    the failure.  An immediate refresh, the one armed with the 1000 ms
    delay, also only logs the failure. *)
Theorem scheduled_refresh_failure_is_contained w kind st n st1 e tr :
  exec w (forceRefresh toISOString) (entering kind st) n = (st1, Err e, tr) ->
  exists st',
    exec w (timerCallback toISOString kind) st n = (st', Ok tt, tr) /\
    timers st1 = timers st /\
    after_failure kind e st1 st'.
Proof.
  intros H.
  pose proof (forceRefresh_exec _ _ _ _ _ _ H) as (_ & _ & _ & _ & _ & _ & Hm & Ht & _).
  destruct kind; cbn in *;
    rewrite exec_tryCatch, exec_bind, H; cbn; rewrite app_nil_r;
    eexists; (split; [reflexivity|]); cbn; auto.
Qed.

(** The closure of a timer never throws. *)
Lemma timerCallback_never_throws w kind st n :
  exists st' tr, exec w (timerCallback toISOString kind) st n = (st', Ok tt, tr).
Proof.
  destruct (exec w (forceRefresh toISOString) (entering kind st) n)
    as [[st1 [tok|e]] tr] eqn:H;
    destruct kind; cbn in *;
    rewrite exec_tryCatch, exec_bind, H; cbn; rewrite ?app_nil_r; eauto.
Qed.

(** Serial use keeps the timer single: each operation of the manager, run
    alone from a state with at most one armed timer, leaves at most one,
    and so does the closure of the timer that has just fired. *)
Lemma forceRefresh_single w st n st' r tr :
  single_timer st ->
  exec w (forceRefresh toISOString) st n = (st', r, tr) ->
  single_timer st'.
Proof.
  intros Hone H. apply forceRefresh_exec in H.
  destruct H as (_ & _ & _ & _ & _ & _ & Hr). destruct r as [tok|e].
  - destruct Hr as (E & _ & Hmgr & Htim & _).
    right. eexists. rewrite Htim, Hmgr, disarm_single by assumption.
    split; [reflexivity|]. cbn. rewrite timer_id_refresh_timer. reflexivity.
  - destruct Hr as (Hmgr & Htim & _). unfold single_timer. rewrite Hmgr, Htim. exact Hone.
Qed.

Lemma quiet_single st st' :
  quiet st st' -> single_timer st -> single_timer st'.
Proof.
  intros (Hm & _ & Ht & _) H. unfold single_timer. rewrite Hm, Ht. exact H.
Qed.

Lemma getValidToken_single w st n st' r tr :
  single_timer st ->
  exec w (getValidToken Date_new toISOString) st n = (st', r, tr) ->
  single_timer st'.
Proof.
  intros Hone. rewrite getValidToken_unfold.
  destruct (cache_is_fresh st); [intros H; inv_exec H; exact Hone|].
  destruct (exec w (loadToken Date_new) st n) as [[st1 r1] tr1] eqn:HL.
  apply loadToken_exec in HL. destruct HL as (Hq & _ & stored & ->).
  pose proof (quiet_single _ _ Hq Hone) as Hone1.
  destruct (usable stored (clock st1)) as [[tok E]|].
  - intros H; inv_exec H.
    right. eexists. cbn. rewrite (disarm_single _ Hone1).
    split; [reflexivity|]. rewrite timer_id_refresh_timer. reflexivity.
  - destruct (exec w (forceRefresh toISOString) _ (n + List.length tr1))
      as [[st2 r2] tr2] eqn:HF.
    intros H; inv_exec H.
    eapply forceRefresh_single; [|exact HF]. exact Hone1.
Qed.

Lemma clearCachedToken_single w st n st' r tr :
  single_timer st ->
  exec w clearCachedToken st n = (st', r, tr) ->
  timers st' = [].
Proof.
  intros Hone. pose proof (disarm_single _ Hone) as Hd.
  unfold clearCachedToken, clearToken. cbn.
  destruct (TM._refreshTimeout (manager st)) as [id|] eqn:Hh; cbn in *;
    match goal with |- context [is_darwin ?s] => destruct (is_darwin s) end;
    cbn; intros H; inv_exec H; cbn; exact Hd.
Qed.

Lemma timer_firing_single w t st n st' r tr :
  timers st = [t] ->
  exec w (timerCallback toISOString (timer_kind t))
       (with_timers (fun _ => []) st) n = (st', r, tr) ->
  single_timer st'.
Proof.
  intros Hfired H.
  set (st0 := with_timers (fun _ => []) st) in *.
  assert (Hnone : single_timer (entering (timer_kind t) st0))
    by (left; destruct (timer_kind t); reflexivity).
  destruct (exec w (forceRefresh toISOString) (entering (timer_kind t) st0) n)
    as [[st1 [tok|e]] tr1] eqn:HF.
  - pose proof (forceRefresh_single _ _ _ _ _ _ Hnone HF) as Hs.
    destruct (timer_kind t); cbn in *;
      rewrite exec_tryCatch, exec_bind, HF in H; cbn in H; inv_exec H; exact Hs.
  - pose proof (forceRefresh_exec _ _ _ _ _ _ HF) as (_ & _ & _ & _ & _ & _ & _ & Ht1 & _).
    assert (Hempty : timers st1 = []) by (rewrite Ht1; destruct (timer_kind t); reflexivity).
    destruct (timer_kind t); cbn in *;
      rewrite exec_tryCatch, exec_bind, HF in H; cbn in H; inv_exec H.
    + left. exact Hempty.
    + right. cbn. rewrite Hempty. eexists. split; reflexivity.
    + left. exact Hempty.
Qed.

(** ** Auth facade *)

Lemma getValidToken_keeps_mode w st n st' r tr :
  exec w (getValidToken Date_new toISOString) st n = (st', r, tr) ->
  Cfg._authInitialized (config st') = Cfg._authInitialized (config st) /\
  Cfg._authMethod (config st') = Cfg._authMethod (config st) /\
  process st' = process st.
Proof.
  rewrite getValidToken_unfold.
  destruct (cache_is_fresh st); [intros H; inv_exec H; auto|].
  destruct (exec w (loadToken Date_new) st n) as [[st1 r1] tr1] eqn:HL.
  apply loadToken_exec in HL. destruct HL as ((_ & Hc & _ & _ & Hp & _) & _ & stored & ->).
  destruct (usable stored (clock st1)) as [[tok E]|].
  - intros H; inv_exec H. cbn. rewrite Hc, Hp. auto.
  - destruct (exec w (forceRefresh toISOString) _ (n + List.length tr1))
      as [[st2 r2] tr2] eqn:HF.
    intros H; inv_exec H.
    pose proof (forceRefresh_exec _ _ _ _ _ _ HF) as (_ & _ & Hp2 & _ & Hi2 & Hm2 & _).
    cbn in Hp2, Hi2, Hm2. rewrite Hi2, Hm2, Hp2, Hc, Hp. auto.
Qed.

#[local] Opaque getValidToken.

(** C9.  [initializeAuth] takes the first mode that applies.  A non-empty
    static key selects [static] and nothing is awaited.  Otherwise, with the
    auto-refresh flag set to [true], the call throws the platform error at
    once on any platform but macOS; on macOS it registers the facade
    callback and obtains a token from the token manager: it selects
    [auto-refresh] when that succeeds and throws the manager's error, with
    no mode selected, when it fails.  Otherwise, with OAuth credentials
    present, it awaits the OAuth token and selects [oauth], or throws the
    OAuth error.  Otherwise it throws the error that no authentication is
    configured. *)
Theorem initializeAuth_first_match w st n st' r tr :
  exec w (initializeAuth Date_new toISOString) st n = (st', r, tr) ->
  let env := process st in
  if truthy_str (WEBEX_PUBLIC_WORKSPACE_API_KEY env) then
    r = Ok tt /\ tr = [] /\
    Cfg._authMethod (config st') = Some Static /\
    Cfg._authInitialized (config st') = true
  else if auto_refresh_enabled env then
    if negb (platform env =? "darwin")%string then
      r = Err (new_Error PLATFORM_UNSUPPORTED) /\ tr = [] /\ st' = st
    else
      exists st0 st1 r1,
        exec w (getValidToken Date_new toISOString) st0 n = (st1, r1, tr) /\
        TM._onTokenRefreshed (manager st0) = Some FacadeAdoptsToken /\
        match r1 with
        | Ok t =>
            r = Ok tt /\
            Cfg._authMethod (config st') = Some AutoRefresh /\
            Cfg._authInitialized (config st') = true /\
            Cfg._cachedToken (config st') = Some t
        | Err e =>
            r = Err e /\
            Cfg._authMethod (config st') = Cfg._authMethod (config st) /\
            Cfg._authInitialized (config st') = Cfg._authInitialized (config st)
        end
  else if hasOAuthCredentials env then
    tr = [OAuthGetValidToken] /\
    match answer w n OAuthGetValidToken with
    | Ok t =>
        r = Ok tt /\
        Cfg._authMethod (config st') = Some OAuth /\
        Cfg._authInitialized (config st') = true /\
        Cfg._cachedToken (config st') = Some t
    | Err e =>
        r = Err e /\ config st' = config st
    end
  else
    r = Err (new_Error NO_AUTH_CONFIGURED) /\ tr = [] /\ st' = st.
Proof.
  unfold initializeAuth. cbn.
  destruct (truthy_str (WEBEX_PUBLIC_WORKSPACE_API_KEY (process st))) eqn:Hstatic; cbn.
  { intros H; inv_exec H. cbn. auto. }
  destruct (auto_refresh_enabled (process st)) eqn:Hauto; cbn.
  { destruct (negb (platform (process st) =? "darwin")%string) eqn:Hplat; cbn.
    { intros H; inv_exec H. auto. }
    rewrite exec_bind.
    match goal with |- context [exec w (getValidToken _ _) ?s n] =>
      set (st0 := s); destruct (exec w (getValidToken Date_new toISOString) st0 n)
        as [[st1 r1] tr1] eqn:HG end.
    intros H. exists st0, st1, r1.
    pose proof (getValidToken_keeps_mode _ _ _ _ _ _ HG) as (Hi & Hm & _).
    destruct r1 as [t|e]; cbn in H; inv_exec H; rewrite ?app_nil_r.
    - split; [exact HG|]. split; [reflexivity|]. cbn. auto.
    - split; [exact HG|]. split; [reflexivity|]. rewrite Hi, Hm. cbn. auto. }
  destruct (hasOAuthCredentials (process st)) eqn:Hoauth; cbn.
  { destruct (answer w n OAuthGetValidToken) as [t|e]; cbn; intros H; inv_exec H; cbn; auto. }
  intros H; inv_exec H. auto.
Qed.

End Lifecycle.

(** ** Calls and timers that take turns *)

Lemma idle_blocked l : idle l = true -> blocked l = [].
Proof. unfold idle. destruct (blocked l); [reflexivity|discriminate]. Qed.

Lemma find_single (h : nat) (ts : list Timer) t :
  (ts = [] \/ exists t0, ts = [t0]) ->
  find (fun t => Nat.eqb (timer_id t) h) ts = Some t ->
  filter (fun t => negb (Nat.eqb (timer_id t) h)) ts = [].
Proof.
  intros [->|[t0 ->]]; cbn; [discriminate|].
  destruct (Nat.eqb (timer_id t0) h); cbn; [reflexivity|discriminate].
Qed.

Section Serial.

Variable Date_new : JsVal -> JsDate.
Variable toISOString : Z -> string.

Lemma post_storeToken tok ex st :
  single_timer st ->
  post single_timer (storeToken toISOString tok ex) st
       (fun st' r => quiet st st' /\ forall u, r = Ok u -> exists E, ex = DateAt E).
Proof.
  intros Hone. unfold storeToken. cbn.
  destruct (is_darwin st); cbn.
  2:{ split; [quiet_now|discriminate]. }
  split; [exact Hone|]. intros _ t1 H1. split; [exact Hone|]. intros _ t2 H2.
  split; [exact Hone|]. intros [u|e] t3 H3; cbn.
  2:{ split; [quiet_now|discriminate]. }
  destruct ex as [E|]; cbn.
  2:{ split; [quiet_now|discriminate]. }
  split; [exact Hone|]. intros [u'|e] t4 H4; cbn.
  - split; [quiet_now|eauto].
  - split; [quiet_now|discriminate].
Qed.

Lemma post_loadToken st :
  single_timer st ->
  post single_timer (loadToken Date_new) st (fun st' r => quiet st st' /\ exists v, r = Ok v).
Proof.
  intros Hone. unfold loadToken. cbn.
  destruct (is_darwin st); cbn.
  2:{ split; [quiet_now|eauto]. }
  split; [exact Hone|]. intros [t|e] t1 H1; cbn.
  2:{ split; [quiet_now|eauto]. }
  split; [exact Hone|]. intros [x|e] t2 H2; cbn.
  2:{ split; [quiet_now|eauto]. }
  destruct (negb (negb (t =? "")%string) || negb (negb (x =? "")%string)); cbn;
    (split; [quiet_now|eauto]).
Qed.

Lemma post_clearToken st :
  single_timer st ->
  post single_timer clearToken st (fun st' r => quiet st st').
Proof.
  intros Hone. unfold clearToken. cbn.
  destruct (is_darwin st); cbn; [|quiet_now].
  split; [exact Hone|]. intros _ t1 H1. split; [exact Hone|]. intros _ t2 H2. quiet_now.
Qed.

Lemma scheduleRefresh_advance E st :
  advance (scheduleRefresh (DateAt E)) st = (scheduled E st, Settled (Ok tt)).
Proof.
  unfold scheduleRefresh, scheduled, refresh_timer, ms_until_refresh.
  change (num_sub (getTime (DateAt E)) (Num (REFRESH_BEFORE_EXPIRY_MINUTES * 60 * 1000)))
    with (num_sub (Num E) (Num 1800000)).
  destruct st as [[h c e cb] cfg ts sq now con pr].
  destruct h as [id|]; cbn -[num_sub num_le Date_of_num getTime];
    destruct (num_le _ (Num 0)); reflexivity.
Qed.

#[local] Opaque storeToken scheduleRefresh.

Lemma post_forceRefresh st :
  single_timer st ->
  post single_timer (forceRefresh toISOString) st (refreshed_or_untouched st).
Proof.
  intros Hone. unfold forceRefresh, fetchTokenFromBrowser. cbn.
  split; [exact Hone|].
  intros [[tok ex]|e] t1 H1; cbn; [|auto].
  apply post_bind. eapply post_mono; [|apply post_storeToken; exact Hone].
  intros st1 r1 ((Hm & Hc & Ht & Hq & Hp & Hk) & Hok). cbn in Hm, Ht, Hq.
  destruct r1 as [u|e]; [|cbn; rewrite Hm, Ht; auto].
  destruct (Hok u eq_refl) as [E ->].
  cbn. apply post_bind.
  eapply post_settled; [apply scheduleRefresh_advance|].
  cbn. destruct (TM._onTokenRefreshed (manager st1)) as [[]|]; cbn;
    rewrite Hm, Ht, Hq; eexists; (split; [reflexivity|]); cbn;
    rewrite timer_id_refresh_timer; reflexivity.
Qed.

#[local] Opaque forceRefresh loadToken clearToken.

Lemma post_forceRefresh_single st :
  single_timer st -> post single_timer (forceRefresh toISOString) st ends_single.
Proof.
  intros Hone. eapply post_mono; [|apply (post_forceRefresh _ Hone)].
  intros st' [tok|e]; cbn; unfold ends_single.
  - intros (t & Ht & Hh). right. exists t. rewrite Ht, Hh, disarm_single by assumption.
    split; reflexivity.
  - intros (Hm & Ht). unfold single_timer. rewrite Hm, Ht. exact Hone.
Qed.

Lemma post_getValidToken_single st :
  single_timer st -> post single_timer (getValidToken Date_new toISOString) st ends_single.
Proof.
  intros Hone. unfold getValidToken. cbn.
  destruct (cache_is_fresh st); cbn; [exact Hone|].
  apply post_bind. eapply post_mono; [|apply (post_loadToken _ Hone)].
  intros st1 r1 (Hq & stored & ->).
  pose proof (quiet_single _ _ Hq Hone) as Hone1.
  cbn. destruct stored as [[tok ex]|]; cbn.
  - destruct (date_gt ex (DateAt (clock st1))) eqn:Hgt; cbn.
    + apply date_gt_true in Hgt. destruct Hgt as (E & -> & _).
      apply post_bind. eapply post_settled; [apply scheduleRefresh_advance|].
      cbn. unfold ends_single. right. eexists. cbn. rewrite (disarm_single _ Hone1).
      split; [reflexivity|]. rewrite timer_id_refresh_timer. reflexivity.
    + apply post_forceRefresh_single. exact Hone1.
  - apply post_forceRefresh_single. exact Hone1.
Qed.

Lemma post_clearCachedToken_single st :
  single_timer st -> post single_timer clearCachedToken st ends_single.
Proof.
  intros Hone. pose proof (disarm_single _ Hone) as Hd.
  unfold clearCachedToken. cbn.
  destruct (TM._refreshTimeout (manager st)) as [id|] eqn:Hh; cbn in *;
    apply post_bind;
    (eapply post_mono; [|apply post_clearToken; left; exact Hd]);
    intros st1 r1 (_ & _ & Ht & _); cbn in *; destruct r1; cbn; unfold ends_single; left; cbn;
    rewrite Ht; exact Hd.
Qed.

Lemma post_timerCallback_single kind st :
  timers st = [] -> post single_timer (timerCallback toISOString kind) st ends_single.
Proof.
  intros Hnone.
  assert (Hin : single_timer (entering kind st)) by (left; destruct kind; exact Hnone).
  destruct kind; cbn in *; apply post_tryCatch, post_bind;
    (eapply post_mono; [|apply (post_forceRefresh _ Hin)]);
    intros st1 [tok|e]; cbn; unfold ends_single.
  1,3,5: intros (t & Ht & Hh); right; exists t; cbn in Ht; rewrite Hnone in Ht;
         rewrite Ht, Hh; destruct (TM._refreshTimeout (manager st)); split; reflexivity.
  all: intros (Hm & Ht).
  - left. cbn. rewrite Ht. exact Hnone.
  - right. eexists. cbn. rewrite Ht. cbn. rewrite Hnone. split; reflexivity.
  - left. cbn. rewrite Ht. exact Hnone.
Qed.

Lemma post_body_single o st :
  single_timer st ->
  match o with FromTimer _ => timers st = [] | FromCaller _ => True end ->
  post single_timer (body Date_new toISOString o) st ends_single.
Proof.
  intros Hone Ht. destruct o as [[| | |cb]|kind]; cbn.
  - apply post_bind. eapply post_mono; [|apply (post_getValidToken_single _ Hone)].
    intros st1 [a|e] H; exact H.
  - apply post_bind. eapply post_mono; [|apply (post_forceRefresh_single _ Hone)].
    intros st1 [a|e] H; exact H.
  - apply post_bind. eapply post_mono; [|apply (post_clearCachedToken_single _ Hone)].
    intros st1 [a|e] H; exact H.
  - exact Hone.
  - apply post_bind. eapply post_mono; [|apply (post_timerCallback_single _ _ Ht)].
    intros st1 [a|e] H; exact H.
Qed.

Lemma start_one_at_a_time o p st done :
  post single_timer p st ends_single -> one_at_a_time (start o p (mkLoop st [] done)).
Proof.
  intros H. apply post_advance in H. unfold start, one_at_a_time. cbn.
  destruct (advance p st) as [st1 [r|io k]]; cbn; [split; [exact H|trivial]|exact H].
Qed.

(** An event that does not overlap a call in progress keeps the loop with
    one timer at most. *)
Lemma deliver_in_turn now ev l l' :
  one_at_a_time l -> in_turn l ev ->
  deliver Date_new toISOString now ev l = Some l' ->
  one_at_a_time l'.
Proof.
  intros [Hone Hl] Hturn. unfold deliver.
  destruct (now <? clock (loop_state l)) eqn:Hnow; [discriminate|].
  apply Z.ltb_ge in Hnow.
  destruct ev as [c|h|i r]; cbn in Hturn.
  - apply idle_blocked in Hturn. rewrite Hturn in *.
    intros [= <-]. apply start_one_at_a_time.
    apply (post_body_single (FromCaller c)); [exact Hone|trivial].
  - apply idle_blocked in Hturn. rewrite Hturn in *.
    destruct (find _ _) as [t|] eqn:Hfind; [|discriminate].
    destruct (is_due now t); [|discriminate].
    intros [= <-]. apply start_one_at_a_time.
    assert (Hnone : timers (with_timers (filter (fun t => negb (Nat.eqb (timer_id t) h)))
                                        (with_clock now (loop_state l))) = []).
    { cbn. cbn in Hfind. eapply find_single; [|exact Hfind].
      destruct Hone as [Hone|(t0 & Hone & _)]; [left|right; exists t0]; exact Hone. }
    apply (post_body_single (FromTimer (timer_kind t))); [left; exact Hnone|exact Hnone].
  - destruct (blocked l) as [|t [|t' rest]] eqn:Hb; [destruct i; discriminate| |contradiction].
    destruct i as [|i]; cbn; [|destruct i; discriminate].
    intros [= <-]. apply start_one_at_a_time. apply Hl. exact Hnow.
Qed.

(** X10.  A run of the event loop in which calls and timers take turns
    (none starts while another one is waiting for an operation), started
    from a loop that runs one at a time, ends with one timer at most
    armed, and [_refreshTimeout] is its handle. *)
Theorem serial_run_keeps_one_timer evs :
  forall l l',
    one_at_a_time l -> all_in_turn Date_new toISOString evs l ->
    run Date_new toISOString evs l = Some l' ->
    single_timer (loop_state l').
Proof.
  induction evs as [|[now ev] evs IH]; intros l l' Hl Hturn; cbn.
  - intros [= <-]. exact (proj1 Hl).
  - cbn in Hturn. destruct Hturn as [Hev Hrest].
    destruct (deliver Date_new toISOString now ev l) as [l1|] eqn:Hd; [|discriminate].
    apply IH; [|exact Hrest]. exact (deliver_in_turn _ _ _ _ Hl Hev Hd).
Qed.
End Serial.

(** ** Listing tool *)

Lemma keep_before_prefix {A : Type} (i : Z) (l : list A) :
  exists rest, l = (keep_before i l ++ rest)%list.
Proof.
  exists (skipn (clamp_index (List.length l) i) l).
  unfold keep_before. symmetry. apply firstn_skipn.
Qed.

Lemma keep_before_length {A : Type} (M : Z) (l : list A) :
  0 < M -> Z.of_nat (List.length (keep_before M l)) <= M.
Proof.
  intros HM. unfold keep_before, clamp_index.
  destruct (M <? 0) eqn:Hneg; [apply Z.ltb_lt in Hneg; lia|].
  rewrite length_firstn. lia.
Qed.

Lemma Forall_prefix {A : Type} (P : A -> Prop) (l p rest : list A) :
  l = (p ++ rest)%list -> Forall P l -> Forall P p.
Proof. intros -> H. apply Forall_app in H. tauto. Qed.

Lemma batch_of_http w n url q h b :
  answer w n (HttpGet url q h) = Ok b ->
  batch_of w n (HttpGet url q h) = match items b with Some xs => xs | None => [] end.
Proof. intros H. unfold batch_of. rewrite H. reflexivity. Qed.

Lemma received_cons w n io tr :
  received w n (io :: tr) = (batch_of w n io ++ received w (S n) tr)%list.
Proof. reflexivity. Qed.

Lemma received_one w n io : received w n [io] = batch_of w n io.
Proof. unfold received. cbn [batches List.concat]. apply app_nil_r. Qed.

Lemma request_failed_later w n io tr e :
  request_failed w (S n) tr e -> request_failed w n (io :: tr) e.
Proof.
  intros (i & url & q & h & Hi & He). exists (S i), url, q, h.
  split; [exact Hi|]. rewrite Nat.add_succ_r. exact He.
Qed.

Section Listing.

Variable Date_new : JsVal -> JsDate.

Lemma scan_batch_spec d batch pushed found :
  scan_batch Date_new d batch = (pushed, found) ->
  Forall (in_range Date_new d) pushed /\
  exists rest, batch = (pushed ++ rest)%list /\
    (found = false -> rest = []) /\
    (found = true -> exists m rest', rest = m :: rest' /\ ~ in_range Date_new d m).
Proof.
  revert pushed found. induction batch as [|m batch IH]; cbn; intros pushed found H.
  - injection H as <- <-. split; [constructor|]. exists []. repeat split; trivial. discriminate.
  - destruct (date_ge (Date_new (prop "created" m)) d) eqn:Hm.
    + destruct (scan_batch Date_new d batch) as [p f].
      injection H as <- <-.
      destruct (IH _ _ eq_refl) as (Hall & rest & -> & Hf & Ht).
      split; [constructor; assumption|]. exists rest. repeat split; trivial.
    + injection H as <- <-. split; [constructor|].
      exists (m :: batch). repeat split; [discriminate|].
      intros _. exists m, batch. split; trivial.
      unfold in_range. rewrite Hm. discriminate.
Qed.

Lemma fetchMessageBatch_exec w p st n :
  exec w (fetchMessageBatch p) st n =
  (tick (elapsed w n) st,
   answer w n (HttpGet (messages_url st) (batch_query p) (bp_headers p)),
   [HttpGet (messages_url st) (batch_query p) (bp_headers p)]).
Proof.
  unfold fetchMessageBatch, getWebexUrl, getWebexBaseUrl, messages_url. cbn.
  destruct (answer w n _); reflexivity.
Qed.

#[local] Opaque fetchMessageBatch.

Ltac finish_single :=
  split; [first [left; rewrite ?app_nil_r; reflexivity | right; reflexivity]|];
  split; [first [apply Forall_nil | assumption]|];
  split; [rewrite received_one; rewrite ?app_nil_r; first [assumption | congruence]
         | exact I].

(** The pagination loop: what it fetched and what it collected. *)
Lemma paginate_exec w a max headers d :
  forall remaining collected cursor st n st' r tr,
    exec w (paginate Date_new a max headers d remaining collected cursor) st n
    = (st', r, tr) ->
    Forall (fun io => is_http io = true) tr /\
    (List.length tr <= remaining)%nat /\
    ((0 < remaining)%nat -> (0 < List.length tr)%nat) /\
    (forall e, r = Err e -> request_failed w n tr e) /\
    forall out, r = Ok out ->
      exists pushed rest,
        (out = (collected ++ pushed)%list \/
         out = keep_before max (collected ++ pushed)%list) /\
        Forall (in_range Date_new d) pushed /\
        received w n tr = (pushed ++ rest)%list /\
        only_last_may_cross Date_new d (batches w n tr).
Proof.
  induction remaining as [|remaining IH]; intros collected cursor st n st' r tr; cbn.
  - intros H; inv_exec H. split; [constructor|]. cbn. split; [lia|]. split; [lia|].
    split; [intros e [=]|].
    intros out [= <-]. exists [], []. rewrite app_nil_r. repeat split; auto.
  - rewrite exec_bind, fetchMessageBatch_exec.
    set (io := HttpGet _ _ _).
    assert (Hio : is_http io = true) by reflexivity.
    assert (Hb : forall b, answer w n io = Ok b ->
                 batch_of w n io = match items b with Some xs => xs | None => [] end)
      by (apply batch_of_http).
    assert (Hone : Forall (fun io => is_http io = true) [io] /\
                   (List.length [io] <= S remaining)%nat /\
                   ((0 < S remaining)%nat -> (0 < List.length [io])%nat)).
    { split; [repeat constructor; exact Hio|]. cbn [List.length]. lia. }
    destruct Hone as (H1 & H2 & H3).
    destruct (answer w n io) as [data|e] eqn:Hans.
    2:{ intros H; inv_exec H. repeat (split; [assumption|]).
        split; [|intros out [=]].
        intros e' [= <-]. unfold io in Hans.
        eexists 0%nat, _, _, _. split; [reflexivity|]. rewrite Nat.add_0_r. exact Hans. }
    specialize (Hb _ eq_refl).
    cbn -[scan_batch].
    destruct (items data) as [[|m batch]|] eqn:Hitems.
    3:{ intros H; inv_exec H. repeat (split; [assumption|]). split; [intros e [=]|].
        intros out [= <-]. exists [], []. finish_single. }
    1:{ intros H; inv_exec H. repeat (split; [assumption|]). split; [intros e [=]|].
        intros out [= <-]. exists [], []. finish_single. }
    destruct (scan_batch Date_new d (m :: batch)) as [pushed found] eqn:Hscan.
    destruct (scan_batch_spec _ _ _ _ Hscan) as (Hall & rest & Hsplit & Hf & Ht).
    destruct found.
    { cbn. intros H; inv_exec H. repeat (split; [assumption|]). split; [intros e [=]|].
      intros out [= <-]. exists pushed, rest. finish_single. }
    rewrite (Hf eq_refl), app_nil_r in Hsplit. subst pushed.
    pose proof Hall as HallB. rewrite <- Hb in HallB.
    destruct (negb (max =? 0) && (max <=? Z.of_nat (List.length (collected ++ m :: batch))))
      eqn:Hmax.
    { cbn. intros H; inv_exec H. repeat (split; [assumption|]). split; [intros e [=]|].
      intros out [= <-]. exists (m :: batch), []. finish_single. }
    destruct (Z.of_nat (List.length (m :: batch)) <? batchSize) eqn:Hshort.
    { cbn. intros H; inv_exec H. repeat (split; [assumption|]). split; [intros e [=]|].
      intros out [= <-]. exists (m :: batch), []. finish_single. }
    cbn -[paginate].
    match goal with |- context [exec w (paginate ?a1 ?a2 ?a3 ?a4 ?a5 ?a6 ?a7 ?a8) ?s ?k] =>
      destruct (exec w (paginate a1 a2 a3 a4 a5 a6 a7 a8) s k) as [[st2 r2] tr2] eqn:Hrec end.
    apply IH in Hrec. destruct Hrec as (Hhttp & Hlen & _ & Herr & Hout).
    rewrite Nat.add_1_r in Herr, Hout.
    intros H; inv_exec H.
    split; [constructor; assumption|]. cbn [List.length]. split; [lia|]. split; [lia|].
    split; [intros e ->; apply request_failed_later; apply Herr; reflexivity|].
    intros out ->. destruct (Hout _ eq_refl) as (pushed' & rest' & Hor & Hall' & Hrecv & Hcross).
    exists ((m :: batch) ++ pushed')%list, rest'.
    split; [rewrite app_assoc; exact Hor|].
    split; [apply Forall_app; split; assumption|].
    split.
    + rewrite received_cons, Hb, Hrecv, <- app_assoc. reflexivity.
    + cbn [batches only_last_may_cross].
      destruct (batches w (S n) tr2) eqn:Hbs; [trivial|].
      split; [exact HallB | exact Hcross].
Qed.

Lemma getWebexHeaders_exec w st n :
  exists st0 r0,
    exec w (getWebexHeaders []) st n = (st0, r0, []) /\
    process st0 = process st /\ clock st0 = clock st.
Proof.
  unfold getWebexHeaders, getWebexToken, getCachedToken, when. cbn.
  repeat case_exec; eauto.
Qed.

#[local] Opaque getWebexHeaders paginate.

(** The tool, case by case.  It never throws. *)
Lemma executeFunction_exec w a st n st' r tr :
  exec w (executeFunction Date_new a) st n = (st', r, tr) ->
  exists st0 r0,
    exec w (getWebexHeaders []) st n = (st0, r0, []) /\
    match r0 with
    | Err e => r = Ok (error_result e) /\ tr = []
    | Ok headers =>
        if negb (truthy_str (after a)) then
          exists url query, tr = [HttpGet url query headers] /\
            ((exists e, r = Ok (error_result e) /\ request_failed w n tr e) \/
             exists data,
               answer w n (HttpGet url query headers) = Ok data /\
               r = Ok (body_to_js
                         (if default_summarize a
                          then mkBody (option_map (map summarizeMessage) (items data))
                                      (other_fields data)
                          else data)))
        else
          match Date_new (JStr (after_or_empty a)) with
          | InvalidDate =>
              r = Ok (error_result (new_Error (INVALID_AFTER (after_or_empty a)))) /\
              tr = []
          | DateAt t =>
              Forall (fun io => is_http io = true) tr /\
              (1 <= List.length tr <= 20)%nat /\
              ((exists e, r = Ok (error_result e) /\ request_failed w n tr e) \/
               exists msgs rest,
                 r = Ok (listing_result (default_summarize a) (after_or_empty a) msgs) /\
                 Forall (in_range Date_new (DateAt t)) msgs /\
                 received w n tr = (msgs ++ rest)%list /\
                 only_last_may_cross Date_new (DateAt t) (batches w n tr) /\
                 (0 < default_max a -> Z.of_nat (List.length msgs) <= default_max a))
          end
    end.
Proof.
  unfold executeFunction. fold (default_max a) (default_summarize a) (after_or_empty a).
  rewrite exec_tryCatch, exec_bind.
  destruct (getWebexHeaders_exec w st n) as (st0 & r0 & Hh & Hp & Hk).
  rewrite Hh. intros H0. exists st0, r0. split; [reflexivity|]. revert H0.
  destruct r0 as [headers|e]; cbn.
  2:{ intros H; inv_exec H. auto. }
  destruct (negb (truthy_str (after a))) eqn:Hafter; cbn.
  - rewrite exec_bind, fetchMessageBatch_exec. rewrite Nat.add_0_r.
    match goal with |- context [answer w n (HttpGet ?u ?q ?hd)] =>
      intros H0; exists u, q; revert H0; change hd with headers;
      set (io := HttpGet u q headers) end.
    destruct (answer w n io) as [data|e] eqn:Hans; cbn.
    + intros H; inv_exec H. split; [reflexivity|]. right. exists data. split; [reflexivity|].
      destruct (default_summarize a); reflexivity.
    + intros H; inv_exec H. split; [reflexivity|]. left. exists e. split; [reflexivity|].
      unfold io in Hans. eexists 0%nat, _, _, _. split; [reflexivity|].
      rewrite Nat.add_0_r. exact Hans.
  - destruct (Date_new (JStr (after_or_empty a))) as [t|] eqn:Hdate; cbn.
    2:{ intros H; inv_exec H. auto. }
    rewrite exec_bind. rewrite Nat.add_0_r.
    match goal with |- context [exec w (paginate ?a1 ?a2 ?a3 ?a4 ?a5 ?a6 ?a7 ?a8) ?s ?k] =>
      destruct (exec w (paginate a1 a2 a3 a4 a5 a6 a7 a8) s k) as [[st2 r2] tr2] eqn:Hrec end.
    apply paginate_exec in Hrec. destruct Hrec as (Hhttp & Hlen & Hpos & Herr & Hout).
    unfold maxIterations in *.
    destruct r2 as [out|e]; cbn.
    2:{ intros H; inv_exec H. rewrite app_nil_r.
        split; [assumption|]. split; [lia|]. left. exists e. split; [reflexivity|].
        apply Herr. reflexivity. }
    intros H; inv_exec H. rewrite !app_nil_r.
    split; [assumption|]. split; [lia|]. right.
    destruct (Hout _ eq_refl) as (pushed & rest & Hor & Hall & Hrecv & Hcross).
    cbn [app] in Hor.
    set (limited := if negb (default_max a =? 0) then keep_before (default_max a) out else out).
    assert (Hpre : exists rest', pushed = (limited ++ rest')%list).
    { destruct (keep_before_prefix (default_max a) out) as [r1 Hr1].
      destruct (keep_before_prefix (default_max a) pushed) as [r2 Hr2].
      subst limited. destruct Hor as [-> | ->].
      - destruct (negb (default_max a =? 0)); [eauto | exists []; symmetry; apply app_nil_r].
      - destruct (negb (default_max a =? 0)).
        + destruct (keep_before_prefix (default_max a) (keep_before (default_max a) pushed))
            as [r3 Hr3].
          exists (r3 ++ r2)%list. rewrite app_assoc, <- Hr3. exact Hr2.
        + eauto. }
    destruct Hpre as [rest' Hpre].
    exists limited, (rest' ++ rest)%list.
    split; [reflexivity|].
    split; [eapply Forall_prefix; eassumption|].
    split; [rewrite Hrecv, Hpre, <- app_assoc; reflexivity|].
    split; [assumption|].
    intros HM. subst limited.
    destruct (default_max a =? 0) eqn:Hz; [apply Z.eqb_eq in Hz; lia|].
    cbn. apply keep_before_length. assumption.
Qed.

Lemma in_range_summarize d msg :
  in_range Date_new d msg -> in_range Date_new d (summarizeMessage msg).
Proof. unfold in_range. cbn. trivial. Qed.

Lemma filter_all_http tr :
  Forall (fun io => is_http io = true) tr -> filter is_http tr = tr.
Proof.
  induction 1 as [|io tr Hio _ IH]; cbn; [reflexivity|].
  rewrite Hio, IH. reflexivity.
Qed.


(** C4 (amended).  With the headers built, a call without a time bound
    awaits exactly one request, whatever [max] is and whatever the API
    returns.  A call with a time bound that parses awaits between 1 and 20
    requests; [max = 0] does not shorten it. *)
Theorem requests_per_call w a st n st' r tr st0 headers :
  exec w (getWebexHeaders []) st n = (st0, Ok headers, []) ->
  exec w (executeFunction Date_new a) st n = (st', r, tr) ->
  (truthy_str (after a) = false ->
   List.length (filter is_http tr) = 1%nat /\ List.length tr = 1%nat) /\
  (forall T t, after a = Some T -> T <> "" -> Date_new (JStr T) = DateAt t ->
     (1 <= List.length (filter is_http tr) <= 20)%nat /\ filter is_http tr = tr).
Proof.
  intros Hh H.
  destruct (executeFunction_exec _ _ _ _ _ _ _ H) as (st0' & r0 & Hh' & Hcases).
  rewrite Hh in Hh'. injection Hh' as <- <-.
  split.
  - intros Hnone. rewrite Hnone in Hcases. cbn in Hcases.
    destruct Hcases as (url & q & -> & _). split; reflexivity.
  - intros T t Hafter Hne Hdate.
    assert (Htruthy : negb (truthy_str (after a)) = false).
    { rewrite Hafter. cbn. destruct (String.eqb_spec T ""); [contradiction|reflexivity]. }
    rewrite Htruthy in Hcases.
    unfold after_or_empty in Hcases. rewrite Hafter, Hdate in Hcases.
    destruct Hcases as (Hhttp & Hlen & _).
    rewrite (filter_all_http _ Hhttp). split; [exact Hlen | reflexivity].
Qed.

(** C8 (amended).  Called with a time bound that does not parse.  When
    the bound is not the empty string, the tool awaits nothing at all and
    returns an object with the two properties [error] and [details]; it
    does not throw.  With the headers built, the error is the one that
    names the offending bound; otherwise it is the error of the headers.
    When the bound is the empty string it is read as no bound: with the
    headers built, one request is sent, and the body that answers it is
    returned. *)
Theorem unparsable_after_fails_before_any_request w a st n st' r tr T :
  after a = Some T -> Date_new (JStr T) = InvalidDate ->
  exec w (executeFunction Date_new a) st n = (st', r, tr) ->
  (T <> "" ->
   tr = [] /\
   exists e,
     r = Ok (JObj [("error", JStr (if truthy (JStr (message e)) then message e
                                   else "An error occurred while listing messages."));
                   ("details", JStr (stack e))]) /\
     (forall st0 headers,
         exec w (getWebexHeaders []) st n = (st0, Ok headers, []) ->
         e = new_Error (INVALID_AFTER T) /\
         prop "error" [("error", JStr (message e)); ("details", JStr (stack e))]
         = JStr ("Invalid 'after' date format: " ++ T ++
                 ". Use ISO 8601 format (e.g., 2024-01-27T18:00:00Z).")) /\
     (forall st0 e0,
         exec w (getWebexHeaders []) st n = (st0, Err e0, []) -> e = e0)) /\
  (T = "" ->
   forall st0 headers,
     exec w (getWebexHeaders []) st n = (st0, Ok headers, []) ->
     exists url query,
       tr = [HttpGet url query headers] /\
       forall data,
         answer w n (HttpGet url query headers) = Ok data ->
         r = Ok (body_to_js
                   (if default_summarize a
                    then mkBody (option_map (map summarizeMessage) (items data))
                                (other_fields data)
                    else data))).
Proof.
  intros Hafter Hdate H.
  destruct (executeFunction_exec _ _ _ _ _ _ _ H) as (st0 & r0 & Hh & Hcases).
  split.
  - intros Hne.
    destruct r0 as [headers|e].
    2:{ destruct Hcases as (-> & ->). split; [reflexivity|]. exists e.
        split; [reflexivity|]. split.
        - intros st1 h Hh1. rewrite Hh in Hh1. discriminate.
        - intros st1 e0 Hh1. rewrite Hh in Hh1. injection Hh1 as _ <-. reflexivity. }
    assert (Htruthy : negb (truthy_str (after a)) = false).
    { rewrite Hafter. cbn. destruct (String.eqb_spec T ""); [contradiction|reflexivity]. }
    rewrite Htruthy in Hcases.
    unfold after_or_empty in Hcases. rewrite Hafter, Hdate in Hcases.
    destruct Hcases as (-> & ->). split; [reflexivity|].
    exists (new_Error (INVALID_AFTER T)). split; [reflexivity|]. split.
    + intros _ _ _. split; reflexivity.
    + intros st1 e0 Hh1. rewrite Hh in Hh1. discriminate.
  - intros -> st1 headers Hh1. rewrite Hh in Hh1. injection Hh1 as _ ->.
    rewrite Hafter in Hcases. cbn in Hcases.
    destruct Hcases as (url & q & -> & Hr). exists url, q. split; [reflexivity|].
    intros data Hdata.
    destruct Hr as [(e & _ & (i & url' & q' & h' & Hi & He))|(data' & Hans & ->)].
    + destruct i as [|i]; [|destruct i; discriminate].
      injection Hi as <- <- <-. rewrite Nat.add_0_r in He. congruence.
    + rewrite Hans in Hdata. injection Hdata as ->. reflexivity.
Qed.

Lemma summarizeMessage_drops k msg :
  ~ In k SUMMARY_FIELDS -> prop k (summarizeMessage msg) = JUndefined.
Proof.
  intros Hk. cbn.
  repeat match goal with
  | |- context [String.eqb k ?f] =>
      destruct (String.eqb_spec k f) as [->|_];
      [exfalso; apply Hk; cbn; tauto|]
  end.
  reflexivity.
Qed.

End Listing.

(** * The rest of the code *)

(** ** Keychain glue *)

Lemma waited_quiet w k : forall n st, quiet st (waited w n k st).
Proof.
  induction k as [|k IH]; intros n st; cbn.
  - quiet_now.
  - destruct (IH (S n) (tick (elapsed w n) st)) as (Hm & Hc & Ht & Hq & Hp & Hk).
    cbn in *. unfold quiet. rewrite Hm, Hc, Ht, Hq, Hp. repeat split; lia.
Qed.

Lemma logged_quiet l st st' : quiet st st' -> quiet st (logged l st').
Proof. unfold quiet. cbn. tauto. Qed.

Lemma is_darwin_same st st' : process st' = process st -> is_darwin st' = is_darwin st.
Proof. unfold is_darwin. intros ->. reflexivity. Qed.

Section Keychain.

Variable Date_new : JsVal -> JsDate.
Variable toISOString : Z -> string.

Lemma storeToken_unfold w tok ex st n :
  exec w (storeToken toISOString tok ex) st n =
  if is_darwin st then
    let deletes := [SecurityDelete KEYCHAIN_ACCOUNT; SecurityDelete KEYCHAIN_EXPIRY_ACCOUNT] in
    match answer w (S (S n)) (SecurityAdd KEYCHAIN_ACCOUNT tok) with
    | Err e =>
        (waited w n 3 st, Err (store_failed e),
         deletes ++ [SecurityAdd KEYCHAIN_ACCOUNT tok])%list
    | Ok _ =>
        match ex with
        | InvalidDate =>
            (waited w n 3 st, Err RANGE_ERROR,
             deletes ++ [SecurityAdd KEYCHAIN_ACCOUNT tok])%list
        | DateAt E =>
            let writes := [SecurityAdd KEYCHAIN_ACCOUNT tok;
                           SecurityAdd KEYCHAIN_EXPIRY_ACCOUNT (toISOString E)] in
            match answer w (S (S (S n)))
                         (SecurityAdd KEYCHAIN_EXPIRY_ACCOUNT (toISOString E)) with
            | Err e => (waited w n 4 st, Err (store_failed e), deletes ++ writes)%list
            | Ok _ => (logged LogKeychainStored (waited w n 4 st), Ok tt, deletes ++ writes)%list
            end
        end
    end
  else (st, Err KEYCHAIN_UNSUPPORTED, []).
Proof.
  unfold storeToken. cbn.
  destruct (is_darwin st); cbn; [|reflexivity].
  destruct (answer w (S (S n)) (SecurityAdd KEYCHAIN_ACCOUNT tok)) as [u|e]; cbn; [|reflexivity].
  destruct ex as [E|]; cbn; [|reflexivity].
  destruct (answer w (S (S (S n))) (SecurityAdd KEYCHAIN_EXPIRY_ACCOUNT (toISOString E)));
    reflexivity.
Qed.

Lemma loadToken_unfold w st n :
  exec w (loadToken Date_new) st n =
  if is_darwin st then
    match answer w n (SecurityFind KEYCHAIN_ACCOUNT) with
    | Err _ =>
        (logged LogKeychainNone (waited w n 1 st), Ok None,
         [SecurityFind KEYCHAIN_ACCOUNT])
    | Ok _ =>
        (match answer w (S n) (SecurityFind KEYCHAIN_EXPIRY_ACCOUNT) with
         | Err _ => logged LogKeychainNone (waited w n 2 st)
         | Ok _ => waited w n 2 st
         end,
         Ok (stored_record Date_new w n),
         [SecurityFind KEYCHAIN_ACCOUNT; SecurityFind KEYCHAIN_EXPIRY_ACCOUNT])
    end
  else (st, Ok None, []).
Proof.
  unfold loadToken, stored_record. cbn.
  destruct (is_darwin st); cbn; [|reflexivity].
  destruct (answer w n (SecurityFind KEYCHAIN_ACCOUNT)) as [t|e]; cbn; [|reflexivity].
  destruct (answer w (S n) (SecurityFind KEYCHAIN_EXPIRY_ACCOUNT)) as [x|e]; cbn; [|reflexivity].
  rewrite !negb_involutive.
  destruct ((t =? "")%string || (x =? "")%string); reflexivity.
Qed.

Lemma clearToken_unfold w st n :
  exec w clearToken st n =
  if is_darwin st then
    (logged LogKeychainCleared (waited w n 2 st), Ok tt,
     [SecurityDelete KEYCHAIN_ACCOUNT; SecurityDelete KEYCHAIN_EXPIRY_ACCOUNT])
  else (st, Ok tt, []).
Proof.
  unfold clearToken. cbn. destruct (is_darwin st); reflexivity.
Qed.

Lemma loadToken_reads w st n :
  exists st1 tr1,
    exec w (loadToken Date_new) st n
    = (st1, Ok (if is_darwin st then stored_record Date_new w n else None), tr1) /\
    quiet st st1 /\ no_network tr1.
Proof.
  destruct (exec w (loadToken Date_new) st n) as [[st1 r1] tr1] eqn:HL.
  pose proof HL as HL'. apply loadToken_exec in HL'. destruct HL' as (Hq & Hn & _).
  exists st1, tr1. split; [|auto].
  rewrite loadToken_unfold in HL. unfold stored_record in *.
  destruct (is_darwin st); [|congruence].
  destruct (answer w n (SecurityFind KEYCHAIN_ACCOUNT)); injection HL as <- <- <-; reflexivity.
Qed.

(** X2.  [loadToken] never rejects.  Off macOS it answers [null] without
    a command.  On macOS it reads the token entry and, only if that
    succeeded, the expiry entry; a failing read or an empty entry gives
    [null]; otherwise the record holds the token as read and [new Date] of
    the expiry text, which may be an invalid date. *)
Theorem loadToken_result w st n st' r tr :
  exec w (loadToken Date_new) st n = (st', r, tr) ->
  quiet st st' /\
  if is_darwin st then
    match answer w n (SecurityFind KEYCHAIN_ACCOUNT) with
    | Err _ => tr = [SecurityFind KEYCHAIN_ACCOUNT] /\ r = Ok None
    | Ok token =>
        tr = [SecurityFind KEYCHAIN_ACCOUNT; SecurityFind KEYCHAIN_EXPIRY_ACCOUNT] /\
        match answer w (S n) (SecurityFind KEYCHAIN_EXPIRY_ACCOUNT) with
        | Err _ => r = Ok None
        | Ok expiryStr =>
            r = Ok (if (token =? "")%string || (expiryStr =? "")%string then None
                    else Some (mkTokenRecord token (Date_new (JStr expiryStr))))
        end
    end
  else tr = [] /\ r = Ok None /\ st' = st.
Proof.
  rewrite loadToken_unfold. unfold stored_record.
  destruct (is_darwin st).
  2:{ intros H; inv_exec H. split; [quiet_now|auto]. }
  destruct (answer w n (SecurityFind KEYCHAIN_ACCOUNT)) as [token|e].
  2:{ intros H; inv_exec H.
      split; [exact (logged_quiet _ _ _ (waited_quiet w 1 n st))|auto]. }
  destruct (answer w (S n) (SecurityFind KEYCHAIN_EXPIRY_ACCOUNT)) as [expiryStr|e];
    intros H; inv_exec H.
  - split; [exact (waited_quiet w 2 n st)|auto].
  - split; [exact (logged_quiet _ _ _ (waited_quiet w 2 n st))|auto].
Qed.

(** X1.  [storeToken] talks to the Keychain in a fixed order and stops at
    the first failure.  Off macOS it throws before any command.  On macOS
    it deletes both entries, then writes the token, then the expiry as ISO
    text: a failing write of the token, or an expiry that is an invalid
    date, ends the call with the old entries gone and no expiry written;
    the call resolves only when both writes succeeded.  Only the clock and
    the console move. *)
Theorem storeToken_commands w tok ex st n st' r tr :
  exec w (storeToken toISOString tok ex) st n = (st', r, tr) ->
  quiet st st' /\
  if is_darwin st then
    exists rest,
      tr = ([SecurityDelete KEYCHAIN_ACCOUNT; SecurityDelete KEYCHAIN_EXPIRY_ACCOUNT;
             SecurityAdd KEYCHAIN_ACCOUNT tok] ++ rest)%list /\
      match answer w (S (S n)) (SecurityAdd KEYCHAIN_ACCOUNT tok) with
      | Err e => rest = [] /\ r = Err (store_failed e)
      | Ok _ =>
          match ex with
          | InvalidDate => rest = [] /\ r = Err RANGE_ERROR
          | DateAt E =>
              rest = [SecurityAdd KEYCHAIN_EXPIRY_ACCOUNT (toISOString E)] /\
              match answer w (S (S (S n)))
                           (SecurityAdd KEYCHAIN_EXPIRY_ACCOUNT (toISOString E)) with
              | Ok _ => r = Ok tt
              | Err e => r = Err (store_failed e)
              end
          end
      end
  else tr = [] /\ r = Err KEYCHAIN_UNSUPPORTED.
Proof.
  rewrite storeToken_unfold. cbn zeta.
  destruct (is_darwin st).
  2:{ intros H; inv_exec H. split; [quiet_now|auto]. }
  destruct (answer w (S (S n)) (SecurityAdd KEYCHAIN_ACCOUNT tok)) as [u|e].
  2:{ intros H; inv_exec H. split; [exact (waited_quiet w 3 n st)|]. exists []. auto. }
  destruct ex as [E|].
  2:{ intros H; inv_exec H. split; [exact (waited_quiet w 3 n st)|]. exists []. auto. }
  destruct (answer w (S (S (S n))) (SecurityAdd KEYCHAIN_EXPIRY_ACCOUNT (toISOString E)))
    as [u'|e]; intros H; inv_exec H.
  - split; [exact (logged_quiet _ _ _ (waited_quiet w 4 n st))|].
    eexists. split; [reflexivity|]. auto.
  - split; [exact (waited_quiet w 4 n st)|]. eexists. split; [reflexivity|]. auto.
Qed.

(** X3.  [isTokenValid] never rejects, opens no browser and sends no
    request.  It answers [true] exactly when, on macOS, both entries were
    read and are not empty and the expiry text parses to a time after the
    clock at the return. *)
Theorem isTokenValid_result w st n st' r tr :
  exec w (isTokenValid Date_new) st n = (st', r, tr) ->
  quiet st st' /\ no_network tr /\
  exists valid,
    r = Ok valid /\
    (valid = true <->
     is_darwin st = true /\
     exists tok expiryStr E,
       answer w n (SecurityFind KEYCHAIN_ACCOUNT) = Ok tok /\ tok <> "" /\
       answer w (S n) (SecurityFind KEYCHAIN_EXPIRY_ACCOUNT) = Ok expiryStr /\
       expiryStr <> "" /\
       Date_new (JStr expiryStr) = DateAt E /\ clock st' < E).
Proof.
  unfold isTokenValid. rewrite exec_bind.
  destruct (exec w (loadToken Date_new) st n) as [[st1 r1] tr1] eqn:HL.
  pose proof HL as HL'. apply loadToken_exec in HL'. destruct HL' as (Hq & Hn & _).
  rewrite loadToken_unfold in HL.
  destruct (is_darwin st).
  2:{ injection HL as <- <- <-. cbn. intros H; inv_exec H.
      split; [quiet_now|]. split; [quiet_now|]. exists false. split; [reflexivity|].
      split; [discriminate|]. intros [H _]. discriminate. }
  unfold stored_record in HL.
  destruct (answer w n (SecurityFind KEYCHAIN_ACCOUNT)) as [tok|e].
  2:{ injection HL as <- <- <-. cbn. intros H; inv_exec H.
      split; [exact Hq|]. split; [exact Hn|]. exists false. split; [reflexivity|].
      split; [discriminate|]. intros (_ & ? & ? & ? & H & _). discriminate. }
  destruct (answer w (S n) (SecurityFind KEYCHAIN_EXPIRY_ACCOUNT)) as [x|e].
  2:{ injection HL as <- <- <-. cbn. intros H; inv_exec H.
      split; [exact Hq|]. split; [exact Hn|]. exists false. split; [reflexivity|].
      split; [discriminate|]. intros (_ & ? & ? & ? & _ & _ & H & _). discriminate. }
  injection HL as <- <- <-.
  destruct (String.eqb_spec tok "") as [->|Htok]; cbn [orb].
  { cbn. intros H; inv_exec H.
    split; [exact Hq|]. split; [exact Hn|]. exists false. split; [reflexivity|].
    split; [discriminate|]. intros (_ & ? & ? & ? & [= <-] & Hne & _). contradiction. }
  destruct (String.eqb_spec x "") as [->|Hx].
  { cbn. intros H; inv_exec H.
    split; [exact Hq|]. split; [exact Hn|]. exists false. split; [reflexivity|].
    split; [discriminate|]. intros (_ & ? & ? & ? & _ & _ & [= <-] & Hne & _). contradiction. }
  cbn. intros H; inv_exec H. rewrite ?app_nil_r.
  split; [exact Hq|]. split; [exact Hn|]. eexists. split; [reflexivity|].
  cbn [expiresAt]. split.
  - intros Hgt. apply date_gt_true in Hgt. destruct Hgt as (E & HE & Hlt).
    split; [reflexivity|]. exists tok, x, E. repeat split; assumption.
  - intros (_ & tok' & x' & E & [= <-] & _ & [= <-] & _ & -> & Hlt). cbn in *. apply Z.ltb_lt. lia.
Qed.

End Keychain.

(** ** Token manager *)

Section Manager.

Variable Date_new : JsVal -> JsDate.
Variable toISOString : Z -> string.

#[local] Opaque storeToken scheduleRefresh.

Lemma forceRefresh_login_failed w st n e :
  answer w n FetchTokenFromBrowser = Err e ->
  exec w (forceRefresh toISOString) st n =
  (tick (elapsed w n) (logged LogStartingExtraction st), Err e, [FetchTokenFromBrowser]).
Proof.
  intros H. unfold forceRefresh, fetchTokenFromBrowser. cbn. rewrite H. reflexivity.
Qed.

Lemma forceRefresh_store_failed w st n tok ex st1 e tr1 :
  answer w n FetchTokenFromBrowser = Ok (mkTokenRecord tok ex) ->
  exec w (storeToken toISOString tok ex)
       (tick (elapsed w n) (logged LogStartingExtraction st)) (S n) = (st1, Err e, tr1) ->
  exec w (forceRefresh toISOString) st n = (st1, Err e, FetchTokenFromBrowser :: tr1).
Proof.
  intros H HS. unfold forceRefresh, fetchTokenFromBrowser, logged in *. cbn. rewrite H. cbn.
  rewrite exec_bind, HS. reflexivity.
Qed.

Lemma forceRefresh_stored w st n tok E st1 tr1 :
  answer w n FetchTokenFromBrowser = Ok (mkTokenRecord tok (DateAt E)) ->
  exec w (storeToken toISOString tok (DateAt E))
       (tick (elapsed w n) (logged LogStartingExtraction st)) (S n) = (st1, Ok tt, tr1) ->
  exec w (forceRefresh toISOString) st n =
  (refreshed toISOString tok E st1, Ok tok, FetchTokenFromBrowser :: tr1).
Proof.
  intros H HS. unfold forceRefresh, fetchTokenFromBrowser, logged in *. cbn. rewrite H. cbn.
  rewrite exec_bind, HS. cbn.
  rewrite exec_bind, scheduleRefresh_exec. cbn.
  unfold refreshed, notified, logged, scheduled. cbn.
  destruct (TM._onTokenRefreshed (manager st1)) as [[]|]; cbn; rewrite ?app_nil_r; reflexivity.
Qed.

(** X5.  A [forceRefresh] that resolves ran on macOS, made one browser
    login and then, in this order, deleted both Keychain entries and wrote
    the token and the ISO text of its expiry.  The manager caches the token
    and the expiry, and the registered callback has received the token:
    with the facade's callback registered the facade holds the same token
    as the manager; with none registered the facade is untouched. *)
Theorem forceRefresh_success_is_published w st n st' tok tr :
  exec w (forceRefresh toISOString) st n = (st', Ok tok, tr) ->
  is_darwin st = true /\
  exists E,
    answer w n FetchTokenFromBrowser = Ok (mkTokenRecord tok (DateAt E)) /\
    tr = refresh_commands tok (toISOString E) /\
    TM._cachedToken (manager st') = Some tok /\
    TM._tokenExpiresAt (manager st') = Some (DateAt E) /\
    match TM._onTokenRefreshed (manager st) with
    | Some FacadeAdoptsToken => Cfg._cachedToken (config st') = Some tok
    | None => config st' = config st
    end.
Proof.
  intros H.
  destruct (answer w n FetchTokenFromBrowser) as [[tok0 ex]|e0] eqn:HF.
  2:{ rewrite (forceRefresh_login_failed _ _ _ _ HF) in H. discriminate. }
  destruct (exec w (storeToken toISOString tok0 ex)
                 (tick (elapsed w n) (logged LogStartingExtraction st)) (S n))
    as [[st1 r1] tr1] eqn:HS.
  destruct r1 as [[]|e].
  2:{ rewrite (forceRefresh_store_failed _ _ _ _ _ _ _ _ HF HS) in H. discriminate. }
  pose proof HS as HS'. apply storeToken_exec in HS'.
  destruct HS' as ((Hm & Hc & _) & _ & Hok). destruct (Hok tt eq_refl) as [E ->].
  rewrite (forceRefresh_stored _ _ _ _ _ _ _ HF HS) in H. injection H as <- <- <-.
  rewrite storeToken_unfold in HS. cbn in Hm, Hc.
  rewrite (is_darwin_same st) in HS by reflexivity.
  destruct (is_darwin st); [|discriminate]. split; [reflexivity|].
  exists E. split; [reflexivity|].
  destruct (answer w (S (S (S n))) (SecurityAdd KEYCHAIN_ACCOUNT tok0)); [|discriminate].
  destruct (answer w (S (S (S (S n)))) (SecurityAdd KEYCHAIN_EXPIRY_ACCOUNT (toISOString E)));
    [|discriminate].
  injection HS as <- <-.
  split; [reflexivity|].
  unfold refreshed, notified. cbn.
  destruct (TM._onTokenRefreshed (manager st)) as [[]|]; cbn; auto.
Qed.

(** X6.  A [forceRefresh] that rejects leaves the manager's variables, the
    facade and the armed timers as they were.  It rejects with the error of
    the browser login or, after a login that succeeded, because the token
    could not be stored: off macOS always, before any Keychain command; on
    macOS with the error of a failing write or the RangeError of an invalid
    expiry, the write of the token having been attempted by then. *)
Theorem forceRefresh_failure_changes_nothing w st n st' e tr :
  exec w (forceRefresh toISOString) st n = (st', Err e, tr) ->
  manager st' = manager st /\ config st' = config st /\ timers st' = timers st /\
  match answer w n FetchTokenFromBrowser with
  | Err e0 => e = e0 /\ tr = [FetchTokenFromBrowser]
  | Ok fetched =>
      if is_darwin st then
        In (SecurityAdd KEYCHAIN_ACCOUNT (token fetched)) tr /\
        (e = RANGE_ERROR \/ exists e0, e = store_failed e0)
      else e = KEYCHAIN_UNSUPPORTED /\ tr = [FetchTokenFromBrowser]
  end.
Proof.
  intros H.
  destruct (answer w n FetchTokenFromBrowser) as [[tok0 ex]|e0] eqn:HF.
  2:{ rewrite (forceRefresh_login_failed _ _ _ _ HF) in H. injection H as <- <- <-. auto. }
  destruct (exec w (storeToken toISOString tok0 ex)
                 (tick (elapsed w n) (logged LogStartingExtraction st)) (S n))
    as [[st1 r1] tr1] eqn:HS.
  pose proof HS as HS'. apply storeToken_exec in HS'.
  destruct HS' as ((Hm & Hc & Ht & _) & _ & Hok). cbn in Hm, Hc, Ht.
  destruct r1 as [[]|e1].
  { destruct (Hok tt eq_refl) as [E ->].
    rewrite (forceRefresh_stored _ _ _ _ _ _ _ HF HS) in H. discriminate. }
  rewrite (forceRefresh_store_failed _ _ _ _ _ _ _ _ HF HS) in H. injection H as <- <- <-.
  split; [exact Hm|]. split; [exact Hc|]. split; [exact Ht|].
  rewrite storeToken_unfold in HS.
  rewrite (is_darwin_same st) in HS by reflexivity.
  destruct (is_darwin st).
  2:{ injection HS as _ <- <-. auto. }
  cbn [token].
  destruct (answer w (S (S (S n))) (SecurityAdd KEYCHAIN_ACCOUNT tok0)).
  2:{ injection HS as _ <- <-. split; [cbn; tauto|]. right. eauto. }
  destruct ex as [E|].
  2:{ injection HS as _ <- <-. split; [cbn; tauto|]. left. reflexivity. }
  destruct (answer w (S (S (S (S n)))) (SecurityAdd KEYCHAIN_EXPIRY_ACCOUNT (toISOString E)));
    [discriminate|].
  injection HS as _ <- <-. split; [cbn; tauto|]. right. eauto.
Qed.


(** X7.  Off macOS, with nothing cached, [getValidToken] never resolves:
    it skips the Keychain, makes the browser login, and rejects, with the
    login's error or, when the login succeeded, because the token cannot be
    stored.  The manager and the timers are left as they were, so the
    next call does the same. *)
Theorem getValidToken_needs_macOS w st n st' r tr :
  is_darwin st = false ->
  TM._cachedToken (manager st) = None ->
  exec w (getValidToken Date_new toISOString) st n = (st', r, tr) ->
  tr = [FetchTokenFromBrowser] /\
  manager st' = manager st /\ timers st' = timers st /\
  match answer w n FetchTokenFromBrowser with
  | Ok _ => r = Err KEYCHAIN_UNSUPPORTED
  | Err e => r = Err e
  end.
Proof.
  intros HD Hnone. rewrite getValidToken_unfold.
  assert (Hstale : cache_is_fresh st = false) by (unfold cache_is_fresh; rewrite Hnone; reflexivity).
  rewrite Hstale, loadToken_unfold, HD. cbn [usable List.length app].
  rewrite Nat.add_0_r.
  destruct (answer w n FetchTokenFromBrowser) as [[tok ex]|e] eqn:HF.
  - erewrite forceRefresh_store_failed; [| exact HF |].
    2:{ rewrite storeToken_unfold.
        rewrite (is_darwin_same st) by reflexivity.
        rewrite HD. reflexivity. }
    intros H; inv_exec H. auto.
  - rewrite (forceRefresh_login_failed _ _ _ _ HF).
    intros H; inv_exec H. auto.
Qed.

Lemma clearCachedToken_unfold w st n :
  exec w clearCachedToken st n =
  if is_darwin st then
    (logged LogCacheCleared (logged LogKeychainCleared (waited w n 2 (forgotten st))), Ok tt,
     [SecurityDelete KEYCHAIN_ACCOUNT; SecurityDelete KEYCHAIN_EXPIRY_ACCOUNT])
  else (logged LogCacheCleared (forgotten st), Ok tt, []).
Proof.
  unfold clearCachedToken, clearToken, forgotten. cbn.
  destruct st as [[h c e cb] cfg ts sq now con pr]. cbn.
  destruct h as [id|]; cbn; destruct (is_darwin _); reflexivity.
Qed.

Lemma getCachedToken_unfold w st n :
  exec w getCachedToken st n =
  (st, Ok (if cache_is_fresh st then TM._cachedToken (manager st) else None), []).
Proof. unfold getCachedToken. cbn. destruct (cache_is_fresh st); reflexivity. Qed.

(** X8.  [clearCachedToken] never rejects.  It drops the cached token and
    its expiry, disarms the timer its handle names and forgets the handle,
    keeps the registered callback, and on macOS deletes both Keychain
    entries.  Afterwards [getCachedToken] answers [null], and on macOS the
    next [getValidToken] starts by reading the Keychain. *)
Theorem clearCachedToken_forgets w st n st' r tr :
  exec w clearCachedToken st n = (st', r, tr) ->
  r = Ok tt /\
  tr = (if is_darwin st
        then [SecurityDelete KEYCHAIN_ACCOUNT; SecurityDelete KEYCHAIN_EXPIRY_ACCOUNT]
        else []) /\
  manager st' = TM.mk None None None (TM._onTokenRefreshed (manager st)) /\
  timers st' = disarm (TM._refreshTimeout (manager st)) (timers st) /\
  config st' = config st /\
  (forall m, exec w getCachedToken st' m = (st', Ok None, [])) /\
  (is_darwin st = true ->
   forall w' m st2 r2 tr2,
     exec w' (getValidToken Date_new toISOString) st' m = (st2, r2, tr2) ->
     exists tr3, tr2 = SecurityFind KEYCHAIN_ACCOUNT :: tr3).
Proof.
  rewrite clearCachedToken_unfold.
  assert (Hfresh : forall s, manager s = TM.mk None None None (TM._onTokenRefreshed (manager st)) ->
                             cache_is_fresh s = false).
  { intros s Hs. unfold cache_is_fresh. rewrite Hs. reflexivity. }
  destruct (is_darwin st) eqn:HD; intros H; inv_exec H.
  - pose proof (waited_quiet w 2 n (forgotten st)) as (Hm & Hc & Ht & _ & Hp & _).
    set (s' := logged LogCacheCleared (logged LogKeychainCleared (waited w n 2 (forgotten st)))).
    assert (Hm' : manager s' = TM.mk None None None (TM._onTokenRefreshed (manager st)))
      by exact Hm.
    split; [reflexivity|]. split; [reflexivity|]. split; [exact Hm'|].
    split; [exact Ht|]. split; [exact Hc|]. split.
    + intros m. rewrite getCachedToken_unfold, Hfresh; [reflexivity|exact Hm'].
    + intros _ w' m st2 r2 tr2. rewrite getValidToken_unfold, Hfresh by exact Hm'.
      rewrite loadToken_unfold.
      rewrite (is_darwin_same st) by exact Hp. rewrite HD.
      destruct (answer w' m (SecurityFind KEYCHAIN_ACCOUNT)).
      * match goal with |- context [usable ?s ?c] => destruct (usable s c) as [[tok E]|] end.
        -- intros H; inv_exec H. eauto.
        -- match goal with |- context [exec w' (forceRefresh ?a) ?s ?k] =>
             destruct (exec w' (forceRefresh a) s k) as [[st3 r3] tr3] end.
           intros H; inv_exec H. eauto.
      * cbn [usable].
        match goal with |- context [exec w' (forceRefresh ?a) ?s ?k] =>
          destruct (exec w' (forceRefresh a) s k) as [[st3 r3] tr3] end.
        intros H; inv_exec H. eauto.
  - do 5 (split; [reflexivity|]). split.
    + intros m. rewrite getCachedToken_unfold, Hfresh; reflexivity.
    + discriminate.
Qed.

(** X9.  [getCachedToken] changes nothing and awaits nothing.  When it
    answers a token, the token is not empty, its expiry is ahead of the
    clock, and [getValidToken] called in the same state resolves with the
    same token, again without awaiting anything.  When it answers [null],
    the cache is empty or has expired. *)
Theorem getCachedToken_agrees_with_getValidToken w st n st' r tr :
  exec w getCachedToken st n = (st', r, tr) ->
  st' = st /\ tr = [] /\
  exists cached,
    r = Ok cached /\
    match cached with
    | Some tok =>
        tok <> "" /\
        (exists E, TM._tokenExpiresAt (manager st) = Some (DateAt E) /\ clock st < E) /\
        forall w' m, exec w' (getValidToken Date_new toISOString) st m = (st, Ok tok, [])
    | None => cache_is_fresh st = false
    end.
Proof.
  rewrite getCachedToken_unfold. intros H; inv_exec H.
  split; [reflexivity|]. split; [reflexivity|].
  eexists. split; [reflexivity|].
  destruct (cache_is_fresh st) eqn:Hfresh; [|reflexivity].
  pose proof Hfresh as Hf. apply cache_is_fresh_true in Hf.
  destruct Hf as (tok & E & Htok & Hne & HE & Hlt). rewrite Htok.
  split; [exact Hne|]. split; [eauto|].
  intros w' m. rewrite getValidToken_unfold, Hfresh.
  unfold cached_or_empty. rewrite Htok. reflexivity.
Qed.

End Manager.

Section Status.

Variable Date_new : JsVal -> JsDate.
Variable toISOString : Z -> string.
Variable minutes_text : Z -> string.

(** X4.  [getTokenStatus] reports on the Keychain, whatever the manager
    has cached.  With no record it answers [hasToken: false]; with a record
    whose expiry parses, [isValid] says whether the expiry is ahead of the
    clock, [expiresAt] is its ISO text and [expiresIn] is the rounded
    number of minutes, or ['expired']; with a record whose expiry text does
    not parse it rejects with the RangeError of [toISOString]. *)
Theorem getTokenStatus_result w st n st' r tr :
  exec w (getTokenStatus Date_new toISOString minutes_text) st n = (st', r, tr) ->
  quiet st st' /\ no_network tr /\
  match (if is_darwin st then stored_record Date_new w n else None) with
  | None => r = Ok (mkTokenStatus false false None None)
  | Some stored =>
      match expiresAt stored with
      | InvalidDate => r = Err RANGE_ERROR
      | DateAt E =>
          r = Ok (mkTokenStatus true (clock st' <? E) (Some (toISOString E))
                    (Some (if clock st' <? E
                           then minutes_text (E - clock st') ++ " minutes"
                           else "expired")))
      end
  end.
Proof.
  unfold getTokenStatus. rewrite exec_bind.
  destruct (loadToken_reads Date_new w st n) as (st1 & tr1 & -> & Hq & Hn).
  destruct (if is_darwin st then stored_record Date_new w n else None) as [[tok ex]|]; cbn.
  2:{ intros H; inv_exec H. rewrite ?app_nil_r. auto. }
  destruct ex as [E|]; cbn; intros H; inv_exec H; rewrite ?app_nil_r; auto.
  destruct (clock st1 <? E); auto.
Qed.

End Status.

(** ** Auth facade *)

Lemma getWebexToken_unfold w st n :
  exec w getWebexToken st n = (caught_up st, facade_token (caught_up st), []).
Proof.
  unfold getWebexToken, getCachedToken, caught_up, facade_token, when. cbn.
  destruct (Cfg._authMethod (config st)) as [[| |]|]; cbn.
  - destruct (Cfg._authInitialized (config st)); cbn; [|reflexivity].
    destruct (Cfg._cachedToken (config st)) as [t|]; cbn; [|reflexivity].
    destruct (t =? "")%string; reflexivity.
  - destruct (Cfg._keychainTokenManager (config st)); cbn.
    + destruct (cache_is_fresh st) eqn:Hf; cbn.
      * apply cache_is_fresh_true in Hf. destruct Hf as (tok & E & Ht & Hne & _).
        rewrite Ht. cbn. rewrite (proj2 (String.eqb_neq tok "") Hne). cbn.
        destruct (Cfg._authInitialized (config st)); cbn; [|reflexivity].
        rewrite (proj2 (String.eqb_neq tok "") Hne). reflexivity.
      * destruct (Cfg._authInitialized (config st)); cbn; [|reflexivity].
        destruct (Cfg._cachedToken (config st)) as [t|]; cbn; [|reflexivity].
        destruct (t =? "")%string; reflexivity.
    + destruct (Cfg._authInitialized (config st)); cbn; [|reflexivity].
      destruct (Cfg._cachedToken (config st)) as [t|]; cbn; [|reflexivity].
      destruct (t =? "")%string; reflexivity.
  - destruct (truthy_str (oauth_getCachedToken (process st))) eqn:Ho; cbn.
    + destruct (Cfg._authInitialized (config st)); cbn; [|reflexivity].
      destruct (oauth_getCachedToken (process st)) as [t|]; cbn in *; [|discriminate].
      rewrite Ho. destruct (t =? "")%string; [discriminate|reflexivity].
    + destruct (Cfg._authInitialized (config st)); cbn; [|reflexivity].
      destruct (Cfg._cachedToken (config st)) as [t|]; cbn; [|reflexivity].
      destruct (t =? "")%string; reflexivity.
  - destruct (Cfg._authInitialized (config st)); cbn; [|reflexivity].
    destruct (Cfg._cachedToken (config st)) as [t|]; cbn; [|reflexivity].
    destruct (t =? "")%string; reflexivity.
Qed.

Lemma getWebexHeaders_unfold w extra st n :
  exec w (getWebexHeaders extra) st n =
  (caught_up st,
   match facade_token (caught_up st) with
   | Ok token => Ok (spread (default_headers token) extra)
   | Err e => Err e
   end, []).
Proof.
  unfold getWebexHeaders. rewrite exec_bind, getWebexToken_unfold.
  destruct (facade_token (caught_up st)); reflexivity.
Qed.

Lemma getWebexUrl_unfold w endpoint st n :
  exec w (getWebexUrl endpoint) st n =
  (st, Ok (base_url st ++ (if starts_with_slash endpoint then endpoint else "/" ++ endpoint)), []).
Proof. reflexivity. Qed.

Lemma caught_up_keeps st :
  manager (caught_up st) = manager st /\ timers (caught_up st) = timers st /\
  timer_seq (caught_up st) = timer_seq st /\ clock (caught_up st) = clock st /\
  console (caught_up st) = console st /\ process (caught_up st) = process st /\
  Cfg._authInitialized (config (caught_up st)) = Cfg._authInitialized (config st) /\
  Cfg._authMethod (config (caught_up st)) = Cfg._authMethod (config st) /\
  Cfg._keychainTokenManager (config (caught_up st)) = Cfg._keychainTokenManager (config st).
Proof.
  unfold caught_up.
  destruct (Cfg._authMethod (config st)) as [[| |]|] eqn:Hm; cbn; rewrite ?Hm; auto 10.
  - destruct (_ && _); cbn; rewrite ?Hm; auto 10.
  - destruct (truthy_str _); cbn; rewrite ?Hm; auto 10.
Qed.

Lemma prop_obj_set k k' v o :
  prop k (obj_set k' v o) = if (k =? k')%string then v else prop k o.
Proof.
  induction o as [|[k2 v2] o IH]; cbn.
  - destruct (k =? k')%string; reflexivity.
  - destruct (String.eqb_spec k' k2) as [->|Hne]; cbn.
    + destruct (k =? k2)%string; reflexivity.
    + rewrite IH. destruct (String.eqb_spec k k2) as [->|Hk].
      * destruct (String.eqb_spec k2 k') as [<-|_]; [contradiction|reflexivity].
      * reflexivity.
Qed.

Lemma prop_spread_other extra : forall o k,
  ~ In k (keys extra) -> prop k (spread o extra) = prop k o.
Proof.
  unfold spread. induction extra as [|[k' v] extra IH]; intros o k Hk; cbn; [reflexivity|].
  cbn in Hk. fold (spread (obj_set k' v o) extra). unfold spread. rewrite IH by tauto.
  rewrite prop_obj_set.
  destruct (String.eqb_spec k k') as [->|_]; [exfalso; tauto|reflexivity].
Qed.

Lemma prop_spread_given extra : forall o k v,
  NoDup (keys extra) -> In (k, v) extra -> prop k (spread o extra) = v.
Proof.
  unfold spread. induction extra as [|[k' v'] extra IH]; intros o k v Hnd Hin; cbn; [contradiction|].
  cbn in Hnd. inversion Hnd as [|? ? Hnotin Hnd']; subst.
  destruct Hin as [[= -> ->]|Hin].
  - pose proof (prop_spread_other extra (obj_set k v o) k Hnotin) as H. unfold spread in H.
    rewrite H, prop_obj_set, String.eqb_refl. reflexivity.
  - apply IH; assumption.
Qed.

Lemma In_keys_obj_set k k' v o :
  In k (keys (obj_set k' v o)) <-> k = k' \/ In k (keys o).
Proof.
  unfold keys. induction o as [|[k2 v2] o IH]; cbn.
  - intuition congruence.
  - destruct (String.eqb_spec k' k2) as [->|Hne]; cbn.
    + intuition congruence.
    + rewrite IH. intuition congruence.
Qed.

Lemma NoDup_keys_obj_set k v o : NoDup (keys o) -> NoDup (keys (obj_set k v o)).
Proof.
  induction o as [|[k2 v2] o IH]; cbn; intros Hnd.
  - constructor; [intros []|constructor].
  - inversion Hnd as [|? ? Hnotin Hnd']; subst.
    destruct (String.eqb_spec k k2) as [->|Hne]; cbn.
    + constructor; assumption.
    + constructor; [|apply IH; assumption].
      fold (keys (obj_set k v o)). rewrite In_keys_obj_set.
      intros [->|Hin]; [congruence|contradiction].
Qed.

Lemma In_keys_spread extra : forall o k,
  In k (keys (spread o extra)) <-> In k (keys o) \/ In k (keys extra).
Proof.
  unfold spread. induction extra as [|[k' v] extra IH]; intros o k; cbn.
  - tauto.
  - rewrite IH, In_keys_obj_set. intuition congruence.
Qed.

Lemma NoDup_keys_spread extra : forall o, NoDup (keys o) -> NoDup (keys (spread o extra)).
Proof.
  unfold spread. induction extra as [|[k' v] extra IH]; intros o Hnd; cbn; [exact Hnd|].
  apply IH, NoDup_keys_obj_set, Hnd.
Qed.

Lemma In_prop k o : In k (keys o) -> In (k, prop k o) o.
Proof.
  induction o as [|[k2 v2] o IH]; cbn; [tauto|].
  destruct (String.eqb_spec k k2) as [->|Hne]; [tauto|].
  intros [Heq|Hin]; [congruence|right; apply IH, Hin].
Qed.

(** X15.  While the facade is not initialized (before [initializeAuth]
    has succeeded, after a logout), [getWebexToken] throws that
    authentication is not initialized, whatever token is around; it awaits
    nothing and leaves the manager and the timers alone. *)
Theorem getWebexToken_requires_init w st n st' r tr :
  Cfg._authInitialized (config st) = false ->
  exec w getWebexToken st n = (st', r, tr) ->
  r = Err NOT_INITIALIZED /\ tr = [] /\
  manager st' = manager st /\ timers st' = timers st /\
  Cfg._authInitialized (config st') = false.
Proof.
  intros Hinit. rewrite getWebexToken_unfold. intros H; inv_exec H.
  destruct (caught_up_keeps st) as (Hm & Ht & _ & _ & _ & _ & Hi & _).
  unfold facade_token. rewrite Hi, Hinit. auto.
Qed.

(** X16.  In auto-refresh mode [getWebexToken] awaits nothing and never
    starts a refresh.  While the manager's cached token has not expired it
    answers that token and copies it into the facade; once it has expired
    the facade is left as it is and its last token is answered, expired or
    not. *)
Theorem getWebexToken_never_refreshes w st n st' r tr :
  Cfg._authMethod (config st) = Some AutoRefresh ->
  Cfg._authInitialized (config st) = true ->
  Cfg._keychainTokenManager (config st) = true ->
  exec w getWebexToken st n = (st', r, tr) ->
  tr = [] /\ manager st' = manager st /\ timers st' = timers st /\
  (forall tok E,
      TM._cachedToken (manager st) = Some tok -> tok <> "" ->
      TM._tokenExpiresAt (manager st) = Some (DateAt E) -> clock st < E ->
      r = Ok tok /\ Cfg._cachedToken (config st') = Some tok) /\
  (cache_is_fresh st = false ->
   st' = st /\
   forall t, Cfg._cachedToken (config st) = Some t -> t <> "" -> r = Ok t).
Proof.
  intros Hm Hi Hk. rewrite getWebexToken_unfold. intros H; inv_exec H.
  destruct (caught_up_keeps st) as (Hmg & Ht & _).
  split; [reflexivity|]. split; [exact Hmg|]. split; [exact Ht|].
  unfold caught_up, facade_token. rewrite Hm, Hk. cbn [andb]. split.
  - intros tok E Htok Hne HE Hlt.
    assert (Hf : cache_is_fresh st = true) by (apply cache_is_fresh_true; eauto 6).
    rewrite Hf. cbn. rewrite Hi, Htok. cbn.
    destruct (String.eqb_spec tok ""); [contradiction|auto].
  - intros Hf. rewrite Hf, Hi. split; [reflexivity|].
    intros t -> Hne. cbn. destruct (String.eqb_spec t ""); [contradiction|reflexivity].
Qed.

Section Facade.
Variable Date_new : JsVal -> JsDate.
Variable toISOString : Z -> string.

#[local] Opaque getValidToken forceRefresh.

(** X17.  In the headers [getWebexJsonHeaders] builds (through
    [getWebexHeaders]) from an object of additional headers, which has
    each name once, a header the caller passes wins over the default of
    the same name, [Authorization] included; every other name has its
    default: [Accept] and [Content-Type] are [application/json],
    [Authorization] is [Bearer] and the token [getWebexToken] answered, and
    no other header is set. *)
Theorem caller_headers_win w extra st n st' headers tr :
  NoDup (keys extra) ->
  exec w (getWebexJsonHeaders extra) st n = (st', Ok headers, tr) ->
  exists token,
    exec w getWebexToken st n = (st', Ok token, tr) /\
    (forall k v, In (k, v) extra -> prop k headers = v) /\
    (forall k, ~ In k (keys extra) ->
               prop k headers = prop k (default_headers token ++ [JSON_CONTENT_TYPE])%list).
Proof.
  intros Hnd. unfold getWebexJsonHeaders.
  assert (Hj : exists json, json = spread [JSON_CONTENT_TYPE] extra) by eauto.
  destruct Hj as [json Hj]. unfold JSON_CONTENT_TYPE in Hj. rewrite <- Hj.
  rewrite getWebexHeaders_unfold, getWebexToken_unfold.
  destruct (facade_token (caught_up st)) as [token|e]; [|discriminate].
  intros H. injection H as <- <- <-. exists token. split; [reflexivity|].
  fold JSON_CONTENT_TYPE in Hj.
  assert (Hjson : NoDup (keys json)).
  { rewrite Hj. apply NoDup_keys_spread. repeat constructor. intros []. }
  assert (Hin : forall k, In k (keys json) -> prop k (spread (default_headers token) json)
                                              = prop k json).
  { intros k Hk. apply prop_spread_given; [exact Hjson|]. apply In_prop, Hk. }
  split.
  - intros k v Hkv.
    assert (Hk : In k (keys json)).
    { rewrite Hj. apply In_keys_spread. right. apply (in_map fst) in Hkv. exact Hkv. }
    rewrite (Hin k Hk), Hj. apply prop_spread_given; assumption.
  - intros k Hk. destruct (String.eqb_spec k "Content-Type") as [->|Hct].
    + assert (Hk' : In "Content-Type" (keys json)).
      { rewrite Hj. apply In_keys_spread. left. cbn. tauto. }
      rewrite (Hin _ Hk'), Hj. rewrite prop_spread_other by exact Hk. reflexivity.
    + rewrite prop_spread_other.
      * cbn. destruct (k =? "Accept")%string; [reflexivity|].
        destruct (k =? "Authorization")%string; [reflexivity|].
        destruct (String.eqb_spec k "Content-Type"); [contradiction|reflexivity].
      * intros Hin'. rewrite Hj in Hin'. apply In_keys_spread in Hin'. cbn in Hin'.
        intuition congruence.
Qed.

(** X18.  [getWebexUrl] joins the base URL and the endpoint with a slash
    when the endpoint has none: an endpoint written without its leading
    slash gives the same URL as with it.  The base is
    [WEBEX_API_BASE_URL], or the public API when that is unset or empty. *)
Theorem getWebexUrl_adds_missing_slash w endpoint st n :
  starts_with_slash endpoint = false ->
  exec w (getWebexUrl endpoint) st n = (st, Ok (base_url st ++ "/" ++ endpoint), []) /\
  exec w (getWebexUrl ("/" ++ endpoint)) st n = exec w (getWebexUrl endpoint) st n.
Proof.
  intros H. rewrite !getWebexUrl_unfold, H. split; reflexivity.
Qed.

Lemma initializeAuth_static w K st n :
  WEBEX_PUBLIC_WORKSPACE_API_KEY (process st) = Some K -> K <> "" ->
  exec w (initializeAuth Date_new toISOString) st n = (static_ready K st, Ok tt, []).
Proof.
  intros HK Hne. unfold initializeAuth. cbn. rewrite HK. cbn.
  rewrite (proj2 (String.eqb_neq K "") Hne). reflexivity.
Qed.

Lemma caught_up_static K st : caught_up (static_ready K st) = static_ready K st.
Proof. reflexivity. Qed.

(** X13.  With a static key in the environment, [initializeAuth] resolves
    without awaiting anything or touching the manager, and from then on
    [getWebexToken] answers the key with one leading [Bearer] and the white
    space after it removed; when nothing is left of the key it throws that
    no valid token is available, although [initializeAuth] succeeded. *)
Theorem static_key_is_served w st n K st1 r1 tr1 :
  WEBEX_PUBLIC_WORKSPACE_API_KEY (process st) = Some K -> K <> "" ->
  exec w (initializeAuth Date_new toISOString) st n = (st1, r1, tr1) ->
  r1 = Ok tt /\ tr1 = [] /\ manager st1 = manager st /\ timers st1 = timers st /\
  forall w' m,
    exec w' getWebexToken st1 m =
    (st1, if (strip_bearer K =? "")%string then Err NO_VALID_TOKEN else Ok (strip_bearer K), []).
Proof.
  intros HK Hne. rewrite (initializeAuth_static _ _ _ _ HK Hne). intros H; inv_exec H.
  repeat (split; [reflexivity|]).
  intros w' m. rewrite getWebexToken_unfold, caught_up_static. reflexivity.
Qed.

Lemma strip_bearer_prefixed T : drop_spaces T = T -> strip_bearer ("Bearer " ++ T) = T.
Proof. intros H. unfold strip_bearer. cbn. exact H. Qed.

(** X14.  The [Bearer] prefix of the static key is optional: for a token
    [T] that is not empty, does not start with white space and does not
    itself start with [Bearer] and white space, the keys [T] and
    [Bearer T] both make the requests carry [Authorization: Bearer T]. *)
Theorem bearer_prefix_is_optional w st n T K st1 r1 tr1 :
  T <> "" -> drop_spaces T = T -> strip_bearer T = T ->
  K = T \/ K = "Bearer " ++ T ->
  WEBEX_PUBLIC_WORKSPACE_API_KEY (process st) = Some K ->
  exec w (initializeAuth Date_new toISOString) st n = (st1, r1, tr1) ->
  forall w' m,
    exists headers,
      exec w' (getWebexHeaders []) st1 m = (st1, Ok headers, []) /\
      prop "Authorization" headers = JStr ("Bearer " ++ T).
Proof.
  intros Hne Hsp Hbare HK Hkey.
  assert (Hstrip : strip_bearer K = T).
  { destruct HK as [->| ->]; [exact Hbare|apply strip_bearer_prefixed, Hsp]. }
  assert (HKne : K <> "").
  { destruct HK as [->| ->]; [exact Hne|]. discriminate. }
  rewrite (initializeAuth_static _ _ _ _ Hkey HKne). intros H; inv_exec H.
  intros w' m. rewrite getWebexHeaders_unfold, caught_up_static.
  unfold facade_token, static_ready. cbn. rewrite Hstrip.
  rewrite (proj2 (String.eqb_neq T "") Hne).
  eexists. split; reflexivity.
Qed.

(** X12.  [validateWebexConfig] and [initializeAuth] agree on what counts
    as configured.  Either the first throws its missing-configuration
    error and the second throws its no-authentication error, both without
    awaiting anything or changing the state; or the first passes
    and the second finds a mode to try: it resolves, or awaits an
    operation, or throws because auto-refresh was asked for off macOS. *)
Theorem validateWebexConfig_agrees_with_initializeAuth w st n :
  (exec w validateWebexConfig st n = (st, Err (new_Error MISSING_AUTH_CONFIGURATION), []) /\
   exec w (initializeAuth Date_new toISOString) st n
   = (st, Err (new_Error NO_AUTH_CONFIGURED), [])) \/
  (exec w validateWebexConfig st n = (st, Ok tt, []) /\
   forall st' r tr,
     exec w (initializeAuth Date_new toISOString) st n = (st', r, tr) ->
     r = Ok tt \/ tr <> [] \/ r = Err (new_Error PLATFORM_UNSUPPORTED)).
Proof.
  unfold validateWebexConfig, initializeAuth. cbn.
  destruct (truthy_str (WEBEX_PUBLIC_WORKSPACE_API_KEY (process st))); cbn.
  { right. split; [reflexivity|]. intros st' r tr H; inv_exec H. auto. }
  destruct (auto_refresh_enabled (process st)); cbn.
  { right. split; [reflexivity|]. intros st' r tr.
    destruct (negb (platform (process st) =? "darwin")%string) eqn:Hp; cbn.
    { intros H; inv_exec H. auto. }
    rewrite exec_bind, getValidToken_unfold.
    match goal with |- context [cache_is_fresh ?s] => destruct (cache_is_fresh s) end.
    { cbn. intros H; inv_exec H. auto. }
    rewrite loadToken_unfold.
    match goal with |- context [is_darwin ?s] =>
      assert (HD : is_darwin s = true)
        by (unfold is_darwin; cbn; apply negb_false_iff in Hp; exact Hp);
      rewrite HD end.
    destruct (answer w n (SecurityFind KEYCHAIN_ACCOUNT)).
    - match goal with |- context [usable ?s ?c] => destruct (usable s c) as [[tok E]|] end.
      + cbn. intros H; inv_exec H. auto.
      + match goal with |- context [exec w (forceRefresh ?a) ?s ?k] =>
          destruct (exec w (forceRefresh a) s k) as [[st3 [t3|e3]] tr3] end;
        cbn; intros H; inv_exec H; right; left; discriminate.
    - cbn [usable].
      match goal with |- context [exec w (forceRefresh ?a) ?s ?k] =>
          destruct (exec w (forceRefresh a) s k) as [[st3 [t3|e3]] tr3] end;
        cbn; intros H; inv_exec H; right; left; discriminate. }
  destruct (hasOAuthCredentials (process st)); cbn.
  { right. split; [reflexivity|]. intros st' r tr.
    destruct (answer w n OAuthGetValidToken); cbn; intros H; inv_exec H;
      right; left; discriminate. }
  left. split; reflexivity.
Qed.

End Facade.

Section Background.
Variable toISOString : Z -> string.

#[local] Opaque forceRefresh.

Lemma timerCallback_success w kind st n st1 tok tr1 :
  exec w (forceRefresh toISOString) (entering kind st) n = (st1, Ok tok, tr1) ->
  exec w (timerCallback toISOString kind) st n = (st1, Ok tt, tr1).
Proof.
  intros H. destruct kind; cbn in *; rewrite exec_tryCatch, exec_bind, H; cbn;
    rewrite app_nil_r; reflexivity.
Qed.

(** X11.  A refresh run by a timer reaches the callers of the facade.  In
    auto-refresh mode, with the facade's callback registered, when the
    [forceRefresh] of the timer's closure resolves with a token, the
    closure returns normally, the facade and the manager both hold that
    token, and [getWebexToken] answers it. *)
Theorem background_refresh_reaches_callers w kind st n st1 tok tr1 :
  TM._onTokenRefreshed (manager st) = Some FacadeAdoptsToken ->
  Cfg._authMethod (config st) = Some AutoRefresh ->
  Cfg._authInitialized (config st) = true ->
  tok <> "" ->
  exec w (forceRefresh toISOString) (entering kind st) n = (st1, Ok tok, tr1) ->
  exec w (timerCallback toISOString kind) st n = (st1, Ok tt, tr1) /\
  Cfg._cachedToken (config st1) = Some tok /\
  TM._cachedToken (manager st1) = Some tok /\
  forall w' m, exists st2, exec w' getWebexToken st1 m = (st2, Ok tok, []).
Proof.
  intros Hcb Hmode Hinit Hne HF.
  split; [apply timerCallback_success with (tok := tok); exact HF|].
  pose proof HF as HF'. apply forceRefresh_exec in HF'.
  destruct HF' as (_ & _ & _ & _ & Hi & Hm & E & _ & Hmgr & _).
  assert (Hc : Cfg._cachedToken (config st1) = Some tok).
  { destruct (answer w n FetchTokenFromBrowser) as [[tok0 ex]|e0] eqn:Hans.
    2:{ rewrite (forceRefresh_login_failed _ _ _ _ _ Hans) in HF. discriminate. }
    destruct (exec w (storeToken toISOString tok0 ex)
                   (tick (elapsed w n) (logged LogStartingExtraction (entering kind st))) (S n))
      as [[s1 [[]|e1]] t1] eqn:HS.
    2:{ rewrite (forceRefresh_store_failed _ _ _ _ _ _ _ _ _ Hans HS) in HF. discriminate. }
    pose proof HS as HS'. apply storeToken_exec in HS'.
    destruct HS' as ((Hm1 & _) & _ & Hok). destruct (Hok tt eq_refl) as [E0 ->].
    rewrite (forceRefresh_stored _ _ _ _ _ _ _ _ Hans HS) in HF. injection HF as <- <- _.
    unfold refreshed, notified. cbn. rewrite Hm1. cbn.
    assert (Hcb' : TM._onTokenRefreshed (manager (entering kind st)) = Some FacadeAdoptsToken)
      by (destruct kind; exact Hcb).
    rewrite Hcb'. reflexivity. }
  split; [exact Hc|]. split; [rewrite Hmgr; reflexivity|].
  intros w' m. rewrite getWebexToken_unfold. eexists. f_equal. f_equal.
  assert (Hmode1 : Cfg._authMethod (config st1) = Some AutoRefresh).
  { rewrite Hm. destruct kind; exact Hmode. }
  assert (Hinit1 : Cfg._authInitialized (config st1) = true).
  { rewrite Hi. destruct kind; exact Hinit. }
  unfold facade_token, caught_up. rewrite Hmode1.
  destruct (Cfg._keychainTokenManager (config st1) && cache_is_fresh st1); cbn;
    rewrite ?Hinit1, ?Hmgr, ?Hc; cbn; rewrite (proj2 (String.eqb_neq tok "") Hne); reflexivity.
Qed.

End Background.

Section Sessions.
Variable Date_new : JsVal -> JsDate.
Variable toISOString : Z -> string.
Variable minutes_text : Z -> string.
Variable oauth_getAuthStatus : Prog JsVal.
Variable oauth_forceReauthenticate : Prog string.
Variable oauth_clearTokens : Prog unit.

#[local] Opaque forceRefresh clearCachedToken loadToken getWebexToken.

Lemma forceRefresh_keeps_loaded w st n st' r tr :
  exec w (forceRefresh toISOString) st n = (st', r, tr) ->
  Cfg._keychainTokenManager (config st') = Cfg._keychainTokenManager (config st).
Proof.
  intros H.
  destruct (answer w n FetchTokenFromBrowser) as [[tok0 ex]|e0] eqn:HF.
  2:{ rewrite (forceRefresh_login_failed _ _ _ _ _ HF) in H. injection H as <- _ _. reflexivity. }
  destruct (exec w (storeToken toISOString tok0 ex)
                 (tick (elapsed w n) (logged LogStartingExtraction st)) (S n))
    as [[st1 r1] tr1] eqn:HS.
  pose proof HS as HS'. apply storeToken_exec in HS'.
  destruct HS' as ((Hm & Hc & _) & _ & Hok). cbn in Hm, Hc.
  destruct r1 as [[]|e1].
  - destruct (Hok tt eq_refl) as [E ->].
    rewrite (forceRefresh_stored _ _ _ _ _ _ _ _ HF HS) in H. injection H as <- _ _.
    unfold refreshed, notified. cbn. rewrite Hm.
    destruct (TM._onTokenRefreshed (manager st)) as [[]|]; cbn; rewrite Hc; reflexivity.
  - rewrite (forceRefresh_store_failed _ _ _ _ _ _ _ _ _ HF HS) in H. injection H as <- _ _.
    rewrite Hc. reflexivity.
Qed.

Lemma refreshAutoToken_unfold w st n :
  exec w (refreshAutoToken toISOString) st n =
  if is_darwin st then
    let '(st1, r1, tr1) := exec w (forceRefresh toISOString) (registered st) n in
    match r1 with
    | Ok t => (authenticated_with AutoRefresh t st1, Ok REFRESHED, tr1)
    | Err e => (st1, Ok (outcome false ("Token refresh failed: " ++ message e)), tr1)
    end
  else (st, Ok MACOS_ONLY, []).
Proof.
  unfold refreshAutoToken, is_darwin, registered, logged. cbn.
  destruct (platform (process st) =? "darwin")%string; cbn; [|reflexivity].
  rewrite exec_tryCatch.
  destruct (Cfg._keychainTokenManager (config st)); cbn; rewrite exec_bind;
    match goal with |- context [exec w (forceRefresh ?a) ?s ?k] =>
      destruct (exec w (forceRefresh a) s k) as [[st1 [t|e]] tr1] end;
    cbn; rewrite ?app_nil_r; reflexivity.
Qed.

(** X19.  [refreshAutoToken] never rejects.  Off macOS it refuses without
    touching anything.  On macOS it makes exactly one browser login; on
    success the facade is initialized in auto-refresh mode and holds the
    token the manager cached; on failure it reports the error in its
    message, and the facade's token, mode and initialized flag, the
    manager's cached token and expiry, and the timers are as before. *)
Theorem refreshAutoToken_outcome w st n st' r tr :
  exec w (refreshAutoToken toISOString) st n = (st', r, tr) ->
  if is_darwin st then
    List.length (filter is_browser_fetch tr) = 1%nat /\
    ((r = Ok REFRESHED /\
      exists tok,
        Cfg._cachedToken (config st') = Some tok /\
        TM._cachedToken (manager st') = Some tok /\
        Cfg._authInitialized (config st') = true /\
        Cfg._authMethod (config st') = Some AutoRefresh /\
        Cfg._keychainTokenManager (config st') = true) \/
     (exists e,
        r = Ok (outcome false ("Token refresh failed: " ++ message e)) /\
        Cfg._cachedToken (config st') = Cfg._cachedToken (config st) /\
        Cfg._authInitialized (config st') = Cfg._authInitialized (config st) /\
        Cfg._authMethod (config st') = Cfg._authMethod (config st) /\
        TM._cachedToken (manager st') = TM._cachedToken (manager st) /\
        TM._tokenExpiresAt (manager st') = TM._tokenExpiresAt (manager st) /\
        timers st' = timers st))
  else r = Ok MACOS_ONLY /\ st' = st /\ tr = [].
Proof.
  rewrite refreshAutoToken_unfold.
  destruct (is_darwin st); [|intros H; inv_exec H; auto].
  destruct (exec w (forceRefresh toISOString) (registered st) n) as [[st1 r1] tr1] eqn:HF.
  pose proof HF as HF'. apply forceRefresh_exec in HF'.
  destruct HF' as (Hone & _ & _ & _ & Hi & Hm & Hr).
  destruct r1 as [tok|e]; intros H; inv_exec H; (split; [exact Hone|]).
  - left. split; [reflexivity|]. exists tok.
    destruct Hr as (E & _ & Hmgr & _). cbn. rewrite Hmgr. cbn.
    repeat (split; [reflexivity|]).
    apply forceRefresh_keeps_loaded in HF. rewrite HF.
    unfold registered. destruct (Cfg._keychainTokenManager (config st)) eqn:Hk; cbn;
      [exact Hk|reflexivity].
  - right. exists e. split; [reflexivity|].
    destruct Hr as (Hmgr & Ht & _ & Hc). rewrite Hc, Hmgr, Ht.
    unfold registered. destruct (Cfg._keychainTokenManager (config st)); cbn; auto 10.
Qed.


#[local] Opaque refreshAutoToken.

(** X20.  [reauthenticate] never rejects, whatever the OAuth module does.
    With a static key it refuses, changing and awaiting nothing; in
    auto-refresh mode it is [refreshAutoToken]; without OAuth credentials
    it refuses likewise; and called with [force = false] and OAuth
    credentials it awaits the OAuth token once: on success the facade is
    initialized in oauth mode with that token, on failure the facade is
    unchanged and the message carries the error. *)
Theorem reauthenticate_outcome w force st n st' r tr :
  exec w (reauthenticate toISOString oauth_forceReauthenticate force) st n = (st', r, tr) ->
  (exists v, r = Ok v) /\
  let env := process st in
  if truthy_str (WEBEX_PUBLIC_WORKSPACE_API_KEY env) then
    r = Ok STATIC_CANNOT_AUTHENTICATE /\ st' = st /\ tr = []
  else if auto_refresh_enabled env then
    exec w (refreshAutoToken toISOString) st n = (st', r, tr)
  else if hasOAuthCredentials env then
    force = Some false ->
    tr = [OAuthGetValidToken] /\
    match answer w n OAuthGetValidToken with
    | Ok t =>
        r = Ok (outcome true "Authentication successful") /\
        Cfg._cachedToken (config st') = Some t /\
        Cfg._authInitialized (config st') = true /\
        Cfg._authMethod (config st') = Some OAuth
    | Err e =>
        r = Ok (outcome false ("Authentication failed: " ++ message e)) /\
        config st' = config st
    end
  else r = Ok OAUTH_NOT_CONFIGURED /\ st' = st /\ tr = [].
Proof.
  unfold reauthenticate. cbn.
  destruct (truthy_str (WEBEX_PUBLIC_WORKSPACE_API_KEY (process st))); cbn.
  { intros H; inv_exec H. split; [eauto|auto]. }
  destruct (auto_refresh_enabled (process st)); cbn.
  { intros H. split; [|exact H].
    rewrite refreshAutoToken_unfold in H.
    destruct (is_darwin st); [|inv_exec H; eauto].
    destruct (exec w (forceRefresh toISOString) (registered st) n) as [[st1 [t|e]] tr1];
      inv_exec H; eauto. }
  destruct (hasOAuthCredentials (process st)); cbn.
  2:{ intros H; inv_exec H. split; [eauto|auto]. }
  rewrite exec_tryCatch, exec_bind.
  destruct force as [[|]|]; cbn.
  - destruct (exec w oauth_forceReauthenticate st n) as [[st1 [t|e]] tr1]; cbn;
      intros H; inv_exec H; (split; [eauto|discriminate]).
  - destruct (answer w n OAuthGetValidToken) as [t|e]; cbn;
      intros H; inv_exec H; (split; [eauto|]); intros _; auto.
  - destruct (exec w oauth_forceReauthenticate st n) as [[st1 [t|e]] tr1]; cbn;
      intros H; inv_exec H; (split; [eauto|discriminate]).
Qed.

Lemma clearCachedToken_settles w st n :
  exists st0 tr0, exec w clearCachedToken st n = (st0, Ok tt, tr0) /\
    TM._cachedToken (manager st0) = None /\
    timers st0 = disarm (TM._refreshTimeout (manager st)) (timers st) /\
    config st0 = config st /\ process st0 = process st.
Proof.
  rewrite clearCachedToken_unfold.
  destruct (is_darwin st); eexists _, _; (split; [reflexivity|]).
  - pose proof (waited_quiet w 2 n (forgotten st)) as (Hm & Hc & Ht & _ & Hp & _).
    cbn [logged with_console manager config timers process].
    rewrite Hm, Hc, Ht, Hp. cbn. auto.
  - cbn. auto.
Qed.

(** X21.  [logout] never rejects.  With a static key it refuses and
    changes nothing.  Otherwise, in auto-refresh mode with the manager
    loaded, it first clears the manager's cache, disarms its timer and
    deletes the Keychain entries, whether the OAuth clean-up that follows
    succeeds or not; when the OAuth clean-up resolves the facade is reset,
    and from then on [getWebexToken] throws that authentication is not
    initialized; when it rejects nothing more is changed and the message
    carries the error. *)
Theorem logout_outcome w st n st' r tr :
  exec w (logout oauth_clearTokens) st n = (st', r, tr) ->
  if truthy_str (WEBEX_PUBLIC_WORKSPACE_API_KEY (process st)) then
    r = Ok STATIC_CANNOT_LOGOUT /\ st' = st /\ tr = []
  else
    exists st0 tr0 st1 r1 tr1,
      (if auto_refresh_enabled (process st) && Cfg._keychainTokenManager (config st)
       then exec w clearCachedToken st n = (st0, Ok tt, tr0) /\
            TM._cachedToken (manager st0) = None /\
            timers st0 = disarm (TM._refreshTimeout (manager st)) (timers st)
       else st0 = st /\ tr0 = []) /\
      exec w oauth_clearTokens st0 (n + List.length tr0) = (st1, r1, tr1) /\
      tr = (tr0 ++ tr1)%list /\
      match r1 with
      | Ok _ =>
          r = Ok LOGGED_OUT /\ st' = logged_out st1 /\
          forall w' m, exec w' getWebexToken st' m = (st', Err NOT_INITIALIZED, [])
      | Err e =>
          r = Ok (outcome false ("Logout failed: " ++ message e)) /\ st' = st1
      end.
Proof.
  unfold logout. cbn.
  destruct (truthy_str (WEBEX_PUBLIC_WORKSPACE_API_KEY (process st))); cbn.
  { intros H; inv_exec H. auto. }
  rewrite exec_tryCatch. unfold when.
  destruct (auto_refresh_enabled (process st) && Cfg._keychainTokenManager (config st)).
  - rewrite exec_bind.
    destruct (clearCachedToken_settles w st n) as (st0 & tr0 & Hc & Hnone & Ht & _).
    rewrite Hc. rewrite exec_bind.
    destruct (exec w oauth_clearTokens st0 (n + List.length tr0)) as [[st1 r1] tr1] eqn:HO.
    intros H. exists st0, tr0, st1, r1, tr1.
    split; [auto|]. split; [exact HO|].
    destruct r1 as [[]|e]; cbn in H; inv_exec H; rewrite ?app_nil_r; (split; [reflexivity|]).
    + split; [reflexivity|]. split; [reflexivity|].
      intros w' m. rewrite getWebexToken_unfold. reflexivity.
    + auto.
  - cbn. rewrite exec_bind.
    destruct (exec w oauth_clearTokens st n) as [[st1 r1] tr1] eqn:HO.
    intros H. exists st, [], st1, r1, tr1.
    split; [auto|]. cbn [List.length]. rewrite Nat.add_0_r. split; [exact HO|].
    destruct r1 as [[]|e]; cbn in H; inv_exec H; rewrite ?app_nil_r; (split; [reflexivity|]).
    + split; [reflexivity|]. split; [reflexivity|].
      intros w' m. rewrite getWebexToken_unfold. reflexivity.
    + auto.
Qed.

(** X22.  [getFullAuthStatus] answers from the environment and the
    Keychain, not from the tokens cached in memory.  With a static key it reports [authenticated: true] without awaiting anything,
    initialized or not.  In auto-refresh mode with the manager loaded,
    [authenticated] says whether the Keychain holds a record whose expiry
    is ahead of the clock, whatever the manager has cached, and the call
    rejects with a RangeError when the stored expiry text does not parse;
    with the manager not loaded it reports [false].  Otherwise it reports
    what the OAuth module reports, or that nothing is configured. *)
Theorem getFullAuthStatus_reads_the_keychain w st n st' r tr :
  exec w (getFullAuthStatus Date_new toISOString minutes_text oauth_getAuthStatus) st n
  = (st', r, tr) ->
  let env := process st in
  if truthy_str (WEBEX_PUBLIC_WORKSPACE_API_KEY env) then
    st' = st /\ tr = [] /\
    exists o, r = Ok (JObj o) /\ prop "authenticated" o = JBool true /\
              prop "method" o = JStr "static_token"
  else if auto_refresh_enabled env then
    if Cfg._keychainTokenManager (config st) then
      quiet st st' /\ no_network tr /\
      match (if is_darwin st then stored_record Date_new w n else None) with
      | Some (mkTokenRecord _ InvalidDate) => r = Err RANGE_ERROR
      | stored =>
          exists o, r = Ok (JObj o) /\ prop "method" o = JStr "auto_refresh" /\
            prop "authenticated" o =
            JBool match stored with
                  | Some (mkTokenRecord _ (DateAt E)) => clock st' <? E
                  | _ => false
                  end
      end
    else
      st' = st /\ tr = [] /\
      exists o, r = Ok (JObj o) /\ prop "authenticated" o = JBool false /\
                prop "method" o = JStr "auto_refresh"
  else if hasOAuthCredentials env then
    exec w oauth_getAuthStatus st n = (st', r, tr)
  else
    st' = st /\ tr = [] /\
    exists o, r = Ok (JObj o) /\ prop "authenticated" o = JBool false /\
              prop "method" o = JNull.
Proof.
  unfold getFullAuthStatus. cbn.
  destruct (truthy_str (WEBEX_PUBLIC_WORKSPACE_API_KEY (process st))); cbn.
  { intros H; inv_exec H. repeat (split; [reflexivity|]). eexists. repeat split. }
  destruct (auto_refresh_enabled (process st)); cbn.
  { destruct (Cfg._keychainTokenManager (config st)); cbn.
    2:{ intros H; inv_exec H. repeat (split; [reflexivity|]). eexists. repeat split. }
    unfold getTokenStatus. rewrite !exec_bind.
    destruct (loadToken_reads Date_new w st n) as (st1 & tr1 & -> & Hq & Hn).
    destruct (if is_darwin st then stored_record Date_new w n else None) as [[tok [E|]]|];
      cbn; intros H; inv_exec H; rewrite ?app_nil_r;
      (split; [exact Hq|]); (split; [exact Hn|]); try reflexivity;
      eexists; (split; [reflexivity|]); cbn;
      repeat match goal with |- context [if ?b then _ else _] => destruct b end;
      split; reflexivity. }
  destruct (hasOAuthCredentials (process st)); cbn.
  { trivial. }
  intros H; inv_exec H. repeat (split; [reflexivity|]). eexists. repeat split.
Qed.

End Sessions.

(** ** Listing tool *)

Lemma messages_url_same st st' : process st' = process st -> messages_url st' = messages_url st.
Proof. unfold messages_url. intros ->. reflexivity. Qed.

Lemma request_failed_inv w n url q h tr e :
  request_failed w n (HttpGet url q h :: tr) e ->
  answer w n (HttpGet url q h) = Err e \/ request_failed w (S n) tr e.
Proof.
  intros (i & url' & q' & h' & Hi & He). destruct i as [|i].
  - injection Hi as <- <- <-. rewrite Nat.add_0_r in He. left. exact He.
  - right. exists i, url', q', h'. split; [exact Hi|].
    rewrite Nat.add_succ_r in He. exact He.
Qed.

Lemma request_failed_nil w n e : ~ request_failed w n [] e.
Proof. intros (i & url & q & h & Hi & _). destruct i; discriminate. Qed.

Section Pages.
Variable Date_new : JsVal -> JsDate.

#[local] Opaque fetchMessageBatch.

Lemma paginate_pages w a max headers d st0 :
  forall remaining collected cursor st n st' r tr,
    process st = process st0 ->
    exec w (paginate Date_new a max headers d remaining collected cursor) st n
    = (st', r, tr) ->
    pages_follow w a st0 headers n cursor tr /\
    (forall e, request_failed w n tr e -> r = Err e) /\
    manager st' = manager st /\ config st' = config st /\ timers st' = timers st /\
    process st' = process st.
Proof.
  induction remaining as [|remaining IH]; intros collected cursor st n st' r tr Hp; cbn.
  - intros H; inv_exec H. cbn. repeat split.
    intros e He. destruct (request_failed_nil _ _ _ He).
  - rewrite exec_bind, fetchMessageBatch_exec, (messages_url_same _ _ Hp).
    set (io := HttpGet _ _ _).
    assert (Hio : io = page_request a st0 headers cursor batchSize) by reflexivity.
    assert (Hb : forall b, answer w n io = Ok b ->
                 batch_of w n io = match items b with Some xs => xs | None => [] end)
      by (apply batch_of_http).
    assert (Hone : forall e, request_failed w n [io] e -> answer w n io = Err e).
    { intros e He. apply request_failed_inv in He.
      destruct He as [He|He]; [exact He|destruct (request_failed_nil _ _ _ He)]. }
    destruct (answer w n io) as [data|e0] eqn:Hans.
    2:{ intros H; inv_exec H. cbn. repeat split; try discriminate; try tauto.
        intros e He. apply Hone in He. congruence. }
    specialize (Hb _ eq_refl).
    assert (Hstop : forall (out : list Object) st1,
              process st1 = process st ->
              manager st1 = manager st -> config st1 = config st -> timers st1 = timers st ->
              pages_follow w a st0 headers n cursor [io] /\
              (forall e, request_failed w n [io] e -> @Ok (list Object) out = Err e) /\
              manager st1 = manager st /\ config st1 = config st /\ timers st1 = timers st /\
              process st1 = process st).
    { intros out st1 H1 H2 H3 H4. split; [cbn; repeat split; tauto|].
      split; [|auto].
      intros e He. apply Hone in He. discriminate. }
    cbn -[scan_batch].
    destruct (items data) as [[|m batch]|] eqn:Hitems.
    3:{ intros H; inv_exec H. apply Hstop; reflexivity. }
    1:{ intros H; inv_exec H. apply Hstop; reflexivity. }
    destruct (scan_batch Date_new d (m :: batch)) as [pushed found] eqn:Hscan.
    destruct found.
    { cbn. intros H; inv_exec H. apply Hstop; reflexivity. }
    destruct (negb (max =? 0) && (max <=? Z.of_nat (List.length (collected ++ pushed)))).
    { cbn. intros H; inv_exec H. apply Hstop; reflexivity. }
    destruct (Z.of_nat (List.length (m :: batch)) <? batchSize) eqn:Hshort.
    { cbn. intros H; inv_exec H. apply Hstop; reflexivity. }
    cbn -[paginate].
    match goal with |- context [exec w (paginate ?a1 ?a2 ?a3 ?a4 ?a5 ?a6 ?a7 ?a8) ?s ?k] =>
      destruct (exec w (paginate a1 a2 a3 a4 a5 a6 a7 a8) s k) as [[st2 r2] tr2] eqn:Hrec end.
    apply IH in Hrec; [|exact Hp].
    destruct Hrec as (Hpages & Herr & Hm & Hc & Ht & Hpr).
    rewrite Nat.add_1_r in *.
    intros H; inv_exec H.
    split.
    { cbn [pages_follow]. split; [exact Hio|]. rewrite Hb. split.
      - intros _. apply Z.ltb_ge in Hshort. exact Hshort.
      - exact Hpages. }
    split; [|auto].
    intros e He. apply request_failed_inv in He. destruct He as [He|He].
    + change (answer w n io = Err e) in He. congruence.
    + apply Herr. exact He.
Qed.


Lemma keep_before_nil {A : Type} (M : Z) : keep_before M (@nil A) = [].
Proof. unfold keep_before. apply firstn_nil. Qed.

(** With a negative [max] the loop leaves after its first page. *)
Lemma paginate_negative_max w a M headers d remaining cursor st n :
  M < 0 ->
  exec w (paginate Date_new a M headers d (S remaining) [] cursor) st n =
  let io := page_request a st headers cursor batchSize in
  match answer w n io with
  | Err e => (tick (elapsed w n) st, Err e, [io])
  | Ok data =>
      let '(pushed, found) :=
        scan_batch Date_new d (match items data with Some xs => xs | None => [] end) in
      (tick (elapsed w n) st, Ok (if found then pushed else keep_before M pushed), [io])
  end.
Proof.
  intros HM. cbn -[scan_batch]. rewrite exec_bind, fetchMessageBatch_exec.
  unfold page_request. cbn [bp_headers]. cbn zeta.
  match goal with |- context [answer w n ?io] => destruct (answer w n io) as [data|e] end;
    [|reflexivity].
  cbn -[scan_batch].
  destruct (items data) as [[|m batch]|].
  1,3: cbn; rewrite keep_before_nil; reflexivity.
  cbn -[scan_batch].
  destruct (scan_batch Date_new d (m :: batch)) as [pushed found].
  destruct found; cbn; [reflexivity|].
  assert (Hneg : negb (M =? 0) && (M <=? Z.of_nat (List.length pushed)) = true).
  { apply andb_true_iff. split; [apply negb_true_iff, Z.eqb_neq|apply Z.leb_le]; lia. }
  rewrite Hneg. reflexivity.
Qed.

#[local] Opaque paginate getWebexHeaders.

Lemma executeFunction_unfold w a st n :
  exec w (executeFunction Date_new a) st n =
  let st0 := caught_up st in
  match facade_token st0 with
  | Err e => (logged (LogListingError (message e)) st0, Ok (error_result e), [])
  | Ok token =>
      let headers := default_headers token in
      if negb (truthy_str (after a)) then
        let io := page_request a st headers (beforeMessage a) (default_max a) in
        match answer w n io with
        | Ok data =>
            (tick (elapsed w n) st0,
             Ok (body_to_js
                   (if default_summarize a
                    then mkBody (option_map (map summarizeMessage) (items data))
                                (other_fields data)
                    else data)),
             [io])
        | Err e =>
            (logged (LogListingError (message e)) (tick (elapsed w n) st0),
             Ok (error_result e), [io])
        end
      else
        match Date_new (JStr (after_or_empty a)) with
        | InvalidDate =>
            let e := new_Error (INVALID_AFTER (after_or_empty a)) in
            (logged (LogListingError (message e)) st0, Ok (error_result e), [])
        | DateAt t =>
            let '(st2, r2, tr2) :=
              exec w (paginate Date_new a (default_max a) headers (DateAt t)
                               maxIterations [] (beforeMessage a)) st0 n in
            match r2 with
            | Ok collected =>
                (st2,
                 Ok (listing_result (default_summarize a) (after_or_empty a)
                       (if negb (default_max a =? 0)
                        then keep_before (default_max a) collected else collected)),
                 tr2)
            | Err e => (logged (LogListingError (message e)) st2, Ok (error_result e), tr2)
            end
        end
  end.
Proof.
  unfold executeFunction. fold (default_max a) (default_summarize a) (after_or_empty a).
  rewrite exec_tryCatch, exec_bind, getWebexHeaders_unfold.
  destruct (caught_up_keeps st) as (_ & _ & _ & _ & _ & Hp & _).
  destruct (facade_token (caught_up st)) as [token|e]; cbn; [|reflexivity].
  destruct (negb (truthy_str (after a))); cbn.
  - rewrite exec_bind, fetchMessageBatch_exec, (messages_url_same _ _ Hp).
    unfold page_request. cbn [List.length bp_headers]. rewrite !Nat.add_0_r.
    match goal with |- context [answer w n ?io] => destruct (answer w n io) as [data|e] end;
      cbn; [|reflexivity].
    destruct (default_summarize a); reflexivity.
  - destruct (Date_new (JStr (after_or_empty a))) as [t|]; cbn; [|reflexivity].
    rewrite exec_bind. cbn [List.length]. rewrite !Nat.add_0_r.
    match goal with |- context [exec w (paginate ?a1 ?a2 ?a3 ?a4 ?a5 ?a6 ?a7 ?a8) ?s ?k] =>
      destruct (exec w (paginate a1 a2 a3 a4 a5 a6 a7 a8) s k) as [[st2 [out|e]] tr2] end;
      cbn; rewrite ?app_nil_r; reflexivity.
Qed.


(** X24.  No partial listing: when a request of a call failed, the call
    returns the error object of that error, whatever the pages before it
    held. *)
Theorem failed_request_fails_the_call w a st n st' r tr e :
  exec w (executeFunction Date_new a) st n = (st', r, tr) ->
  request_failed w n tr e ->
  r = Ok (error_result e).
Proof.
  rewrite executeFunction_unfold. cbn zeta.
  destruct (facade_token (caught_up st)) as [token|e0].
  2:{ intros H; inv_exec H. intros He. destruct (request_failed_nil _ _ _ He). }
  destruct (negb (truthy_str (after a))).
  - unfold page_request.
    match goal with |- context [answer w n ?io] => destruct (answer w n io) eqn:Hans end;
      intros H; inv_exec H; intros He; apply request_failed_inv in He;
      (destruct He as [He|He]; [|destruct (request_failed_nil _ _ _ He)]); congruence.
  - destruct (Date_new (JStr (after_or_empty a))) as [t|].
    2:{ intros H; inv_exec H. intros He. destruct (request_failed_nil _ _ _ He). }
    match goal with |- context [exec w (paginate ?a1 ?a2 ?a3 ?a4 ?a5 ?a6 ?a7 ?a8) ?s ?k] =>
      destruct (exec w (paginate a1 a2 a3 a4 a5 a6 a7 a8) s k) as [[st2 r2] tr2] eqn:Hrec end.
    apply (paginate_pages w a _ _ _ st) in Hrec; [|apply caught_up_keeps].
    destruct Hrec as (_ & Herr & _).
    destruct r2; intros H; inv_exec H; intros He; apply Herr in He; congruence.
Qed.

(** X25.  The tool never rejects: it always resolves with an object.  It
    never opens the browser, and leaves the token manager, the timers and
    the environment as they were; of the facade it changes at most the
    token, which [getWebexHeaders] brings up to date. *)
Theorem listing_leaves_the_manager_alone w a st n st' r tr :
  exec w (executeFunction Date_new a) st n = (st', r, tr) ->
  (exists o, r = Ok (JObj o)) /\
  filter is_browser_fetch tr = [] /\
  manager st' = manager st /\ timers st' = timers st /\ process st' = process st /\
  config st' = config (caught_up st).
Proof.
  rewrite executeFunction_unfold. cbn zeta.
  destruct (caught_up_keeps st) as (Hm & Ht & _ & _ & _ & Hp & _).
  destruct (facade_token (caught_up st)) as [token|e0].
  2:{ intros H; inv_exec H. split; [unfold error_result; eauto|]. auto. }
  destruct (negb (truthy_str (after a))).
  - unfold page_request.
    match goal with |- context [answer w n ?io] => destruct (answer w n io) as [data|e1] end;
      intros H; inv_exec H; (split; [|auto]).
    + unfold body_to_js. destruct (default_summarize a), (items data); cbn; eauto.
    + unfold error_result. eauto.
  - destruct (Date_new (JStr (after_or_empty a))) as [t|].
    2:{ intros H; inv_exec H. split; [unfold error_result; eauto|]. auto. }
    match goal with |- context [exec w (paginate ?a1 ?a2 ?a3 ?a4 ?a5 ?a6 ?a7 ?a8) ?s ?k] =>
      destruct (exec w (paginate a1 a2 a3 a4 a5 a6 a7 a8) s k) as [[st2 r2] tr2] eqn:Hrec end.
    pose proof Hrec as Hrec'. apply paginate_exec in Hrec'. destruct Hrec' as (Hhttp & _).
    apply (paginate_pages w a _ _ _ st) in Hrec; [|apply caught_up_keeps].
    destruct Hrec as (_ & _ & Hm2 & Hc2 & Ht2 & Hp2).
    assert (Hnb : filter is_browser_fetch tr2 = []).
    { clear -Hhttp. induction Hhttp as [|io l Hio _ IH]; [reflexivity|].
      cbn. destruct io; try discriminate. exact IH. }
    destruct r2; intros H; inv_exec H;
      (split; [unfold listing_result, error_result; eauto|]);
      cbn; rewrite ?Hm2, ?Hc2, ?Ht2, ?Hp2; auto.
Qed.


(** X26.  A negative [max] with a time bound: the loop's limit test holds
    at once, so exactly one page is fetched, and [splice] and [slice] count
    from the end.  The listing is the part of that page in range with its
    last [-max] messages dropped, once when the page reached a message out
    of range, twice when it did not. *)
Theorem negative_max_stops_after_one_page w a st n st' r tr T t M st0 headers :
  after a = Some T -> T <> "" -> Date_new (JStr T) = DateAt t ->
  max a = Some M -> M < 0 ->
  exec w (getWebexHeaders []) st n = (st0, Ok headers, []) ->
  exec w (executeFunction Date_new a) st n = (st', r, tr) ->
  let io := page_request a st headers (beforeMessage a) batchSize in
  tr = [io] /\
  match answer w n io with
  | Err e => r = Ok (error_result e)
  | Ok data =>
      let '(pushed, found) :=
        scan_batch Date_new (DateAt t) (match items data with Some xs => xs | None => [] end) in
      r = Ok (listing_result (default_summarize a) T
                (keep_before M (if found then pushed else keep_before M pushed)))
  end.
Proof.
  intros Hafter Hne Hdate Hmax HM.
  rewrite getWebexHeaders_unfold, executeFunction_unfold. cbn zeta.
  destruct (caught_up_keeps st) as (_ & _ & _ & _ & _ & Hp & _).
  destruct (facade_token (caught_up st)) as [token|e0]; [|discriminate].
  intros Hh. injection Hh as _ <-. change (spread (default_headers token) [])
    with (default_headers token).
  assert (Htruthy : negb (truthy_str (after a)) = false).
  { rewrite Hafter. cbn. destruct (String.eqb_spec T ""); [contradiction|reflexivity]. }
  rewrite Htruthy. unfold after_or_empty, default_max. rewrite Hafter, Hdate, Hmax.
  change maxIterations with (S 19).
  rewrite (paginate_negative_max _ _ _ _ _ _ _ _ _ HM). cbn zeta.
  unfold page_request. rewrite (messages_url_same _ _ Hp).
  assert (Hnz : negb (M =? 0) = true) by (apply negb_true_iff, Z.eqb_neq; lia).
  rewrite Hnz.
  match goal with |- context [answer w n ?io] => destruct (answer w n io) as [data|e] end.
  - destruct (scan_batch Date_new (DateAt t) _) as [pushed found].
    intros H; inv_exec H. split; reflexivity.
  - intros H; inv_exec H. split; reflexivity.
Qed.

End Pages.

(** ** Listing tool: the messages returned *)

Lemma last_cons_cons {A : Type} (x y : A) (l : list A) (d : A) :
  last (x :: y :: l) d = last (y :: l) d.
Proof. reflexivity. Qed.

Lemma keep_before_positive {A : Type} (M : Z) (l : list A) :
  0 < M -> keep_before M l = firstn (Z.to_nat M) l.
Proof.
  intros HM. unfold keep_before, clamp_index.
  destruct (M <? 0) eqn:Hneg; [apply Z.ltb_lt in Hneg; lia|].
  destruct (Nat.min_spec (Z.to_nat M) (List.length l)) as [[_ ->]|[Hle ->]]; [reflexivity|].
  rewrite firstn_all. symmetry. apply firstn_all2. exact Hle.
Qed.

Lemma firstn_twice {A : Type} (k : nat) (l : list A) : firstn k (firstn k l) = firstn k l.
Proof. rewrite firstn_firstn, Nat.min_id. reflexivity. Qed.

Section Results.
Variable Date_new : JsVal -> JsDate.

(** The longest prefix in range is the only way to split at the
    boundary. *)
Lemma splits_at_boundary_unique d recv collected rest :
  splits_at_boundary Date_new d recv collected rest ->
  collected = in_range_prefix Date_new d recv.
Proof.
  intros (-> & Hall & Hrest).
  induction Hall as [|m collected Hm _ IH]; cbn.
  - destruct Hrest as [->|(m & rest' & -> & Hout)]; [reflexivity|].
    cbn. unfold in_range in Hout.
    destruct (date_ge (Date_new (prop "created" m)) d); [contradiction Hout; reflexivity|].
    reflexivity.
  - unfold in_range in Hm. rewrite Hm, <- IH. reflexivity.
Qed.

Lemma presented_item summarize msg :
  presented summarize msg (JObj (if summarize then summarizeMessage msg else msg)).
Proof.
  eexists. split; [reflexivity|]. destruct summarize; [|reflexivity].
  split; [reflexivity|]. split.
  - intros k Hk. cbn in Hk.
    repeat (destruct Hk as [<- | Hk]; [reflexivity|]). contradiction.
  - intros k Hk. apply summarizeMessage_drops. exact Hk.
Qed.

Lemma presented_items summarize msgs :
  Forall2 (presented summarize) msgs
          (map JObj (if summarize then map summarizeMessage msgs else msgs)).
Proof.
  induction msgs as [|m msgs IH]; [destruct summarize; constructor|].
  destruct summarize; cbn.
  - constructor; [exact (presented_item true m)|exact IH].
  - constructor; [exact (presented_item false m)|exact IH].
Qed.

#[local] Opaque fetchMessageBatch.

(** The pagination loop: which of the messages received it collects. *)
Lemma paginate_collects w a max headers d :
  forall remaining collected cursor st n st' out tr,
    exec w (paginate Date_new a max headers d remaining collected cursor) st n
    = (st', Ok out, tr) ->
    exists pushed rest,
      splits_at_boundary Date_new d (received w n tr) pushed rest /\
      (exists pre, last (batches w n tr) [] = (pre ++ rest)%list) /\
      (out = (collected ++ pushed)%list \/
       (max <> 0 /\ rest = [] /\ out = keep_before max (collected ++ pushed)%list)).
Proof.
  induction remaining as [|remaining IH]; intros collected cursor st n st' out tr; cbn.
  - intros H; inv_exec H. exists [], []. split; [|split].
    + split; [reflexivity|]. split; [constructor|left; reflexivity].
    + exists []. reflexivity.
    + left. symmetry. apply app_nil_r.
  - rewrite exec_bind, fetchMessageBatch_exec.
    set (io := HttpGet _ _ _).
    assert (Hb : forall b, answer w n io = Ok b ->
                 batch_of w n io = match items b with Some xs => xs | None => [] end)
      by (apply batch_of_http).
    destruct (answer w n io) as [data|e] eqn:Hans; [|intros H; discriminate H].
    specialize (Hb _ eq_refl).
    assert (Hempty : batch_of w n io = [] ->
              exists pushed rest,
                splits_at_boundary Date_new d (received w n [io]) pushed rest /\
                (exists pre, last (batches w n [io]) [] = (pre ++ rest)%list) /\
                (collected = (collected ++ pushed)%list \/
                 (max <> 0 /\ rest = [] /\
                  collected = keep_before max (collected ++ pushed)%list))).
    { intros Hnil. exists [], []. rewrite received_one. cbn [batches last]. rewrite Hnil.
      split; [|split].
      - split; [reflexivity|]. split; [constructor|left; reflexivity].
      - exists []. reflexivity.
      - left. symmetry. apply app_nil_r. }
    cbn -[scan_batch].
    destruct (items data) as [[|m batch]|] eqn:Hitems.
    3:{ intros H; inv_exec H. apply Hempty. exact Hb. }
    1:{ intros H; inv_exec H. apply Hempty. exact Hb. }
    clear Hempty.
    destruct (scan_batch Date_new d (m :: batch)) as [pushed found] eqn:Hscan.
    destruct (scan_batch_spec _ _ _ _ _ Hscan) as (Hall & rest & Hsplit & Hf & Ht).
    assert (Hhere : forall out0,
              (out0 = (collected ++ pushed)%list \/
               (max <> 0 /\ rest = [] /\ out0 = keep_before max (collected ++ pushed)%list)) ->
              exists pushed0 rest0,
                splits_at_boundary Date_new d (received w n [io]) pushed0 rest0 /\
                (exists pre, last (batches w n [io]) [] = (pre ++ rest0)%list) /\
                (out0 = (collected ++ pushed0)%list \/
                 (max <> 0 /\ rest0 = [] /\
                  out0 = keep_before max (collected ++ pushed0)%list))).
    { intros out0 Hout. exists pushed, rest. rewrite received_one. cbn [batches last].
      rewrite Hb. split; [|split; [|exact Hout]].
      - split; [exact Hsplit|]. split; [exact Hall|].
        destruct found; [right; apply Ht; reflexivity|left; apply Hf; reflexivity].
      - exists pushed. exact Hsplit. }
    destruct found.
    { cbn. intros H; inv_exec H. apply Hhere. left. reflexivity. }
    pose proof (Hf eq_refl) as Hrest.
    destruct (negb (max =? 0) && (max <=? Z.of_nat (List.length (collected ++ pushed))))
      eqn:Hmax.
    { cbn. intros H; inv_exec H. apply Hhere. right.
      apply andb_true_iff in Hmax. destruct Hmax as [Hnz _].
      apply negb_true_iff, Z.eqb_neq in Hnz. auto. }
    destruct (Z.of_nat (List.length (m :: batch)) <? batchSize) eqn:Hshort.
    { cbn. intros H; inv_exec H. apply Hhere. left. reflexivity. }
    clear Hhere. cbn -[paginate].
    match goal with |- context [exec w (paginate ?a1 ?a2 ?a3 ?a4 ?a5 ?a6 ?a7 ?a8) ?s ?k] =>
      destruct (exec w (paginate a1 a2 a3 a4 a5 a6 a7 a8) s k) as [[st2 r2] tr2] eqn:Hrec end.
    intros H. injection H as <- -> <-.
    rewrite Nat.add_1_r in Hrec.
    apply IH in Hrec.
    destruct Hrec as (pushed' & rest' & (Hrecv & Hall' & Hrest') & (pre' & Hlast) & Hout).
    subst rest. rewrite app_nil_r in Hsplit. subst pushed.
    exists ((m :: batch) ++ pushed')%list, rest'. split; [|split].
    + split; [|split; [apply Forall_app; split; assumption|exact Hrest']].
      rewrite received_cons, Hb, Hrecv, <- app_assoc. reflexivity.
    + cbn [batches]. destruct tr2 as [|io2 tr2].
      * cbn in Hlast. symmetry in Hlast. apply app_eq_nil in Hlast.
        destruct Hlast as [_ ->]. cbn [batches last]. rewrite Hb.
        exists (m :: batch). symmetry. apply app_nil_r.
      * cbn [batches] in *. rewrite last_cons_cons. exists pre'. exact Hlast.
    + rewrite app_assoc. exact Hout.
Qed.

#[local] Opaque paginate getWebexHeaders.

(** A call with a time bound, its headers built: a request failed and the
    error is returned, or none failed and the listing holds the collected
    messages, limited. *)
Lemma executeFunction_listing w a st n st' r tr T t st0 headers :
  after a = Some T -> T <> "" -> Date_new (JStr T) = DateAt t ->
  exec w (getWebexHeaders []) st n = (st0, Ok headers, []) ->
  exec w (executeFunction Date_new a) st n = (st', r, tr) ->
  (exists e, request_failed w n tr e /\ r = Ok (error_result e)) \/
  ((forall e, ~ request_failed w n tr e) /\
   exists collected rest,
     splits_at_boundary Date_new (DateAt t) (received w n tr) collected rest /\
     (exists pre, last (batches w n tr) [] = (pre ++ rest)%list) /\
     r = Ok (listing_result (default_summarize a) T
               (limited (default_max a) collected rest))).
Proof.
  intros Hafter Hne Hdate.
  rewrite getWebexHeaders_unfold, executeFunction_unfold. cbn zeta.
  destruct (caught_up_keeps st) as (_ & _ & _ & _ & _ & Hp & _).
  destruct (facade_token (caught_up st)) as [token|e0]; [|discriminate].
  intros Hh. injection Hh as _ <-. change (spread (default_headers token) [])
    with (default_headers token).
  assert (Htruthy : negb (truthy_str (after a)) = false).
  { rewrite Hafter. cbn. destruct (String.eqb_spec T ""); [contradiction|reflexivity]. }
  rewrite Htruthy. unfold after_or_empty. rewrite Hafter, Hdate.
  set (M := default_max a).
  destruct (Z_lt_le_dec M 0) as [Hneg|Hpos].
  - change maxIterations with (S 19).
    rewrite (paginate_negative_max _ _ _ _ _ _ _ _ _ _ Hneg). cbn zeta.
    unfold page_request. rewrite (messages_url_same _ _ Hp).
    set (io := HttpGet _ _ _).
    assert (Hone : forall e, request_failed w n [io] e -> answer w n io = Err e).
    { intros e He. apply request_failed_inv in He.
      destruct He as [He|He]; [exact He|destruct (request_failed_nil _ _ _ He)]. }
    assert (Hb : forall b, answer w n io = Ok b ->
                 batch_of w n io = match items b with Some xs => xs | None => [] end)
      by (apply batch_of_http).
    destruct (answer w n io) as [data|e] eqn:Hans.
    + specialize (Hb _ eq_refl).
      destruct (scan_batch Date_new (DateAt t) _) as [pushed found] eqn:Hscan.
      destruct (scan_batch_spec _ _ _ _ _ Hscan) as (Hall & rest & Hsplit & Hf & Ht).
      intros H; inv_exec H. right.
      split; [intros e He; apply Hone in He; discriminate|].
      exists pushed, rest. rewrite received_one. cbn [batches last]. rewrite Hb.
      split; [|split].
      * split; [exact Hsplit|]. split; [exact Hall|].
        destruct found; [right; apply Ht; reflexivity|left; apply Hf; reflexivity].
      * exists pushed. exact Hsplit.
      * unfold limited.
        assert (Hz : (M =? 0) = false) by (apply Z.eqb_neq; lia).
        assert (Hp0 : (0 <? M) = false) by (apply Z.ltb_ge; lia).
        rewrite Hz, Hp0. cbn [negb].
        destruct found.
        -- destruct (Ht eq_refl) as (m & rest' & -> & _). reflexivity.
        -- rewrite (Hf eq_refl). reflexivity.
    + intros H; inv_exec H. left. exists e. split; [|reflexivity].
      exists 0%nat. unfold io. eexists _, _, _. split; [reflexivity|].
      rewrite Nat.add_0_r. exact Hans.
  - match goal with |- context [exec w (paginate ?a1 ?a2 ?a3 ?a4 ?a5 ?a6 ?a7 ?a8) ?s ?k] =>
      destruct (exec w (paginate a1 a2 a3 a4 a5 a6 a7 a8) s k) as [[st2 r2] tr2] eqn:Hrec end.
    pose proof Hrec as Hpages.
    apply (paginate_pages Date_new w a _ _ _ st) in Hpages; [|apply caught_up_keeps].
    destruct Hpages as (_ & Hfail & _).
    destruct r2 as [out|e].
    + intros H; inv_exec H. right.
      split; [intros e He; apply Hfail in He; discriminate|].
      apply paginate_collects in Hrec.
      destruct Hrec as (pushed & rest & Hsplits & Hlast & Hout).
      exists pushed, rest. split; [exact Hsplits|]. split; [exact Hlast|].
      cbn [app] in Hout. unfold limited. fold M.
      destruct (M =? 0) eqn:Hz; cbn [negb].
      * apply Z.eqb_eq in Hz. destruct Hout as [->|(Hnz & _)]; [reflexivity|contradiction].
      * apply Z.eqb_neq in Hz.
        assert (HM : 0 < M) by lia.
        assert (Hp0 : (0 <? M) = true) by (apply Z.ltb_lt; exact HM).
        rewrite Hp0. destruct Hout as [->|(_ & _ & ->)];
          rewrite !(keep_before_positive _ _ HM), ?firstn_twice; reflexivity.
    + intros H; inv_exec H. left. exists e. split; [|reflexivity].
      apply (paginate_exec Date_new) in Hrec.
      destruct Hrec as (_ & _ & _ & Herr & _). apply Herr. reflexivity.
Qed.

(** C2 (amended).  Called with a time bound [T] that is given and parses,
    its headers built, the tool returns the error object when a request
    failed.  When none failed it returns a listing, and what it lists is
    fixed by the messages received: they split into the messages
    [collected], all with [created >= T], and the [rest], which is empty
    or starts with a message that is not in range; the [rest] is the end
    of the last page fetched, so no page is fetched after a message out of
    range was met.  The listing holds the first [max] of the collected
    messages when [max] is positive (50 when it is left out), in the order
    they were received, and all of them when [max] is 0. *)
Theorem listing_since_filtered_ordered_bounded w a st n st' r tr T t st0 headers :
  after a = Some T -> T <> "" -> Date_new (JStr T) = DateAt t ->
  exec w (getWebexHeaders []) st n = (st0, Ok headers, []) ->
  exec w (executeFunction Date_new a) st n = (st', r, tr) ->
  (exists e, request_failed w n tr e /\ r = Ok (error_result e)) \/
  ((forall e, ~ request_failed w n tr e) /\
   exists collected rest msgs,
     r = Ok (listing_result (default_summarize a) T msgs) /\
     received w n tr = (collected ++ rest)%list /\
     Forall (in_range Date_new (DateAt t)) collected /\
     (rest = [] \/ exists m rest', rest = m :: rest' /\ ~ in_range Date_new (DateAt t) m) /\
     (exists pre, last (batches w n tr) [] = (pre ++ rest)%list) /\
     (0 < default_max a -> msgs = firstn (Z.to_nat (default_max a)) collected) /\
     (default_max a = 0 -> msgs = collected)).
Proof.
  intros Hafter Hne Hdate Hh H.
  destruct (executeFunction_listing _ _ _ _ _ _ _ _ _ _ _ Hafter Hne Hdate Hh H)
    as [Hfail|(Hok & collected & rest & (Hrecv & Hall & Hrest) & Hlast & Hr)].
  - left. exact Hfail.
  - right. split; [exact Hok|].
    exists collected, rest, (limited (default_max a) collected rest).
    split; [exact Hr|]. split; [exact Hrecv|]. split; [exact Hall|].
    split; [exact Hrest|]. split; [exact Hlast|].
    unfold limited. split.
    + intros HM.
      destruct (default_max a =? 0) eqn:Hz; [apply Z.eqb_eq in Hz; lia|].
      destruct (0 <? default_max a) eqn:Hp; [reflexivity|apply Z.ltb_ge in Hp; lia].
    + intros ->. reflexivity.
Qed.

(** C10.  The items of a result stand one by one for upstream messages,
    in order.  Without a time bound they stand for the items of the body
    received, and the rest of the body is returned as it is; a body
    without items is returned as it is.  With a time bound they stand for
    the collected messages, limited by [max].  When [summarize] is true
    (the default) an item is an object with exactly the seven properties
    [id], [personEmail], [personId], [created], [text], [parentId] and
    [roomType], each with the value the upstream message has for it;
    when it is false the item is the upstream message itself.  This is
    for a call whose headers were built and of which no request failed. *)
Theorem items_are_summaries_or_untouched w a st n st' r tr st0 headers :
  exec w (getWebexHeaders []) st n = (st0, Ok headers, []) ->
  exec w (executeFunction Date_new a) st n = (st', r, tr) ->
  (forall e, ~ request_failed w n tr e) ->
  (truthy_str (after a) = false ->
   exists data,
     answer w n (page_request a st headers (beforeMessage a) (default_max a)) = Ok data /\
     match items data with
     | Some msgs =>
         exists xs,
           r = Ok (JObj (("items", JArr xs) :: other_fields data)) /\
           Forall2 (presented (default_summarize a)) msgs xs
     | None => r = Ok (JObj (other_fields data))
     end) /\
  (forall T t,
     after a = Some T -> T <> "" -> Date_new (JStr T) = DateAt t ->
     exists collected rest xs,
       splits_at_boundary Date_new (DateAt t) (received w n tr) collected rest /\
       r = Ok (JObj [("items", JArr xs);
                     ("count", JNum (Z.of_nat (List.length xs)));
                     ("filtered", JBool true);
                     ("afterFilter", JStr T)]) /\
       Forall2 (presented (default_summarize a))
               (limited (default_max a) collected rest) xs).
Proof.
  intros Hh H Hok. split.
  - intros Hnone. revert Hh H Hok.
    rewrite getWebexHeaders_unfold, executeFunction_unfold. cbn zeta.
    destruct (facade_token (caught_up st)) as [token|e0]; [|discriminate].
    intros Hh. injection Hh as _ <-. change (spread (default_headers token) [])
      with (default_headers token).
    rewrite Hnone. cbn [negb].
    set (io := page_request a st (default_headers token) (beforeMessage a) (default_max a)).
    destruct (answer w n io) as [data|e] eqn:Hans.
    + intros H _; inv_exec H. exists data. split; [reflexivity|].
      unfold body_to_js.
      destruct (items data) as [msgs|] eqn:Hitems.
      * exists (map JObj (if default_summarize a then map summarizeMessage msgs else msgs)).
        split; [|apply presented_items].
        destruct (default_summarize a); cbn; rewrite ?Hitems; reflexivity.
      * destruct (default_summarize a); cbn; rewrite ?Hitems; reflexivity.
    + intros H Hok; inv_exec H. exfalso. apply (Hok e).
      exists 0%nat. unfold io, page_request. eexists _, _, _. split; [reflexivity|].
      rewrite Nat.add_0_r. exact Hans.
  - intros T t Hafter Hne Hdate.
    destruct (executeFunction_listing _ _ _ _ _ _ _ _ _ _ _ Hafter Hne Hdate Hh H)
      as [(e & Hfail & _)|(_ & collected & rest & Hsplits & _ & Hr)].
    + destruct (Hok _ Hfail).
    + exists collected, rest,
        (map JObj (if default_summarize a
                   then map summarizeMessage (limited (default_max a) collected rest)
                   else limited (default_max a) collected rest)).
      split; [exact Hsplits|]. split; [|apply presented_items].
      rewrite Hr. unfold listing_result.
      rewrite length_map. destruct (default_summarize a); rewrite ?length_map; reflexivity.
Qed.

End Results.

(** * Scenarios run through the theorems *)

Import Example.

(** ** Token lifecycle *)

(** A cached token with an hour to live is returned as it is; a token the
    Keychain holds for six more hours is adopted and its refresh planned;
    with nothing cached or stored, the browser is opened once and the
    token it hands out is cached with the expiry it reports. *)
Lemma getValidToken_resolution_witness :
  (exists st' r tr,
     exec (steady (empty_keychain (Err closed)))
          (getValidToken Iso.iso_Date_new Iso.iso_toISOString)
          (holding "A" (t0 + hour)) 0 = (st', r, tr) /\
     st' = holding "A" (t0 + hour) /\ r = Ok "A" /\ tr = []) /\
  (exists st' r tr,
     exec (steady (keychain_with "A" "2024-01-27T06:00:00.000Z" (Err closed)))
          (getValidToken Iso.iso_Date_new Iso.iso_toISOString)
          (initial_state mac t0) 0 = (st', r, tr) /\
     r = Ok "A" /\ filter is_browser_fetch tr = [] /\
     TM._cachedToken (manager st') = Some "A" /\
     timers st' = [mkTimer 0 PlannedRefresh (Num (5 * hour + 30 * minute - 2)) (t0 + 2)]) /\
  (exists st' r tr,
     exec (steady (empty_keychain (Ok token_A)))
          (getValidToken Iso.iso_Date_new Iso.iso_toISOString)
          (initial_state mac t0) 0 = (st', r, tr) /\
     List.length (filter is_browser_fetch tr) = 1%nat /\
     r = Ok "A" /\
     TM._tokenExpiresAt (manager st') = Some (DateAt (t0 + 12 * hour))).
Proof.
  split; [|split].
  - destruct (exec (steady (empty_keychain (Err closed)))
                   (getValidToken Iso.iso_Date_new Iso.iso_toISOString)
                   (holding "A" (t0 + hour)) 0) as [[st' r] tr] eqn:H.
    exists st', r, tr. split; [reflexivity|].
    destruct (getValidToken_resolution _ _ _ _ _ _ _ _ H) as (Ha & _).
    apply (Ha "A" (t0 + hour)); [reflexivity | discriminate | reflexivity | reflexivity].
  - destruct (exec (steady (keychain_with "A" "2024-01-27T06:00:00.000Z" (Err closed)))
                   (getValidToken Iso.iso_Date_new Iso.iso_toISOString)
                   (initial_state mac t0) 0) as [[st' r] tr] eqn:H.
    exists st', r, tr. split; [reflexivity|].
    destruct (getValidToken_resolution _ _ _ _ _ _ _ _ H) as (_ & Hb & _).
    destruct (Hb eq_refl) as (st1 & stored & tr1 & HL & Hadopt & _).
    vm_compute in HL. injection HL as <- <- <-.
    destruct (Hadopt "A" (t0 + 6 * hour) eq_refl eq_refl)
      as (-> & _ & Hnf & Hc & _ & _ & Ht & _).
    repeat split; assumption.
  - destruct (exec (steady (empty_keychain (Ok token_A)))
                   (getValidToken Iso.iso_Date_new Iso.iso_toISOString)
                   (initial_state mac t0) 0) as [[st' r] tr] eqn:H.
    exists st', r, tr. split; [reflexivity|].
    destruct (getValidToken_resolution _ _ _ _ _ _ _ _ H) as (_ & Hb & _).
    destruct (Hb eq_refl) as (st1 & stored & tr1 & HL & _ & Hmiss).
    vm_compute in HL. injection HL as <- <- <-.
    destruct Hmiss as (Hone & _ & Hfetched); [intros rec [=]|].
    assert (Hr : r = Ok "A") by (vm_compute in H; injection H as _ <- _; reflexivity).
    split; [exact Hone|]. split; [exact Hr|].
    destruct (Hfetched "A" Hr) as (E & Hans & Hexp).
    cbn in Hans. injection Hans as <-. exact Hexp.
Defined.

(** The browser hands out a token that expired an hour ago:
    [getValidToken] caches it and returns it. *)
Lemma expired_login_is_returned :
  exists st' tr,
    exec (steady (empty_keychain (Ok token_old)))
         (getValidToken Iso.iso_Date_new Iso.iso_toISOString)
         (initial_state mac t0) 0 = (st', Ok "OLD", tr) /\
    List.length (filter is_browser_fetch tr) = 1%nat /\
    TM._cachedToken (manager st') = Some "OLD" /\
    TM._tokenExpiresAt (manager st') = Some (DateAt (t0 - hour)) /\
    t0 - hour < clock st'.
Proof.
  eexists _, _. split; [vm_compute; reflexivity|]. repeat split.
Qed.

(** A token with ten minutes to live gets the immediate refresh, due a
    second later; a token with twelve hours to live gets the planned
    refresh, due half an hour before it expires. *)
Lemma refresh_scheduled_ahead_of_expiry_witness :
  (exists st' t,
     exec (steady (empty_keychain (Err closed)))
          (scheduleRefresh (DateAt (t0 + 10 * minute))) (initial_state mac t0) 0
     = (st', Ok tt, []) /\
     timers st' = [t] /\ timer_kind t = ImmediateRefresh /\ timer_delay t = Num 1000 /\
     due_from t (t0 + 1000)) /\
  (exists st' tr t,
     exec (steady (empty_keychain (Ok token_A)))
          (forceRefresh Iso.iso_toISOString) (initial_state mac t0) 0
     = (st', Ok "A", tr) /\
     timers st' = [t] /\ timer_kind t = PlannedRefresh /\
     timer_delay t = Num 41399995 /\
     due_from t (t0 + 12 * hour - 30 * minute)).
Proof.
  destruct (refresh_scheduled_ahead_of_expiry Iso.iso_toISOString
              (steady (empty_keychain (Err closed))) (initial_state mac t0) 0)
    as (Hsched & _).
  destruct (refresh_scheduled_ahead_of_expiry Iso.iso_toISOString
              (steady (empty_keychain (Ok token_A))) (initial_state mac t0) 0)
    as (_ & Hforce).
  split.
  - destruct (Hsched (t0 + 10 * minute)) as (st' & t & Hexec & Ht & _ & _ & Harmed).
    exists st', t. split; [exact Hexec|]. split; [exact Ht|]. exact Harmed.
  - destruct (exec (steady (empty_keychain (Ok token_A)))
                   (forceRefresh Iso.iso_toISOString) (initial_state mac t0) 0)
      as [[st' r] tr] eqn:H.
    assert (Hr : r = Ok "A") by (vm_compute in H; injection H as _ <- _; reflexivity).
    subst r.
    destruct (Hforce _ _ _ eq_refl) as (E & t & Hans & Ht & _ & _ & Harmed).
    injection Hans as <-.
    assert (Hclock : clock st' = t0 + 5) by (vm_compute in H; injection H as <- _; reflexivity).
    exists st', tr, t. split; [reflexivity|]. split; [exact Ht|].
    rewrite Hclock in Harmed. exact Harmed.
Defined.

(** The planned refresh of a booted manager fails: one retry is armed,
    300000 ms later, and the closure returns normally. *)
Lemma scheduled_refresh_failure_is_contained_witness :
  exists st1 st',
    exec (steady (empty_keychain (Err closed))) (forceRefresh Iso.iso_toISOString)
         (entering PlannedRefresh (initial_state mac t0)) 0
    = (st1, Err closed, [FetchTokenFromBrowser]) /\
    exec (steady (empty_keychain (Err closed)))
         (timerCallback Iso.iso_toISOString PlannedRefresh) (initial_state mac t0) 0
    = (st', Ok tt, [FetchTokenFromBrowser]) /\
    timers st' = [mkTimer 0 RetryRefresh (Num 300000) (t0 + 1)].
Proof.
  destruct (exec (steady (empty_keychain (Err closed))) (forceRefresh Iso.iso_toISOString)
                 (entering PlannedRefresh (initial_state mac t0)) 0)
    as [[st1 r] tr] eqn:H.
  assert (Hr : r = Err closed /\ tr = [FetchTokenFromBrowser] /\ clock st1 = t0 + 1 /\
               timer_seq st1 = 0%nat)
    by (vm_compute in H; injection H as <- <- <-; repeat split).
  destruct Hr as (-> & -> & Hclock & Hseq).
  destruct (scheduled_refresh_failure_is_contained Iso.iso_toISOString _ _ _ _ _ _ _ H)
    as (st' & Hcb & Ht1 & Hafter & _).
  exists st1, st'. split; [reflexivity|]. split; [exact Hcb|].
  rewrite Hafter, Ht1, Hclock, Hseq. reflexivity.
Defined.

(** The four ways [initializeAuth] can go. *)
Lemma initializeAuth_first_match_witness :
  (exists st' tr,
     exec (steady (empty_keychain (Err closed)))
          (initializeAuth Iso.iso_Date_new Iso.iso_toISOString)
          (initial_state with_static_key t0) 0 = (st', Ok tt, tr) /\
     Cfg._authMethod (config st') = Some Static) /\
  (exists st' tr,
     exec (steady (empty_keychain (Ok token_A)))
          (initializeAuth Iso.iso_Date_new Iso.iso_toISOString)
          (initial_state mac t0) 0 = (st', Ok tt, tr) /\
     Cfg._authMethod (config st') = Some AutoRefresh) /\
  (exists st' tr,
     exec (steady (empty_keychain (Ok token_A)))
          (initializeAuth Iso.iso_Date_new Iso.iso_toISOString)
          (initial_state (mkProcess None (Some "true") None "linux" true None) t0) 0
     = (st', Err (new_Error PLATFORM_UNSUPPORTED), tr)) /\
  (exists st' tr,
     exec (steady (empty_keychain (Ok token_A)))
          (initializeAuth Iso.iso_Date_new Iso.iso_toISOString)
          (initial_state (mkProcess None None None "linux" false None) t0) 0
     = (st', Err (new_Error NO_AUTH_CONFIGURED), tr)).
Proof.
  repeat split.
  - destruct (exec (steady (empty_keychain (Err closed)))
                   (initializeAuth Iso.iso_Date_new Iso.iso_toISOString)
                   (initial_state with_static_key t0) 0) as [[st' r] tr] eqn:H.
    pose proof (initializeAuth_first_match _ _ _ _ _ _ _ _ H) as T.
    cbn in T. destruct T as (-> & _ & Hm & _). eauto.
  - destruct (exec (steady (empty_keychain (Ok token_A)))
                   (initializeAuth Iso.iso_Date_new Iso.iso_toISOString)
                   (initial_state mac t0) 0) as [[st' r] tr] eqn:H.
    pose proof (initializeAuth_first_match _ _ _ _ _ _ _ _ H) as T.
    cbn in T. destruct T as (st0 & st1 & r1 & HG & _ & Hr1).
    assert (r = Ok tt) by (vm_compute in H; injection H as _ <- _; reflexivity).
    subst r. destruct r1 as [t|e]; [|destruct Hr1 as ([=] & _)].
    destruct Hr1 as (_ & Hm & _). eauto.
  - destruct (exec (steady (empty_keychain (Ok token_A)))
                   (initializeAuth Iso.iso_Date_new Iso.iso_toISOString)
                   (initial_state (mkProcess None (Some "true") None "linux" true None) t0) 0)
      as [[st' r] tr] eqn:H.
    pose proof (initializeAuth_first_match _ _ _ _ _ _ _ _ H) as T.
    cbn in T. destruct T as (-> & _). eauto.
  - destruct (exec (steady (empty_keychain (Ok token_A)))
                   (initializeAuth Iso.iso_Date_new Iso.iso_toISOString)
                   (initial_state (mkProcess None None None "linux" false None) t0) 0)
      as [[st' r] tr] eqn:H.
    pose proof (initializeAuth_first_match _ _ _ _ _ _ _ _ H) as T.
    cbn in T. destruct T as (-> & _). eauto.
Defined.

(** The immediate refresh is not retried.  At start-up
    the Keychain holds a token with ten minutes to live; [getValidToken]
    adopts it and arms the immediate refresh; the timer fires a second
    later and its login fails.  The failure is logged, the closure returns
    normally, and nothing is armed: no retry follows. *)
Lemma immediate_refresh_failure_arms_no_retry :
  exists l,
    run Iso.iso_Date_new Iso.iso_toISOString failing_immediate_refresh booted = Some l /\
    timers (loop_state l) = [] /\
    blocked l = [] /\
    settled l = [(FromCaller CallGetValidToken, Ok (Some "A"));
                 (FromTimer ImmediateRefresh, Ok None)] /\
    console (loop_state l) = [LogExpiringSoon; LogUsingKeychainToken;
                              LogStartingExtraction;
                              LogScheduledFailed "browser window closed"].
Proof.
  eexists. split; [vm_compute; reflexivity|]. repeat split.
Qed.

(** Two calls of [forceRefresh] in immediate succession, both succeeding,
    leave one timer armed: the second to complete clears the timer of the
    first. *)
Lemma two_refreshes_in_succession_arm_one_timer :
  exists l t,
    run Iso.iso_Date_new Iso.iso_toISOString back_to_back_refreshes booted = Some l /\
    settled l = [(FromCaller CallForceRefresh, Ok (Some "B"));
                 (FromCaller CallForceRefresh, Ok (Some "A"))] /\
    timers (loop_state l) = [t] /\
    TM._refreshTimeout (manager (loop_state l)) = Some (timer_id t).
Proof.
  eexists _, _. split; [vm_compute; reflexivity|]. repeat split.
Qed.

(** The start-up of [failing_immediate_refresh] is a schedule in which
    the call and the timer take turns, and so it ends with one timer at
    most. *)
Lemma serial_run_keeps_one_timer_witness :
  one_at_a_time booted /\
  all_in_turn Iso.iso_Date_new Iso.iso_toISOString failing_immediate_refresh booted /\
  exists l,
    run Iso.iso_Date_new Iso.iso_toISOString failing_immediate_refresh booted = Some l /\
    single_timer (loop_state l).
Proof.
  assert (Hboot : one_at_a_time booted) by (split; [left; reflexivity|exact I]).
  assert (Hturns : all_in_turn Iso.iso_Date_new Iso.iso_toISOString
                     failing_immediate_refresh booted)
    by (vm_compute; repeat split).
  split; [exact Hboot|]. split; [exact Hturns|].
  eexists. split; [vm_compute; reflexivity|].
  eapply serial_run_keeps_one_timer; [exact Hboot|exact Hturns|vm_compute; reflexivity].
Defined.

(** In [overlapping_refreshes] a caller comes in while the refresh of the
    timer waits for the browser: the schedule does not take turns. *)
Lemma overlapping_schedule_does_not_take_turns :
  ~ all_in_turn Iso.iso_Date_new Iso.iso_toISOString overlapping_refreshes booted.
Proof.
  vm_compute. intros H.
  repeat match type of H with
         | _ /\ _ => destruct H as [? H]
         end.
  discriminate.
Qed.

(** A planned refresh does not fire early: the timer armed for the
    twelve-hour token is not due a millisecond after it was armed. *)
Lemma planned_refresh_is_not_due_early :
  run Iso.iso_Date_new Iso.iso_toISOString early_expire booted = None.
Proof. vm_compute. reflexivity. Qed.

(** C7.  A refresh planned too far ahead fires at once.  The login at
    start-up hands out a token that expires in thirty days;
    [scheduleRefresh] logs that it schedules the refresh in 43170 minutes
    and hands [setTimeout] the delay 2590198996 ms, which is above 2^31-1:
    the timer is due one millisecond after it was armed, and fires then.
    The refresh it runs opens the browser again, fetches a token that
    again expires in thirty days, and arms the next timer the same way:
    that one, too, is due a millisecond later, almost thirty days before
    [refreshAt]. *)
Theorem far_expiry_refresh_fires_at_once :
  exists l t,
    run Iso.iso_Date_new Iso.iso_toISOString far_expiry_refreshes booted = Some l /\
    blocked l = [] /\
    settled l = [(FromCaller CallForceRefresh, Ok (Some "F"));
                 (FromTimer PlannedRefresh, Ok None)] /\
    console (loop_state l) =
      [LogStartingExtraction; LogKeychainStored; LogScheduling (Num 2590198996);
       LogTokenRefreshed "2024-02-26T00:00:00.000Z";
       LogExecutingScheduled;
       LogStartingExtraction; LogKeychainStored; LogScheduling (Num 2590197991);
       LogTokenRefreshed "2024-02-26T00:00:00.000Z"] /\
    TM._tokenExpiresAt (manager (loop_state l)) = Some (DateAt (t0 + 30 * day)) /\
    clock (loop_state l) = t0 + 2009 /\
    timers (loop_state l) = [t] /\
    timer_kind t = PlannedRefresh /\
    timer_set_at t = t0 + 2009 /\
    timer_delay t = Num (t0 + 30 * day - 30 * minute - (t0 + 2009)) /\
    is_due (t0 + 2010) t = true /\
    t0 + 2010 < t0 + 30 * day - 30 * minute.
Proof.
  eexists _, _. split; [vm_compute; reflexivity|].
  repeat (split; [reflexivity|]). reflexivity.
Qed.

(** C6.  Two refreshes that overlap leave two timers armed.  The planned
    timer fires and its [forceRefresh] awaits the browser; meanwhile a
    caller runs [forceRefresh] to the end, which arms timer 1; then the
    login started by the timer fails, and its closure arms the retry as
    timer 2 and overwrites [_refreshTimeout] without clearing timer 1. *)
Theorem overlapping_refreshes_arm_two_timers :
  exists l t1 t2,
    run Iso.iso_Date_new Iso.iso_toISOString overlapping_refreshes booted = Some l /\
    blocked l = [] /\
    timers (loop_state l) = [t1; t2] /\
    timer_id t1 = 1%nat /\ timer_kind t1 = PlannedRefresh /\
    timer_id t2 = 2%nat /\ timer_kind t2 = RetryRefresh /\
    TM._refreshTimeout (manager (loop_state l)) = Some 2%nat /\
    ~ single_timer (loop_state l).
Proof.
  eexists _, _, _. split; [vm_compute; reflexivity|].
  repeat (split; [reflexivity|]).
  intros [Hnone | (t & Hone & _)]; discriminate.
Qed.

(** ** Listing tool *)

(** The bounds used below are given, that is, not the empty string. *)
Lemma nonempty_bound : "2024-01-27T00:00:00Z" <> "".
Proof. discriminate. Qed.

(** The messages endpoint of the examples answers every request. *)
Lemma api_never_fails pages n tr e : ~ request_failed (api pages) n tr e.
Proof. intros (i & url & q & h & _ & He). cbn in He. discriminate. Qed.

(** Three messages in one page, the third older than the bound, and
    [max = 1]: the first two are collected, and the first one comes
    back. *)
Lemma listing_since_filtered_ordered_bounded_witness :
  exists st' tr,
    exec (api (one_page [m1; m2; m3]))
         (executeFunction Iso.iso_Date_new (list_messages since_jan_27 (Some 1))) ready 0
    = (st', Ok (listing_result true "2024-01-27T00:00:00Z" [m1]), tr).
Proof.
  destruct (exec (api (one_page [m1; m2; m3]))
                 (executeFunction Iso.iso_Date_new (list_messages since_jan_27 (Some 1)))
                 ready 0) as [[st' r] tr] eqn:H.
  assert (Htr : received (api (one_page [m1; m2; m3])) 0 tr = [m1; m2; m3])
    by (vm_compute in H; injection H as _ _ <-; reflexivity).
  destruct (listing_since_filtered_ordered_bounded Iso.iso_Date_new
              (api (one_page [m1; m2; m3])) (list_messages since_jan_27 (Some 1))
              ready 0 st' r tr "2024-01-27T00:00:00Z" t0
              ready [("Accept", JStr "application/json"); ("Authorization", JStr "Bearer abc")]
              eq_refl nonempty_bound eq_refl eq_refl H)
    as [(e & Hfail & _) | (_ & collected & rest & msgs & Hl & Hrecv & Hall & Hrest & _ & Hmax & _)].
  - destruct (api_never_fails _ _ _ _ Hfail).
  - assert (Hc : collected = in_range_prefix Iso.iso_Date_new (DateAt t0)
                               (received (api (one_page [m1; m2; m3])) 0 tr))
      by (apply splits_at_boundary_unique with (rest := rest); repeat split; assumption).
    rewrite Htr in Hc.
    pose proof (Hmax eq_refl) as Hm. rewrite Hc in Hm. vm_compute in Hm.
    exists st', tr. rewrite Hl, Hm. reflexivity.
Defined.

(** With [max = 0] the tool returns both messages in range: more than 0. *)
Lemma max_zero_returns_every_message :
  exists st' tr,
    exec (api (one_page [m1; m2; m3]))
         (executeFunction Iso.iso_Date_new (list_messages since_jan_27 (Some 0))) ready 0
    = (st', Ok (listing_result true "2024-01-27T00:00:00Z" [m1; m2]), tr) /\
    ~ (Z.of_nat (List.length [m1; m2]) <= 0).
Proof.
  eexists _, _. split; [vm_compute; reflexivity|]. cbn. lia.
Defined.



(** A room whose every page is full of messages in range, asked with
    [max = 0] and a time bound: 20 requests. *)
Lemma max_zero_with_bound_fetches_twenty_batches :
  List.length
    (filter is_http
       (snd (exec (api (fun _ => repeat m1 100))
                  (executeFunction Iso.iso_Date_new (list_messages since_jan_27 (Some 0)))
                  ready 0)))
  = 20%nat /\
  max (list_messages since_jan_27 (Some 0)) = Some 0 /\
  20%nat <> 1%nat.
Proof. split; [vm_compute; reflexivity|]. split; [reflexivity|discriminate]. Qed.

(** One request without a time bound, also with [max = 0]; with a time
    bound and one short page, one request again, within the bounds. *)
Lemma requests_per_call_witness :
  (exists st' r tr,
     exec (api (one_page [m1; m2; m3]))
          (executeFunction Iso.iso_Date_new (list_messages None (Some 0))) ready 0
     = (st', r, tr) /\
     List.length (filter is_http tr) = 1%nat) /\
  (exists st' r tr,
     exec (api (one_page [m1; m2; m3]))
          (executeFunction Iso.iso_Date_new (list_messages since_jan_27 (Some 0))) ready 0
     = (st', r, tr) /\
     (1 <= List.length (filter is_http tr) <= 20)%nat).
Proof.
  split.
  - destruct (exec (api (one_page [m1; m2; m3]))
                   (executeFunction Iso.iso_Date_new (list_messages None (Some 0))) ready 0)
      as [[st' r] tr] eqn:H.
    exists st', r, tr. split; [reflexivity|].
    destruct (requests_per_call Iso.iso_Date_new (api (one_page [m1; m2; m3]))
                (list_messages None (Some 0)) ready 0 st' r tr
                ready [("Accept", JStr "application/json"); ("Authorization", JStr "Bearer abc")]
                eq_refl H) as (Hone & _).
    apply Hone. reflexivity.
  - destruct (exec (api (one_page [m1; m2; m3]))
                   (executeFunction Iso.iso_Date_new (list_messages since_jan_27 (Some 0)))
                   ready 0) as [[st' r] tr] eqn:H.
    exists st', r, tr. split; [reflexivity|].
    destruct (requests_per_call Iso.iso_Date_new (api (one_page [m1; m2; m3]))
                (list_messages since_jan_27 (Some 0)) ready 0 st' r tr
                ready [("Accept", JStr "application/json"); ("Authorization", JStr "Bearer abc")]
                eq_refl H) as (_ & Hmany).
    apply (Hmany "2024-01-27T00:00:00Z" t0 eq_refl nonempty_bound eq_refl).
Defined.

(** ["not-a-date"] is given, too. *)
Lemma not_a_date_nonempty : "not-a-date" <> "".
Proof. discriminate. Qed.

(** [after = "not-a-date"]: nothing is awaited and the error names the
    bound. *)
Lemma unparsable_after_fails_before_any_request_witness :
  exists st' r e,
    exec (api (one_page [m1; m2; m3]))
         (executeFunction Iso.iso_Date_new (list_messages (Some "not-a-date") None)) ready 0
    = (st', r, []) /\
    r = Ok (JObj [("error", JStr (if truthy (JStr (message e)) then message e
                                  else "An error occurred while listing messages."));
                  ("details", JStr (stack e))]) /\
    message e = "Invalid 'after' date format: not-a-date. Use ISO 8601 format (e.g., 2024-01-27T18:00:00Z).".
Proof.
  destruct (exec (api (one_page [m1; m2; m3]))
                 (executeFunction Iso.iso_Date_new (list_messages (Some "not-a-date") None))
                 ready 0) as [[st' r] tr] eqn:H.
  destruct (unparsable_after_fails_before_any_request Iso.iso_Date_new
              (api (one_page [m1; m2; m3])) (list_messages (Some "not-a-date") None)
              ready 0 st' r tr "not-a-date" eq_refl eq_refl H)
    as (Hgiven & _).
  destruct (Hgiven not_a_date_nonempty) as (-> & e & -> & He & _).
  exists st', (Ok (error_result e)), e. split; [reflexivity|]. split; [reflexivity|].
  destruct (He ready [("Accept", JStr "application/json"); ("Authorization", JStr "Bearer abc")]
               eq_refl) as (-> & _).
  reflexivity.
Defined.

(** An empty [after] does not parse, and it is read as no bound: one
    request is sent and the body comes back, its items summarised. *)
Lemma empty_after_sends_a_request :
  Iso.iso_Date_new (JStr "") = InvalidDate /\
  exists st' tr,
    exec (api (one_page [m1; m2; m3]))
         (executeFunction Iso.iso_Date_new (list_messages (Some "") None)) ready 0
    = (st', Ok (JObj [("items", JArr (map JObj (map summarizeMessage [m1; m2; m3])))]), tr) /\
    List.length (filter is_http tr) = 1%nat /\
    List.length tr = 1%nat.
Proof.
  split; [vm_compute; reflexivity|].
  eexists _, _. split; [vm_compute; reflexivity|]. split; reflexivity.
Qed.

(** Without a time bound the three messages of the page come back, each
    as its summary: the first keeps [text] and has no [roomId]. *)
Lemma items_are_summaries_or_untouched_witness :
  exists st' tr o others,
    exec (api (one_page [m1; m2; m3]))
         (executeFunction Iso.iso_Date_new (list_messages None None)) ready 0
    = (st', Ok (JObj [("items", JArr (JObj o :: others))]), tr) /\
    List.length others = 2%nat /\
    keys o = SUMMARY_FIELDS /\
    prop "text" o = JStr "hello" /\
    prop "id" o = JStr "M1" /\
    prop "roomId" o = JUndefined.
Proof.
  destruct (exec (api (one_page [m1; m2; m3]))
                 (executeFunction Iso.iso_Date_new (list_messages None None)) ready 0)
    as [[st' r] tr] eqn:H.
  assert (Hok : forall e, ~ request_failed (api (one_page [m1; m2; m3])) 0 tr e)
    by (intros e (i & url & q & h & _ & He); cbn in He; discriminate).
  destruct (items_are_summaries_or_untouched Iso.iso_Date_new
              (api (one_page [m1; m2; m3])) (list_messages None None)
              ready 0 st' r tr
              ready [("Accept", JStr "application/json"); ("Authorization", JStr "Bearer abc")]
              eq_refl H Hok)
    as (Hplain & _).
  destruct (Hplain eq_refl) as (data & Hans & Hitems).
  cbn in Hans. injection Hans as <-. cbn in Hitems.
  destruct Hitems as (xs & -> & Hxs).
  inversion Hxs as [|msg x msgs xs' (o & -> & Hk & Hcopy & Hdrop) Hrest]; subst.
  exists st', tr, o, xs'. split; [reflexivity|].
  split; [apply Forall2_length in Hrest; symmetry; exact Hrest|].
  split; [exact Hk|]. split; [|split].
  - rewrite Hcopy; [reflexivity|]. cbn. tauto.
  - rewrite Hcopy; [reflexivity|]. cbn. tauto.
  - apply Hdrop. cbn. intros [X|[X|[X|[X|[X|[X|[X|[]]]]]]]]; discriminate.
Defined.

(** ** The rest of the code *)

(** Storing a token whose expiry is an invalid date: the old entries are
    deleted, the token is written, and the call throws before the expiry
    is. *)
Lemma storeToken_commands_witness :
  exists st',
    exec (steady (empty_keychain (Err closed)))
         (storeToken Iso.iso_toISOString "A" InvalidDate) (initial_state mac t0) 0
    = (st', Err RANGE_ERROR,
       [SecurityDelete KEYCHAIN_ACCOUNT; SecurityDelete KEYCHAIN_EXPIRY_ACCOUNT;
        SecurityAdd KEYCHAIN_ACCOUNT "A"]).
Proof.
  destruct (exec (steady (empty_keychain (Err closed)))
                 (storeToken Iso.iso_toISOString "A" InvalidDate) (initial_state mac t0) 0)
    as [[st' r] tr] eqn:H.
  exists st'.
  destruct (storeToken_commands Iso.iso_toISOString _ _ _ _ _ _ _ _ H)
    as (_ & rest & -> & -> & ->).
  reflexivity.
Defined.

(** A Keychain holding "A" until 06:00. *)
Lemma loadToken_result_witness :
  exists st' tr,
    exec (steady (keychain_with "A" "2024-01-27T06:00:00.000Z" (Err closed)))
         (loadToken Iso.iso_Date_new) (initial_state mac t0) 0
    = (st', Ok (Some (mkTokenRecord "A" (DateAt (t0 + 6 * hour)))), tr) /\
    quiet (initial_state mac t0) st'.
Proof.
  destruct (exec (steady (keychain_with "A" "2024-01-27T06:00:00.000Z" (Err closed)))
                 (loadToken Iso.iso_Date_new) (initial_state mac t0) 0)
    as [[st' r] tr] eqn:H.
  exists st', tr.
  destruct (loadToken_result Iso.iso_Date_new _ _ _ _ _ _ H) as (Hq & _ & Hr).
  split; [|exact Hq]. rewrite Hr. reflexivity.
Defined.

Lemma isTokenValid_result_witness :
  exists st' tr,
    exec (steady (keychain_with "A" "2024-01-27T06:00:00.000Z" (Err closed)))
         (isTokenValid Iso.iso_Date_new) (initial_state mac t0) 0
    = (st', Ok true, tr).
Proof.
  destruct (exec (steady (keychain_with "A" "2024-01-27T06:00:00.000Z" (Err closed)))
                 (isTokenValid Iso.iso_Date_new) (initial_state mac t0) 0)
    as [[st' r] tr] eqn:H.
  exists st', tr.
  assert (Hclock : clock st' = t0 + 2) by (vm_compute in H; injection H as <- _ _; reflexivity).
  destruct (isTokenValid_result Iso.iso_Date_new _ _ _ _ _ _ H)
    as (_ & _ & valid & -> & Hvalid).
  destruct Hvalid as [_ Hv]. rewrite Hv; [reflexivity|].
  split; [reflexivity|].
  exists "A", "2024-01-27T06:00:00.000Z", (t0 + 6 * hour).
  split; [reflexivity|]. split; [discriminate|].
  split; [reflexivity|]. split; [discriminate|].
  split; [vm_compute; reflexivity|].
  rewrite Hclock. vm_compute. reflexivity.
Defined.

(** A Keychain whose expiry entry does not parse. *)
Lemma getTokenStatus_result_witness :
  exists st' tr,
    exec (steady (keychain_with "A" "soon" (Err closed)))
         (getTokenStatus Iso.iso_Date_new Iso.iso_toISOString Iso.iso_minutes_text)
         (initial_state mac t0) 0
    = (st', Err RANGE_ERROR, tr) /\ no_network tr.
Proof.
  destruct (exec (steady (keychain_with "A" "soon" (Err closed)))
                 (getTokenStatus Iso.iso_Date_new Iso.iso_toISOString Iso.iso_minutes_text)
                 (initial_state mac t0) 0)
    as [[st' r] tr] eqn:H.
  exists st', tr.
  destruct (getTokenStatus_result Iso.iso_Date_new Iso.iso_toISOString Iso.iso_minutes_text
              _ _ _ _ _ _ H) as (_ & Hn & Hr).
  split; [|exact Hn]. cbn in Hr. rewrite Hr. reflexivity.
Defined.

Lemma forceRefresh_success_is_published_witness :
  exists st',
    exec (steady (empty_keychain (Ok token_A)))
         (forceRefresh Iso.iso_toISOString) listening 0
    = (st', Ok "A", refresh_commands "A" "2024-01-27T12:00:00.000Z") /\
    Cfg._cachedToken (config st') = Some "A" /\
    TM._cachedToken (manager st') = Some "A".
Proof.
  destruct (exec (steady (empty_keychain (Ok token_A)))
                 (forceRefresh Iso.iso_toISOString) listening 0)
    as [[st' r] tr] eqn:H.
  assert (Hr : r = Ok "A") by (vm_compute in H; injection H as _ <- _; reflexivity).
  subst r. exists st'.
  destruct (forceRefresh_success_is_published Iso.iso_toISOString _ _ _ _ _ _ H)
    as (_ & E & Hans & -> & Hm & _ & Hc).
  injection Hans as <-.
  split; [reflexivity|]. split; [exact Hc|exact Hm].
Defined.

Lemma forceRefresh_failure_changes_nothing_witness :
  exists st',
    exec (steady (empty_keychain (Err closed)))
         (forceRefresh Iso.iso_toISOString) (holding "A" (t0 + hour)) 0
    = (st', Err closed, [FetchTokenFromBrowser]) /\
    manager st' = manager (holding "A" (t0 + hour)) /\ timers st' = [].
Proof.
  destruct (exec (steady (empty_keychain (Err closed)))
                 (forceRefresh Iso.iso_toISOString) (holding "A" (t0 + hour)) 0)
    as [[st' r] tr] eqn:H.
  assert (Hr : exists e, r = Err e) by (vm_compute in H; injection H as _ <- _; eauto).
  destruct Hr as [e ->]. exists st'.
  destruct (forceRefresh_failure_changes_nothing Iso.iso_toISOString _ _ _ _ _ _ H)
    as (Hm & _ & Ht & -> & ->).
  split; [reflexivity|]. split; [exact Hm|exact Ht].
Defined.

Lemma getValidToken_needs_macOS_witness :
  exists st',
    exec (steady (empty_keychain (Ok token_A)))
         (getValidToken Iso.iso_Date_new Iso.iso_toISOString) (initial_state linux_auto t0) 0
    = (st', Err KEYCHAIN_UNSUPPORTED, [FetchTokenFromBrowser]) /\
    TM._cachedToken (manager st') = None.
Proof.
  destruct (exec (steady (empty_keychain (Ok token_A)))
                 (getValidToken Iso.iso_Date_new Iso.iso_toISOString)
                 (initial_state linux_auto t0) 0)
    as [[st' r] tr] eqn:H.
  exists st'.
  destruct (getValidToken_needs_macOS Iso.iso_Date_new Iso.iso_toISOString
              (steady (empty_keychain (Ok token_A))) (initial_state linux_auto t0) 0 st' r tr
              eq_refl eq_refl H) as (-> & Hm & _ & Hr).
  cbn in Hr. rewrite Hr, Hm. split; reflexivity.
Defined.

Lemma clearCachedToken_forgets_witness :
  exists st',
    exec (steady (empty_keychain (Err closed))) clearCachedToken (holding "A" (t0 + hour)) 0
    = (st', Ok tt, [SecurityDelete KEYCHAIN_ACCOUNT; SecurityDelete KEYCHAIN_EXPIRY_ACCOUNT]) /\
    exec (steady (empty_keychain (Err closed))) getCachedToken st' 0 = (st', Ok None, []).
Proof.
  destruct (exec (steady (empty_keychain (Err closed))) clearCachedToken
                 (holding "A" (t0 + hour)) 0) as [[st' r] tr] eqn:H.
  exists st'.
  destruct (clearCachedToken_forgets Iso.iso_Date_new Iso.iso_toISOString _ _ _ _ _ _ H)
    as (-> & -> & _ & _ & _ & Hnone & _).
  split; [reflexivity|apply Hnone].
Defined.

Lemma getCachedToken_agrees_with_getValidToken_witness :
  exec (steady (empty_keychain (Err closed))) getCachedToken (holding "A" (t0 + hour)) 0
  = (holding "A" (t0 + hour), Ok (Some "A"), []) /\
  exec (steady (empty_keychain (Err closed)))
       (getValidToken Iso.iso_Date_new Iso.iso_toISOString) (holding "A" (t0 + hour)) 0
  = (holding "A" (t0 + hour), Ok "A", []).
Proof.
  destruct (exec (steady (empty_keychain (Err closed))) getCachedToken
                 (holding "A" (t0 + hour)) 0) as [[st' r] tr] eqn:H.
  assert (Hr : r = Ok (Some "A")) by (vm_compute in H; injection H as _ <- _; reflexivity).
  destruct (getCachedToken_agrees_with_getValidToken Iso.iso_Date_new Iso.iso_toISOString
              _ _ _ _ _ _ H) as (-> & -> & cached & Hc & Hcases).
  rewrite Hr in Hc. injection Hc as <-.
  destruct Hcases as (_ & _ & Hsame).
  split; [rewrite Hr; reflexivity|apply Hsame].
Defined.

Lemma abc_nonempty : "abc" <> "".
Proof. discriminate. Qed.

Lemma bearer_abc_nonempty : "Bearer abc" <> "".
Proof. discriminate. Qed.

(** What [/^Bearer\s+/] takes off a key: the prefix and all the white
    space after it, ASCII or not; nothing when no white space follows the
    prefix, when the prefix is spelled otherwise or when it does not come
    first. *)
Lemma bearer_prefix_forms :
  strip_bearer "Bearer abc" = "abc" /\
  strip_bearer ("Bearer" ++ utf8 [9]%nat ++ " " ++ utf8 [10]%nat ++ "abc") = "abc" /\
  strip_bearer ("Bearer" ++ NO_BREAK_SPACE ++ "abc") = "abc" /\
  strip_bearer ("Bearer" ++ EM_SPACE ++ IDEOGRAPHIC_SPACE ++ "abc") = "abc" /\
  strip_bearer ("Bearer " ++ BYTE_ORDER_MARK ++ "abc") = "abc" /\
  strip_bearer "Bearer " = "" /\
  strip_bearer "Bearerabc" = "Bearerabc" /\
  strip_bearer "bearer abc" = "bearer abc" /\
  strip_bearer " Bearer abc" = " Bearer abc" /\
  strip_bearer ("Bearer" ++ utf8 [226; 128; 139]%nat ++ "abc")
  = "Bearer" ++ utf8 [226; 128; 139]%nat ++ "abc".
Proof. repeat split. Qed.

Lemma pasted_key_nonempty : "Bearer" ++ NO_BREAK_SPACE ++ "abc" <> "".
Proof. discriminate. Qed.

(** The key [Bearer abc] is served as [abc], also when the white space
    after [Bearer] is a no-break space. *)
Lemma static_key_is_served_witness :
  (exists st1,
     exec (steady (empty_keychain (Err closed)))
          (initializeAuth Iso.iso_Date_new Iso.iso_toISOString)
          (initial_state with_static_key t0) 0 = (st1, Ok tt, []) /\
     exec (steady (empty_keychain (Err closed))) getWebexToken st1 0 = (st1, Ok "abc", [])) /\
  (exists st1,
     exec (steady (empty_keychain (Err closed)))
          (initializeAuth Iso.iso_Date_new Iso.iso_toISOString)
          (initial_state with_pasted_key t0) 0 = (st1, Ok tt, []) /\
     exec (steady (empty_keychain (Err closed))) getWebexToken st1 0 = (st1, Ok "abc", [])).
Proof.
  split.
  - destruct (exec (steady (empty_keychain (Err closed)))
                   (initializeAuth Iso.iso_Date_new Iso.iso_toISOString)
                   (initial_state with_static_key t0) 0) as [[st1 r1] tr1] eqn:H.
    exists st1.
    destruct (static_key_is_served Iso.iso_Date_new Iso.iso_toISOString
                (steady (empty_keychain (Err closed))) (initial_state with_static_key t0) 0
                "Bearer abc" st1 r1 tr1 eq_refl bearer_abc_nonempty H)
      as (-> & -> & _ & _ & Htok).
    split; [reflexivity|]. rewrite Htok. reflexivity.
  - destruct (exec (steady (empty_keychain (Err closed)))
                   (initializeAuth Iso.iso_Date_new Iso.iso_toISOString)
                   (initial_state with_pasted_key t0) 0) as [[st1 r1] tr1] eqn:H.
    exists st1.
    destruct (static_key_is_served Iso.iso_Date_new Iso.iso_toISOString
                (steady (empty_keychain (Err closed))) (initial_state with_pasted_key t0) 0
                ("Bearer" ++ NO_BREAK_SPACE ++ "abc") st1 r1 tr1 eq_refl pasted_key_nonempty H)
      as (-> & -> & _ & _ & Htok).
    split; [reflexivity|]. rewrite Htok. reflexivity.
Defined.

Lemma bearer_prefix_is_optional_witness :
  exists st1 headers,
    exec (steady (empty_keychain (Err closed)))
         (initializeAuth Iso.iso_Date_new Iso.iso_toISOString)
         (initial_state with_static_key t0) 0 = (st1, Ok tt, []) /\
    exec (steady (empty_keychain (Err closed))) (getWebexHeaders []) st1 0
    = (st1, Ok headers, []) /\
    prop "Authorization" headers = JStr "Bearer abc".
Proof.
  destruct (exec (steady (empty_keychain (Err closed)))
                 (initializeAuth Iso.iso_Date_new Iso.iso_toISOString)
                 (initial_state with_static_key t0) 0) as [[st1 r1] tr1] eqn:H.
  assert (Hr : r1 = Ok tt /\ tr1 = [])
    by (vm_compute in H; injection H as _ <- <-; split; reflexivity).
  destruct Hr as [-> ->].
  destruct (bearer_prefix_is_optional Iso.iso_Date_new Iso.iso_toISOString
              (steady (empty_keychain (Err closed))) (initial_state with_static_key t0) 0
              "abc" "Bearer abc" st1 (Ok tt) [] abc_nonempty eq_refl eq_refl
              (or_intror eq_refl) eq_refl H (steady (empty_keychain (Err closed))) 0%nat)
    as (headers & Hh & Ha).
  exists st1, headers. auto.
Defined.

Lemma getWebexToken_requires_init_witness :
  exists st',
    exec (steady (empty_keychain (Err closed))) getWebexToken (initial_state mac t0) 0
    = (st', Err NOT_INITIALIZED, []).
Proof.
  destruct (exec (steady (empty_keychain (Err closed))) getWebexToken (initial_state mac t0) 0)
    as [[st' r] tr] eqn:H.
  exists st'.
  destruct (getWebexToken_requires_init (steady (empty_keychain (Err closed)))
              (initial_state mac t0) 0 st' r tr eq_refl H) as (-> & -> & _).
  reflexivity.
Defined.

(** The token expired an hour ago and is served all the same. *)
Lemma getWebexToken_never_refreshes_witness :
  exec (steady (empty_keychain (Err closed))) getWebexToken stale_session 0
  = (stale_session, Ok "A", []).
Proof.
  destruct (exec (steady (empty_keychain (Err closed))) getWebexToken stale_session 0)
    as [[st' r] tr] eqn:H.
  destruct (getWebexToken_never_refreshes (steady (empty_keychain (Err closed)))
              stale_session 0 st' r tr eq_refl eq_refl eq_refl H)
    as (-> & _ & _ & _ & Hstale).
  destruct (Hstale eq_refl) as (-> & Hr).
  rewrite (Hr "A" eq_refl); [reflexivity|discriminate].
Defined.

Lemma one_header_nodup : NoDup (keys [("Authorization", JStr "Basic xyz")]).
Proof. repeat constructor. intros []. Qed.

Lemma caller_headers_win_witness :
  exists headers,
    exec (steady (empty_keychain (Err closed)))
         (getWebexJsonHeaders [("Authorization", JStr "Basic xyz")]) ready 0
    = (ready, Ok headers, []) /\
    prop "Authorization" headers = JStr "Basic xyz" /\
    prop "Content-Type" headers = JStr "application/json" /\
    prop "Accept" headers = JStr "application/json".
Proof.
  destruct (exec (steady (empty_keychain (Err closed)))
                 (getWebexJsonHeaders [("Authorization", JStr "Basic xyz")]) ready 0)
    as [[st' r] tr] eqn:H.
  assert (Hr : st' = ready /\ (exists headers, r = Ok headers) /\ tr = []).
  { vm_compute in H. injection H as <- <- <-. split; [reflexivity|]. split; [eauto|reflexivity]. }
  destruct Hr as (-> & (headers & ->) & ->).
  destruct (caller_headers_win (steady (empty_keychain (Err closed)))
              [("Authorization", JStr "Basic xyz")] ready 0 ready headers []
              one_header_nodup H) as (token & _ & Hgiven & Hdefault).
  exists headers. split; [reflexivity|]. split; [|split].
  - apply Hgiven. left. reflexivity.
  - rewrite Hdefault; [reflexivity|]. cbn. intros [Hk|[]]. discriminate.
  - rewrite Hdefault; [reflexivity|]. cbn. intros [Hk|[]]. discriminate.
Defined.

Lemma getWebexUrl_adds_missing_slash_witness :
  exec (steady (empty_keychain (Err closed))) (getWebexUrl "messages") ready 0
  = (ready, Ok "https://webexapis.com/v1/messages", []) /\
  exec (steady (empty_keychain (Err closed))) (getWebexUrl "/messages") ready 0
  = exec (steady (empty_keychain (Err closed))) (getWebexUrl "messages") ready 0.
Proof.
  exact (getWebexUrl_adds_missing_slash (steady (empty_keychain (Err closed)))
           "messages" ready 0 eq_refl).
Defined.

Lemma refreshAutoToken_outcome_witness :
  exists st' tr,
    exec (steady (empty_keychain (Ok token_A)))
         (refreshAutoToken Iso.iso_toISOString) (initial_state mac t0) 0
    = (st', Ok REFRESHED, tr) /\
    Cfg._cachedToken (config st') = Some "A" /\
    Cfg._authMethod (config st') = Some AutoRefresh.
Proof.
  destruct (exec (steady (empty_keychain (Ok token_A)))
                 (refreshAutoToken Iso.iso_toISOString) (initial_state mac t0) 0)
    as [[st' r] tr] eqn:H.
  assert (Hr : r = Ok REFRESHED /\ TM._cachedToken (manager st') = Some "A")
    by (vm_compute in H; injection H as <- <- _; split; reflexivity).
  destruct Hr as [-> Hmgr]. exists st', tr. split; [reflexivity|].
  pose proof (refreshAutoToken_outcome Iso.iso_toISOString _ _ _ _ _ _ H) as T.
  cbn in T. destruct T as (_ & [(_ & tok & Hc & Hm & _ & Ha & _) | (e & He & _)]).
  - rewrite Hmgr in Hm. injection Hm as <-. auto.
  - discriminate.
Defined.

Lemma reauthenticate_outcome_witness :
  exec (steady (empty_keychain (Err closed)))
       (reauthenticate Iso.iso_toISOString oauth_logs_in None) ready 0
  = (ready, Ok STATIC_CANNOT_AUTHENTICATE, []).
Proof.
  destruct (exec (steady (empty_keychain (Err closed)))
                 (reauthenticate Iso.iso_toISOString oauth_logs_in None) ready 0)
    as [[st' r] tr] eqn:H.
  pose proof (reauthenticate_outcome Iso.iso_toISOString oauth_logs_in _ _ _ _ _ _ _ H) as T.
  cbn in T. destruct T as (_ & -> & -> & ->). reflexivity.
Defined.

Lemma logout_outcome_witness :
  exists st' tr,
    exec (steady (empty_keychain (Err closed))) (logout oauth_clears) stale_session 0
    = (st', Ok LOGGED_OUT, tr) /\
    exec (steady (empty_keychain (Err closed))) getWebexToken st' 0
    = (st', Err NOT_INITIALIZED, []).
Proof.
  destruct (exec (steady (empty_keychain (Err closed))) (logout oauth_clears) stale_session 0)
    as [[st' r] tr] eqn:H.
  pose proof (logout_outcome oauth_clears _ _ _ _ _ _ H) as T.
  cbn in T. destruct T as (st0 & tr0 & st1 & r1 & tr1 & _ & HO & _ & Hr).
  unfold oauth_clears in HO. cbn in HO. injection HO as _ <- _.
  destruct Hr as (-> & _ & Hnext).
  exists st', tr. split; [reflexivity|apply Hnext].
Defined.

(** The manager holds an expired token, the Keychain a live one: the
    status reports the Keychain. *)
Lemma getFullAuthStatus_reads_the_keychain_witness :
  exists st' tr o,
    exec (steady (keychain_with "B" "2024-01-27T06:00:00.000Z" (Err closed)))
         (getFullAuthStatus Iso.iso_Date_new Iso.iso_toISOString Iso.iso_minutes_text oauth_reports)
         stale_session 0
    = (st', Ok (JObj o), tr) /\
    prop "authenticated" o = JBool true.
Proof.
  destruct (exec (steady (keychain_with "B" "2024-01-27T06:00:00.000Z" (Err closed)))
                 (getFullAuthStatus Iso.iso_Date_new Iso.iso_toISOString Iso.iso_minutes_text
                                    oauth_reports)
                 stale_session 0) as [[st' r] tr] eqn:H.
  assert (Hclock : clock st' = t0 + 2) by (vm_compute in H; injection H as <- _ _; reflexivity).
  pose proof (getFullAuthStatus_reads_the_keychain Iso.iso_Date_new Iso.iso_toISOString
                Iso.iso_minutes_text oauth_reports _ _ _ _ _ _ H) as T.
  cbn in T.
  replace (Iso.parse "2024-01-27T06:00:00.000Z") with (DateAt (t0 + 6 * hour)) in T
    by (vm_compute; reflexivity).
  destruct T as (_ & _ & o & -> & _ & Ha).
  exists st', tr, o. split; [reflexivity|]. rewrite Ha, Hclock. reflexivity.
Defined.

Lemma token_A_nonempty : "A" <> "".
Proof. discriminate. Qed.

Lemma background_refresh_reaches_callers_witness :
  exists st1 tr1 st2,
    exec (steady (empty_keychain (Ok token_A)))
         (timerCallback Iso.iso_toISOString PlannedRefresh) refreshing_session 0
    = (st1, Ok tt, tr1) /\
    exec (steady (empty_keychain (Err closed))) getWebexToken st1 0 = (st2, Ok "A", []).
Proof.
  destruct (exec (steady (empty_keychain (Ok token_A))) (forceRefresh Iso.iso_toISOString)
                 (entering PlannedRefresh refreshing_session) 0) as [[st1 r1] tr1] eqn:H.
  assert (Hr : r1 = Ok "A") by (vm_compute in H; injection H as _ <- _; reflexivity).
  subst r1.
  destruct (background_refresh_reaches_callers Iso.iso_toISOString
              (steady (empty_keychain (Ok token_A))) PlannedRefresh refreshing_session 0
              st1 "A" tr1 eq_refl eq_refl eq_refl token_A_nonempty H)
    as (Hcb & _ & _ & Hnext).
  destruct (Hnext (steady (empty_keychain (Err closed))) 0%nat) as [st2 Hst2].
  exists st1, tr1, st2. split; assumption.
Defined.


(** The two requests of that call as they go out: the second carries the
    cursor as [beforeMessage]. *)
Lemma second_page_query :
  exists st' r,
    exec (api two_pages)
         (executeFunction Iso.iso_Date_new (list_messages since_jan_27 (Some 0))) ready 0
    = (st', r,
       [HttpGet "https://webexapis.com/v1/messages"
                [("roomId", JStr "R1"); ("max", JNum 100)]
                [("Accept", JStr "application/json"); ("Authorization", JStr "Bearer abc")];
        HttpGet "https://webexapis.com/v1/messages"
                [("roomId", JStr "R1"); ("beforeMessage", JStr "M1"); ("max", JNum 100)]
                [("Accept", JStr "application/json"); ("Authorization", JStr "Bearer abc")]]).
Proof. eexists _, _. vm_compute. reflexivity. Qed.

Lemma failed_request_fails_the_call_witness :
  exists st' tr,
    exec api_down
         (executeFunction Iso.iso_Date_new (list_messages since_jan_27 None)) ready 0
    = (st', Ok (error_result unavailable), tr).
Proof.
  destruct (exec api_down
                 (executeFunction Iso.iso_Date_new (list_messages since_jan_27 None)) ready 0)
    as [[st' r] tr] eqn:H.
  exists st', tr.
  assert (Hfail : request_failed api_down 0 tr unavailable).
  { vm_compute in H. injection H as _ _ <-.
    eexists 0%nat, _, _, _. split; reflexivity. }
  rewrite (failed_request_fails_the_call Iso.iso_Date_new _ _ _ _ _ _ _ _ H Hfail).
  reflexivity.
Defined.

Lemma listing_leaves_the_manager_alone_witness :
  exists st' o tr,
    exec (api (one_page [m1; m2; m3]))
         (executeFunction Iso.iso_Date_new (list_messages None None)) ready 0
    = (st', Ok (JObj o), tr) /\
    manager st' = manager ready /\ timers st' = [] /\ config st' = config ready.
Proof.
  destruct (exec (api (one_page [m1; m2; m3]))
                 (executeFunction Iso.iso_Date_new (list_messages None None)) ready 0)
    as [[st' r] tr] eqn:H.
  destruct (listing_leaves_the_manager_alone Iso.iso_Date_new _ _ _ _ _ _ _ H)
    as ((o & ->) & _ & Hm & Ht & _ & Hc).
  exists st', o, tr. auto.
Defined.

(** [max = -1]: of the two messages in range only the first comes back. *)
Lemma negative_max_stops_after_one_page_witness :
  exists st' tr,
    exec (api (one_page [m1; m2; m3]))
         (executeFunction Iso.iso_Date_new (list_messages since_jan_27 (Some (-1)))) ready 0
    = (st', Ok (listing_result true "2024-01-27T00:00:00Z" [m1]), tr) /\
    List.length tr = 1%nat.
Proof.
  destruct (exec (api (one_page [m1; m2; m3]))
                 (executeFunction Iso.iso_Date_new (list_messages since_jan_27 (Some (-1))))
                 ready 0) as [[st' r] tr] eqn:H.
  exists st', tr.
  pose proof (negative_max_stops_after_one_page Iso.iso_Date_new
                (api (one_page [m1; m2; m3])) (list_messages since_jan_27 (Some (-1)))
                ready 0 st' r tr "2024-01-27T00:00:00Z" t0 (-1) ready (default_headers "abc")
                eq_refl nonempty_bound eq_refl eq_refl eq_refl eq_refl H) as T.
  cbn zeta in T. destruct T as (-> & Hr).
  split; [|reflexivity]. vm_compute in Hr. rewrite Hr. vm_compute. reflexivity.
Defined.
